(** * parse_taskbook: the text-pattern engine of the task-book parser

    A shallow embedding of [parse_taskbook.py]: Python strings, the part of
    the [re] module the program uses, the task extractor, the answer
    extractor and the outline extractor, followed by the properties of the
    specification that concern them. *)

From Stdlib Require Import Ascii String NArith List.
From stdpp Require Import gmap list strings.

(** ** Python strings

    A Python [str] is a sequence of Unicode code points. *)

Abbreviation str := (list N).

Local Open Scope N_scope.

Definition ch (a : ascii) : N := N_of_ascii a.
Arguments ch : simpl never.

Fixpoint bytes_of (s : string) : list N :=
  match s with
  | EmptyString => []
  | String a s' => N_of_ascii a :: bytes_of s'
  end.

(** The literals of the source file are UTF-8; [u] reads one as code points. *)
Fixpoint utf8_decode (bs : list N) : str :=
  match bs with
  | [] => []
  | b0 :: t =>
    if b0 <? 128 then b0 :: utf8_decode t
    else if b0 <? 224 then
      match t with
      | b1 :: t1 => ((b0 - 192) * 64 + (b1 - 128)) :: utf8_decode t1
      | _ => []
      end
    else if b0 <? 240 then
      match t with
      | b1 :: b2 :: t2 =>
        ((b0 - 224) * 4096 + (b1 - 128) * 64 + (b2 - 128)) :: utf8_decode t2
      | _ => []
      end
    else
      match t with
      | b1 :: b2 :: b3 :: t3 =>
        ((b0 - 240) * 262144 + (b1 - 128) * 4096 + (b2 - 128) * 64 + (b3 - 128))
          :: utf8_decode t3
      | _ => []
      end
  end.

Definition u (s : string) : str := utf8_decode (bytes_of s).

Definition in_range (lo hi c : N) : bool := (lo <=? c) && (c <=? hi).

(** [str.isspace] on one character, which is also [\s] of a [str] pattern. *)
Definition isspace (c : N) : bool :=
  in_range 9 13 c || in_range 28 32 c || (c =? 133) || (c =? 160)
  || (c =? 5760) || in_range 8192 8202 c || in_range 8232 8233 c
  || (c =? 8239) || (c =? 8287) || (c =? 12288).

(** First code point of every run of ten decimal digits (category Nd,
    Unicode 14). *)
Definition decimal_zeros : list N :=
  [48; 1632; 1776; 1984; 2406; 2534; 2662; 2790; 2918; 3046; 3174; 3302;
   3430; 3558; 3664; 3792; 3872; 4160; 4240; 6112; 6160; 6470; 6608; 6784;
   6800; 6992; 7088; 7232; 7248; 42528; 43216; 43264; 43472; 43504; 43600;
   44016; 65296; 66720; 68912; 69734; 69872; 69942; 70096; 70384; 70736;
   70864; 71248; 71360; 71472; 71904; 72016; 72784; 73040; 73120; 92768;
   92864; 93008; 120782; 120792; 120802; 120812; 120822; 123200; 123632;
   125264; 130032].

(** [\d] of a [str] pattern: a Unicode decimal digit. *)
Definition isdigit (c : N) : bool :=
  existsb (fun z => in_range z (z + 9) c) decimal_zeros.

(** The class [[а-яё]] compiled with [re.IGNORECASE]: both cases of the
    Russian letters and the lower-case variants U+1C80..U+1C86 that the
    case-insensitive matcher equates with в, д, о, с, т, ъ. *)
Definition cyr (c : N) : bool :=
  in_range 1072 1103 c || (c =? 1105)
  || in_range 1040 1071 c || (c =? 1025)
  || in_range 7296 7302 c.

Fixpoint dropwhile (p : N → bool) (s : str) : str :=
  match s with
  | [] => []
  | c :: t => if p c then dropwhile p t else s
  end.

Fixpoint takewhile (p : N → bool) (s : str) : str :=
  match s with
  | [] => []
  | c :: t => if p c then c :: takewhile p t else []
  end.

Definition lstrip (s : str) : str := dropwhile isspace s.
Definition rstrip (s : str) : str := rev (lstrip (rev s)).
(** [s.strip()] *)
Definition strip (s : str) : str := rstrip (lstrip s).

Local Close Scope N_scope.

(** ** The [re] module

    A backtracking matcher for the constructs the patterns of the program
    use.  Alternatives are tried left to right, a greedy repetition tries
    one more iteration before the rest of the pattern and a lazy one the
    rest of the pattern first; the first complete match wins. *)

Inductive regex : Type :=
| Eps
| Cls (p : N → bool)            (* one character of a class *)
| Bol                           (* ^ *)
| Eol                           (* $ *)
| Cat (a b : regex)
| Alt (a b : regex)             (* a|b *)
| Star (greedy : bool) (a : regex)   (* a* and a*? *)
| Grp (n : nat) (a : regex)     (* capturing group number n *)
| Ahead (a : regex)             (* (?=a) *)
| Behind (p : N → bool).        (* (?<=c) for a one-character class *)

Definition Lit (a : ascii) : regex := Cls (N.eqb (ch a)).
Definition Any : regex := Cls (fun c => negb (N.eqb c 10)).      (* . *)
Definition NotIn (cs : list ascii) : regex :=
  Cls (fun c => negb (existsb (fun a => N.eqb (ch a) c) cs)).    (* [^...] *)
Definition Plus (greedy : bool) (a : regex) : regex := Cat a (Star greedy a).
Definition Opt (a : regex) : regex := Alt a Eps.                 (* a? *)
Definition Seq (l : list regex) : regex := foldr Cat Eps l.
Definition Lits (s : str) : regex := Seq (map (fun c => Cls (N.eqb c)) s).

(** A position in the subject string, with the groups captured so far:
    [pre] is the text before the position, reversed, [suf] the text from it. *)
Record mstate : Type := MState {
  pre : str;
  suf : str;
  caps : gmap nat str
}.

Definition kont : Type := mstate → option mstate.

Definition advance (c : N) (t : str) (st : mstate) : mstate :=
  MState (c :: pre st) t (caps st).

(** Text consumed between two positions of one match. *)
Definition consumed (st st' : mstate) : str :=
  rev (take (length (pre st') - length (pre st)) (pre st')).

Definition capture (n : nat) (st st' : mstate) : mstate :=
  MState (pre st') (suf st') (<[n := consumed st st']> (caps st')).

Definition orelse {A} (x y : option A) : option A :=
  match x with Some _ => x | None => y end.

(** One repetition more is tried only when the last one consumed input,
    so [fuel], the length of the rest of the subject, is never exhausted
    before the repetition stops. *)
Fixpoint star_loop (body : mstate → kont → option mstate) (greedy : bool)
    (fuel : nat) (st : mstate) (k : kont) : option mstate :=
  match fuel with
  | O => k st
  | S f =>
    let more :=
      body st (fun st' =>
        if bool_decide (length (suf st') < length (suf st))
        then star_loop body greedy f st' k else None) in
    if greedy then orelse more (k st) else orelse (k st) more
  end.

Fixpoint rmatch (r : regex) (st : mstate) (k : kont) {struct r} : option mstate :=
  match r with
  | Eps => k st
  | Cls p =>
    match suf st with
    | c :: t => if p c then k (advance c t st) else None
    | [] => None
    end
  | Bol => match pre st with [] => k st | _ => None end
  | Eol =>
    match suf st with
    | [] => k st
    | [c] => if N.eqb c 10 then k st else None
    | _ => None
    end
  | Cat a b => rmatch a st (fun st' => rmatch b st' k)
  | Alt a b => orelse (rmatch a st k) (rmatch b st k)
  | Star g a => star_loop (rmatch a) g (length (suf st)) st k
  | Grp n a => rmatch a st (fun st' => k (capture n st st'))
  | Ahead a =>
    match rmatch a st Some with
    | Some st' => k (MState (pre st) (suf st) (caps st'))
    | None => None
    end
  | Behind p =>
    match pre st with
    | c :: _ => if p c then k st else None
    | [] => None
    end
  end.

(** The match object: [group n] is [None] when the group took no part. *)
Definition group (n : nat) (m : mstate) : option str := caps m !! n.

Definition at_pos (p s : str) : mstate := MState p s ∅.

(** [re.match(r, s)] *)
Definition re_match (r : regex) (s : str) : option mstate :=
  rmatch r (at_pos [] s) Some.

(** Leftmost match at or after a position; also returns the text skipped. *)
Fixpoint search_from (r : regex) (skipped p s : str) : option (str * mstate) :=
  match rmatch r (at_pos p s) Some with
  | Some m => Some (rev skipped, m)
  | None =>
    match s with
    | [] => None
    | c :: t => search_from r (c :: skipped) (c :: p) t
    end
  end.

(** [re.search(r, s)] *)
Definition re_search (r : regex) (s : str) : option mstate :=
  snd <$> search_from r [] [] s.

(** The successive non-overlapping matches of [r], each with the unmatched
    text before it, and the unmatched text after the last one.  The
    patterns the program scans with match at least one character; after an
    empty match the scan just moves one character on.  Every round leaves
    less of the subject, so [fuel], more than its length, is never
    exhausted. *)
Fixpoint scan (fuel : nat) (r : regex) (p s : str) : list (str * mstate) * str :=
  match fuel with
  | O => ([], s)
  | S f =>
    match search_from r [] p s with
    | None => ([], s)
    | Some (t, m) =>
      if bool_decide (length (suf m) < length s - length t)
      then let '(ms, rest) := scan f r (pre m) (suf m) in ((t, m) :: ms, rest)
      else
        match drop (length t) s with
        | [] => ([(t, m)], [])
        | c :: s' =>
          let '(ms, rest) := scan f r (c :: pre m) s' in
          match ms with
          | [] => ([(t, m)], c :: rest)
          | (t', m') :: ms' => ((t, m) :: (c :: t', m') :: ms', rest)
          end
        end
    end
  end.

Definition re_scan (r : regex) (s : str) : list (str * mstate) * str :=
  scan (S (length s)) r [] s.

(** [re.finditer(r, s)] *)
Definition re_finditer (r : regex) (s : str) : list mstate :=
  (fst (re_scan r s)).*2.

(** [re.sub(r, repl, s)] for a replacement without group references *)
Definition re_sub (r : regex) (repl s : str) : str :=
  let '(ms, rest) := re_scan r s in
  concat (map (fun tm => fst tm ++ repl) ms) ++ rest.

(** [re.split(r, s)] for a pattern without groups *)
Definition re_split (r : regex) (s : str) : list str :=
  let '(ms, rest) := re_scan r s in ms.*1 ++ [rest].

(** Text of a group that takes part in every match of its pattern. *)
Definition group_str (n : nat) (m : mstate) : str := default [] (group n m).

(** ** The patterns of the program *)

Definition digit : regex := Cls isdigit.       (* \d *)
Definition space : regex := Cls isspace.       (* \s *)
Definition letter : regex := Cls cyr.          (* [а-яё], re.IGNORECASE *)

(** r"(?:^|\s+)(\d+)\)\s*([^;.]+?)(?=(?:\s+\d+\)|$|\.|;))" *)
Definition NUMBERED_VARIANT : regex :=
  Seq [Alt Bol (Plus true space); Grp 1 (Plus true digit); Lit ")";
       Star true space; Grp 2 (Plus false (NotIn [";"; "."]%char));
       Ahead (Alt (Seq [Plus true space; Plus true digit; Lit ")"])
             (Alt Eol (Alt (Lit ".") (Lit ";"))))].

(** r"(?:^|\s+)([а-яё])\)\s*([^;]*?)(?=(?:\s+[а-яё]\)|$|\.|;))" *)
Definition LETTER_VARIANT : regex :=
  Seq [Alt Bol (Plus true space); Grp 1 letter; Lit ")";
       Star true space; Grp 2 (Star false (NotIn [";"]%char));
       Ahead (Alt (Seq [Plus true space; letter; Lit ")"])
             (Alt Eol (Alt (Lit ".") (Lit ";"))))].

(** r"^(\d+)\.\s*(\d+)\)\s*(.+)" *)
Definition INLINE_NUMBERED : regex :=
  Seq [Bol; Grp 1 (Plus true digit); Lit "."; Star true space;
       Grp 2 (Plus true digit); Lit ")"; Star true space; Grp 3 (Plus true Any)].

(** r"^(\d+)\.\s*([а-яё])\)\s*(.+)" *)
Definition INLINE_LETTER : regex :=
  Seq [Bol; Grp 1 (Plus true digit); Lit "."; Star true space;
       Grp 2 letter; Lit ")"; Star true space; Grp 3 (Plus true Any)].

(** r"^\s*(\d+)\)\s+(.+)" *)
Definition NEW_LINE_NUMBERED : regex :=
  Seq [Bol; Star true space; Grp 1 (Plus true digit); Lit ")";
       Plus true space; Grp 2 (Plus true Any)].

(** r"^\s*([а-яё])\)\s*(.+)" *)
Definition NEW_LINE_LETTER : regex :=
  Seq [Bol; Star true space; Grp 1 letter; Lit ")";
       Star true space; Grp 2 (Plus true Any)].

(** r"\s+", the pattern of the line normalizer *)
Definition SPACES : regex := Plus true space.

(** r"^\d+\.\d+\." *)
Definition THREE_LEVEL : regex :=
  Seq [Bol; Plus true digit; Lit "."; Plus true digit; Lit "."].

(** r"^(\d+)\.\s*( .* )", spaced as under re.X *)
Definition MAIN : regex :=
  Seq [Bol; Grp 1 (Plus true digit); Lit "."; Star true space;
       Grp 2 (Star true Any)].

(** rf"^{current_main_id}\.\d+\.": the identifier, a run of decimal
    digits, stands for itself in the pattern. *)
Definition HEADER (current_main_id : str) : regex :=
  Seq [Bol; Lits current_main_id; Lit "."; Plus true digit; Lit "."].

(** r"(?<=\.)\s+(?=\d+\.)" *)
Definition ANSWER_SPLIT : regex :=
  Seq [Behind (N.eqb (ch ".")); Plus true space;
       Ahead (Seq [Plus true digit; Lit "."])].

(** r"(\d+)\.(.+)" *)
Definition ANSWER_TASK : regex :=
  Seq [Grp 1 (Plus true digit); Lit "."; Grp 2 (Plus true Any)].

(** r"^\s*[а-яё0-9]\)", re.IGNORECASE *)
Definition VARIANT_MARK : regex :=
  Seq [Bol; Star true space;
       Cls (fun c => cyr c || in_range 48 57 c); Lit ")"].

(** r"\.$" *)
Definition FINAL_DOT : regex := Seq [Lit "."; Eol].

(** r"^\d+(\.\d+)*[\.\s\t]+" *)
Definition TOC_LINE : regex :=
  Seq [Bol; Plus true digit; Star true (Grp 1 (Seq [Lit "."; Plus true digit]));
       Plus true (Cls (fun c => N.eqb (ch ".") c || isspace c || N.eqb 9 c))].

(** r"^( \d+(?:\.\d+)* )[\.\s\t]+(.+?)(?:\s+\d+)?$", spaced as under re.X *)
Definition TOC_SECTION : regex :=
  Seq [Bol;
       Grp 1 (Seq [Plus true digit; Star true (Seq [Lit "."; Plus true digit])]);
       Plus true (Cls (fun c => N.eqb (ch ".") c || isspace c || N.eqb 9 c));
       Grp 2 (Plus false Any);
       Opt (Seq [Plus true space; Plus true digit]); Eol].

(** ** Task records *)

Record TaskRecord : Type := Task {
  id_tasks_book : str;
  task : str;
  answer : str;
  classes : str;
  topic_id : Z;
  level : Z
}.

Definition no_answer : str := u "Отсутствует".

(** [f'{a}.{b}'] *)
Definition dotted (a b : str) : str := a ++ ch "." :: b.

Definition create_task (main_id : str) (variant : option str) (task_text : str)
    (is_subtask : bool) : TaskRecord :=
  let task_id :=
    match variant with
    | Some (c :: v) => dotted main_id (c :: v)
    | _ => main_id                      (* None and '' are falsy *)
    end in
  let task_text := if is_subtask then 9%N :: task_text else task_text in
  Task task_id task_text no_answer (u "5;6") 1 1.

(** ** Answer extractor *)

(** The [for var_match in variants] loop. *)
Definition add_variants (task_num : str) (variants : list mstate)
    (answers : gmap str str) : gmap str str :=
  foldl (fun acc var_match =>
           let variant := group_str 1 var_match in
           let answer := strip (group_str 2 var_match) in
           <[dotted task_num variant := answer]> acc)
        answers variants.

(** The [for pattern in [...]: ... break / else: ...] loop of one part. *)
Fixpoint answers_of_part (patterns : list regex) (task_num answer_text : str)
    (answers : gmap str str) : gmap str str :=
  match patterns with
  | pattern :: rest =>
    match re_finditer pattern answer_text with
    | [] => answers_of_part rest task_num answer_text answers
    | variants => add_variants task_num variants answers
    end
  | [] =>
    if bool_decide (answer_text ≠ [])
       && negb (bool_decide (is_Some (re_search VARIANT_MARK answer_text)))
    then <[task_num := strip (re_sub FINAL_DOT [] answer_text)]> answers
    else answers
  end.

Definition extract_answers_from_line (line : str) : gmap str str :=
  let parts := re_split ANSWER_SPLIT line in
  foldl (fun answers part =>
           match re_match ANSWER_TASK part with
           | None => answers
           | Some task_match =>
             let task_num := group_str 1 task_match in
             let answer_text := strip (group_str 2 task_match) in
             answers_of_part [NUMBERED_VARIANT; LETTER_VARIANT]
                             task_num answer_text answers
           end)
        ∅ parts.

(** ** Task extractor *)

Definition sentinel : str := u "Ответы и советы".

(** [re.sub(r'\s+', ' ', line.strip())] *)
Definition normalize (line : str) : str := re_sub SPACES [ch " "] (strip line).

Record scan_state : Type := ScanState {
  tasks : list TaskRecord;
  current_main_id : option str;
  answers_section : bool;
  all_answers : gmap str str
}.

Definition initial : scan_state := ScanState [] None false ∅.

(** Truth value of a string or [None]. *)
Definition truthy (o : option str) : bool :=
  match o with Some (_ :: _) => true | _ => false end.

(** The loop over the inline patterns: the variant and the task text of
    the first pattern that matches, [None] when the [else] branch runs. *)
Fixpoint inline_variant (patterns : list (regex * nat)) (line : str)
    : option (str * str) :=
  match patterns with
  | [] => None
  | (pattern, group_idx) :: rest =>
    match re_match pattern line with
    | Some variant_match =>
      Some (group_str group_idx variant_match, strip (group_str 3 variant_match))
    | None => inline_variant rest line
    end
  end.

(** The loop over the new-line patterns, with its test
    [variant_match and current_main_id]. *)
Fixpoint new_line_variant (patterns : list (regex * nat))
    (current_main_id : option str) (line : str) : option (str * str) :=
  match patterns with
  | [] => None
  | (pattern, group_idx) :: rest =>
    match re_match pattern line with
    | Some variant_match =>
      if truthy current_main_id
      then Some (group_str group_idx variant_match,
                 strip (group_str 2 variant_match))
      else new_line_variant rest current_main_id line
    | None => new_line_variant rest current_main_id line
    end
  end.

(** [i + 1 < len(lines) and re.match(rf'^{current_main_id}\.\d+\.', lines[i + 1].strip())] *)
Definition is_header (lines : list str) (i : nat) (current_main_id : str) : bool :=
  match lines !! (i + 1)%nat with
  | Some next => bool_decide (is_Some (re_match (HEADER current_main_id) (strip next)))
  | None => false
  end.

(** The records one line of the task part adds, and the register after it. *)
Definition scan_task_line (lines : list str) (i : nat) (line : str)
    (current_main_id : option str) : list TaskRecord * option str :=
  if bool_decide (is_Some (re_match THREE_LEVEL line)) then ([], current_main_id)
  else
    match re_match MAIN line with
    | Some main_match =>
      let main_id := group_str 1 main_match in
      let suffix := strip (group_str 2 main_match) in
      if is_header lines i main_id then ([], Some main_id)
      else
        match inline_variant [(INLINE_LETTER, 2%nat); (INLINE_NUMBERED, 2%nat)] line with
        | Some (variant, task_text) =>
          ([create_task main_id (Some variant) task_text true], Some main_id)
        | None =>
          match suffix with
          | _ :: _ => ([create_task main_id None suffix false], Some main_id)
          | [] => ([], Some main_id)
          end
        end
    | None =>
      match new_line_variant [(NEW_LINE_LETTER, 1%nat); (NEW_LINE_NUMBERED, 1%nat)]
                             current_main_id line with
      | Some (variant, task_text) =>
        ([create_task (default [] current_main_id) (Some variant) task_text true],
         current_main_id)
      | None => ([], current_main_id)
      end
    end.

(** One iteration of [for i, line in enumerate(lines)]. *)
Definition process_line (lines : list str) (i : nat) (line : str)
    (st : scan_state) : scan_state :=
  let line := normalize line in
  if bool_decide (line = sentinel)
  then ScanState (tasks st) (current_main_id st) true (all_answers st)
  else if negb (answers_section st) then
    let '(new, reg) := scan_task_line lines i line (current_main_id st) in
    ScanState (tasks st ++ new) reg (answers_section st) (all_answers st)
  else
    let answers := extract_answers_from_line line in
    (* all_answers.update(answers) *)
    ScanState (tasks st) (current_main_id st) (answers_section st)
              (answers ∪ all_answers st).

Fixpoint scan_lines (lines : list str) (i : nat) (rest : list str)
    (st : scan_state) : scan_state :=
  match rest with
  | [] => st
  | line :: rest' => scan_lines lines (S i) rest' (process_line lines i line st)
  end.

(** The final loop: a task whose id is a key of the mapping takes its value. *)
Definition merge_answers (all_answers : gmap str str) (tasks : list TaskRecord)
    : list TaskRecord :=
  map (fun t =>
         match all_answers !! id_tasks_book t with
         | Some a => Task (id_tasks_book t) (task t) a (classes t) (topic_id t) (level t)
         | None => t
         end)
      tasks.

(** [lines = [p.text.strip() for p in doc.paragraphs if p.text.strip()]] *)
Definition stripped_lines (paragraphs : list str) : list str :=
  filter (fun l => l ≠ []) (map strip paragraphs).

(** State at the end of the loop over the lines of the document. *)
Definition scanned (paragraphs : list str) : scan_state :=
  let lines := stripped_lines paragraphs in
  scan_lines lines 0 lines initial.

(** [extract_tasks_from_docx], given the texts of the paragraphs. *)
Definition extract_tasks_from_docx (paragraphs : list str) : list TaskRecord :=
  let st := scanned paragraphs in
  merge_answers (all_answers st) (tasks st).

(** ** Outline extractor *)

Record TocItem : Type := Toc {
  toc_id : Z;
  name : str;
  parent : Z;
  temp : option str          (* removed before the list is returned *)
}.

(** [needle in text] *)
Fixpoint starts_with (needle text : str) : bool :=
  match needle, text with
  | [], _ => true
  | a :: n', b :: t' => N.eqb a b && starts_with n' t'
  | _ :: _, [] => false
  end.

Fixpoint contains (needle text : str) : bool :=
  starts_with needle text ||
  match text with
  | [] => false
  | _ :: t => contains needle t
  end.

(** [s.rsplit(sep, 1)[0]] *)
Definition rsplit1_head (sep : N) (s : str) : str :=
  if existsb (N.eqb sep) s
  then rev (drop 1 (dropwhile (fun c => negb (N.eqb sep c)) (rev s)))
  else s.

(** [next((item['id'] for item in toc if item.get('temp') == key), 0)] *)
Fixpoint first_id_with_temp (key : str) (toc : list TocItem) : Z :=
  match toc with
  | [] => 0
  | item :: rest =>
    if bool_decide (temp item = Some key) then toc_id item
    else first_id_with_temp key rest
  end.

Definition resolve_parent (toc : list TocItem) (section_num : str) : Z :=
  if existsb (N.eqb (ch ".")) section_num
  then first_id_with_temp (rsplit1_head (ch ".") section_num) toc
  else 0.

(** The loop over the paragraphs; it returns at [break]. *)
Fixpoint toc_loop (paragraphs : list str) (inside_toc : bool) (current_id : Z)
    (toc : list TocItem) : list TocItem :=
  match paragraphs with
  | [] => toc
  | para :: rest =>
    let text := strip para in
    if contains (u "Оглавление") text then toc_loop rest true current_id toc
    else if inside_toc && bool_decide (is_Some (re_match TOC_LINE text)) then
      match re_match TOC_SECTION text with
      | Some section_match =>
        let section_num := group_str 1 section_match in
        let section_name := strip (group_str 2 section_match) in
        let parent := resolve_parent toc section_num in
        toc_loop rest inside_toc (current_id + 1)
                 (toc ++ [Toc current_id section_name parent (Some section_num)])
      | None => toc_loop rest inside_toc current_id toc
      end
    else if inside_toc && negb (bool_decide (is_Some (re_match TOC_LINE text)))
    then toc
    else toc_loop rest inside_toc current_id toc
  end.

(** The list before the [temp] keys are removed. *)
Definition toc_with_temp (paragraphs : list str) : list TocItem :=
  toc_loop paragraphs false 1 [].

(** [item.pop('temp', None)] *)
Definition pop_temp (item : TocItem) : TocItem :=
  Toc (toc_id item) (name item) (parent item) None.

(** [extract_toc], given the texts of the paragraph elements. *)
Definition extract_toc (paragraphs : list str) : list TocItem :=
  map pop_temp (toc_with_temp paragraphs).

(** * Vocabulary of the properties *)

(** A continuation that fails wherever the next character is in [p]. *)
Definition rejects (p : N → bool) (k : kont) : Prop :=
  ∀ pr x t c, p x = true → k (MState pr (x :: t) c) = None.

(** The state after the longest run of [p] from a position. *)
Definition munch (p : N → bool) (pr s : str) (c : gmap nat str) : mstate :=
  MState (rev (takewhile p s) ++ pr) (dropwhile p s) c.

(** [s] does not begin with a character of [p]. *)
Definition stops (p : N → bool) (s : str) : Prop :=
  match s with x :: _ => p x = false | [] => True end.

(** The members of a class, listed, to compare classes by evaluation. *)
Definition nrange (lo : N) (n : nat) : list N :=
  map (fun i => (lo + N.of_nat i)%N) (seq 0 n).

Definition space_chars : list N :=
  nrange 9 5 ++ nrange 28 5 ++ [133; 160; 5760]%N ++ nrange 8192 11
  ++ [8232; 8233; 8239; 8287; 12288]%N.

Definition letter_chars : list N :=
  1025%N :: nrange 1040 64 ++ 1105%N :: nrange 7296 7.

Definition nonspace (c : N) : bool := negb (isspace c).
Definition notnl (c : N) : bool := negb (N.eqb c 10).

(** Every run of whitespace becomes one space. *)
Fixpoint squeeze (s : str) : str :=
  match s with
  | [] => []
  | x :: t =>
    if isspace x then
      match t with
      | y :: _ => if isspace y then squeeze t else ch " " :: squeeze t
      | [] => [ch " "]
      end
    else x :: squeeze t
  end.

(** The subject with every match of a scan replaced by [repl]. *)
Definition sub_of (repl : str) (r : list (str * mstate) * str) : str :=
  concat (map (fun tm => fst tm ++ repl) (fst r)) ++ snd r.

(** What a normalized line looks like: the only whitespace is the space
    character, and the line does not end in one. *)
Definition tidy (l : str) : Prop :=
  (∀ c, c ∈ l → isspace c = true → c = ch " ") ∧
  (∀ c, last l = Some c → isspace c = false).

(** A number: a non-empty run of decimal digits. *)
Definition digits (n : str) : Prop := n ≠ [] ∧ forallb isdigit n = true.

(** Three-level dotted lines. *)
Definition three_level_shape (l : str) : Prop :=
  ∃ d1 d2 rest, digits d1 ∧ digits d2 ∧ l = d1 ++ ch "." :: d2 ++ ch "." :: rest.

(** Lines that begin with a number and a dot. *)
Definition main_shape (l : str) : Prop :=
  ∃ n t, digits n ∧ l = n ++ ch "." :: t.

(** The line after a section header. *)
Definition header_shape (n s : str) : Prop :=
  ∃ m rest, digits m ∧ s = n ++ ch "." :: m ++ ch "." :: rest.

(** Lines "letter) ..." and "M) ...". *)
Definition new_line_shape (l : str) : Prop :=
  (∃ x rest, cyr x = true ∧ l = x :: ch ")" :: rest) ∨
  (∃ m rest, digits m ∧ l = m ++ ch ")" :: rest).

(** State of the scan when the first [i] lines have been processed. *)
Definition state_at (lines : list str) (i : nat) : scan_state :=
  scan_lines lines 0 (take i lines) initial.

(** The scan has not reached the answers and every record has the
    default answer. *)
Definition quiet (st : scan_state) : Prop :=
  answers_section st = false ∧ all_answers st = ∅ ∧
  Forall (fun t => answer t = no_answer) (tasks st).

(** The parent of the node found as number [k], with section number
    [num], among the nodes [toc] found before and after it. *)
Definition parent_rule (toc : list TocItem) (k : nat) (item : TocItem)
    (num : str) : Prop :=
  toc_id item = (Z.of_nat k + 1)%Z ∧
  (ch "." ∉ num → parent item = 0%Z) ∧
  (∀ prefix seg, num = prefix ++ ch "." :: seg → ch "." ∉ seg →
     (∀ j itj, (j < k)%nat → toc !! j = Some itj → temp itj ≠ Some prefix) →
     parent item = 0%Z) ∧
  (∀ prefix seg j itj, num = prefix ++ ch "." :: seg → ch "." ∉ seg →
     (j < k)%nat → toc !! j = Some itj → temp itj = Some prefix →
     (∀ j' itj', (j' < j)%nat → toc !! j' = Some itj' → temp itj' ≠ Some prefix) →
     parent item = toc_id itj).

(** What the loop of the outline extractor keeps true of its list. *)
Definition toc_inv (toc : list TocItem) (current_id : Z) : Prop :=
  current_id = (Z.of_nat (length toc) + 1)%Z ∧
  ∀ k item, toc !! k = Some item →
    ∃ num, temp item = Some num ∧ parent_rule toc k item num.

(** A record as [create_task] makes it: no answer yet, fixed metadata. *)
Definition fresh (t : TaskRecord) : Prop :=
  answer t = no_answer ∧ classes t = u "5;6" ∧ topic_id t = 1%Z ∧ level t = 1%Z.

(** The heading that opens the outline. *)
Definition toc_heading : str := u "Оглавление".

(** The paragraph, stripped, contains the heading of the outline. *)
Definition has_heading (para : str) : Prop :=
  ∃ a b, strip para = a ++ toc_heading ++ b.

(** The class [[\.\s\t]] between a section number and its title. *)
Definition tocsep (c : N) : bool := N.eqb (ch ".") c || isspace c || N.eqb 9 c.

(** The text of the segments [.d] of a dotted section number. *)
Definition segments (ds : list str) : str :=
  concat (map (fun d => ch "." :: d) ds).

(** The class [[^;.]] of the text of a numbered variant. *)
Definition not_semicolon_dot (c : N) : bool :=
  negb (existsb (fun a => N.eqb (ch a) c) [";"; "."]%char).

(** The last line before line [i] that sets the register is a line
    "N. ..." with the number [n]: a line that begins with a number and a
    dot and is not three-level, with no other such line between it and
    line [i]. *)
Definition main_number_before (lines : list str) (i : nat) (n : str) : Prop :=
  ∃ j rawj rest,
    (j < i)%nat ∧ lines !! j = Some rawj ∧
    normalize rawj = n ++ ch "." :: rest ∧ digits n ∧
    ¬ three_level_shape (normalize rawj) ∧
    ∀ k rawk, (j < k < i)%nat → lines !! k = Some rawk →
      ¬ main_shape (normalize rawk) ∨ three_level_shape (normalize rawk).

(** * Properties *)

(** ** Strings *)

Lemma takewhile_dropwhile p (s : str) : takewhile p s ++ dropwhile p s = s.
Proof. induction s as [|c t IH]; simpl; [done|]. destruct (p c); simpl; congruence. Qed.

Lemma takewhile_app p (a b : str) :
  forallb p a = true → takewhile p (a ++ b) = a ++ takewhile p b.
Proof.
  induction a as [|c a IH]; simpl; [done|].
  intros [Hc Ha]%andb_prop. rewrite Hc. f_equal. auto.
Qed.

Lemma dropwhile_app p (a b : str) :
  forallb p a = true → dropwhile p (a ++ b) = dropwhile p b.
Proof.
  induction a as [|c a IH]; simpl; [done|].
  intros [Hc Ha]%andb_prop. rewrite Hc. auto.
Qed.

Lemma takewhile_all p (s : str) : forallb p (takewhile p s) = true.
Proof. induction s as [|c t IH]; simpl; [done|]. destruct (p c) eqn:E; simpl; [by rewrite E|done]. Qed.

Lemma takewhile_id p (s : str) : forallb p s = true → takewhile p s = s.
Proof.
  intros H. rewrite <- (app_nil_r s) at 1. rewrite takewhile_app by done.
  simpl. apply app_nil_r.
Qed.

Lemma dropwhile_length p (s : str) : (length (dropwhile p s) ≤ length s)%nat.
Proof. induction s as [|c t IH]; simpl; [lia|]. destruct (p c); simpl; lia. Qed.

(** ** The matcher on runs of one class *)

Lemma rmatch_Cat a b st k :
  rmatch (Cat a b) st k = rmatch a st (fun st' => rmatch b st' k).
Proof. reflexivity. Qed.

Lemma rmatch_Seq_cons a l st k :
  rmatch (Seq (a :: l)) st k = rmatch a st (fun st' => rmatch (Seq l) st' k).
Proof. reflexivity. Qed.

Lemma rmatch_Seq_nil st k : rmatch (Seq []) st k = k st.
Proof. reflexivity. Qed.

Lemma rmatch_Bol s c k : rmatch Bol (MState [] s c) k = k (MState [] s c).
Proof. reflexivity. Qed.

Lemma rmatch_Grp n a st k :
  rmatch (Grp n a) st k = rmatch a st (fun st' => k (capture n st st')).
Proof. reflexivity. Qed.

Lemma rmatch_Star g a st k :
  rmatch (Star g a) st k = star_loop (rmatch a) g (length (suf st)) st k.
Proof. reflexivity. Qed.

Lemma rmatch_Cls p pr s c k :
  rmatch (Cls p) (MState pr s c) k =
  match s with
  | x :: t => if p x then k (MState (x :: pr) t c) else None
  | [] => None
  end.
Proof. reflexivity. Qed.

Lemma munch_cons p pr x t c :
  p x = true → munch p pr (x :: t) c = munch p (x :: pr) t c.
Proof.
  intros H. unfold munch. simpl. rewrite H. simpl.
  by rewrite <- app_assoc.
Qed.

Lemma munch_stop p pr s c :
  (match s with x :: _ => p x = false | [] => True end) →
  munch p pr s c = MState pr s c.
Proof. unfold munch. destruct s as [|x t]; simpl; [done|]. by intros ->. Qed.

Lemma star_loop_cls_step p g f pr x t c k :
  p x = true →
  star_loop (rmatch (Cls p)) g (S f) (MState pr (x :: t) c) k =
  let more := star_loop (rmatch (Cls p)) g f (MState (x :: pr) t c) k in
  if g then orelse more (k (MState pr (x :: t) c))
  else orelse (k (MState pr (x :: t) c)) more.
Proof.
  intros H. simpl. rewrite H. unfold advance. simpl.
  rewrite bool_decide_eq_true_2 by lia. done.
Qed.

Lemma star_loop_cls_stop p g f pr s c k :
  (match s with x :: _ => p x = false | [] => True end) →
  star_loop (rmatch (Cls p)) g f (MState pr s c) k = k (MState pr s c).
Proof.
  intros H. destruct f as [|f]; [done|]. simpl.
  destruct s as [|x t]; [|rewrite H]; simpl; by destruct g, (k _).
Qed.

Lemma search_from_eq r sk p s :
  search_from r sk p s =
  match rmatch r (at_pos p s) Some with
  | Some m => Some (rev sk, m)
  | None =>
    match s with
    | [] => None
    | c :: t => search_from r (c :: sk) (c :: p) t
    end
  end.
Proof. by destruct s. Qed.

Lemma scan_eq f r p s :
  scan (S f) r p s =
  match search_from r [] p s with
  | None => ([], s)
  | Some (t, m) =>
    if bool_decide (length (suf m) < length s - length t)
    then let '(ms, rest) := scan f r (pre m) (suf m) in ((t, m) :: ms, rest)
    else
      match drop (length t) s with
      | [] => ([(t, m)], [])
      | c :: s' =>
        let '(ms, rest) := scan f r (c :: pre m) s' in
        match ms with
        | [] => ([(t, m)], c :: rest)
        | (t', m') :: ms' => ((t, m) :: (c :: t', m') :: ms', rest)
        end
      end
  end.
Proof. reflexivity. Qed.

(** *** The fuel of the matcher is enough *)

Lemma star_loop_ext body g f st (k k' : kont) :
  (∀ st (k k' : kont), (∀ st', k st' = k' st') → body st k = body st k') →
  (∀ st', k st' = k' st') →
  star_loop body g f st k = star_loop body g f st k'.
Proof.
  intros Hb Hk. revert st. induction f as [|f IH]; intros st; simpl; [done|].
  rewrite (Hb st _ (fun st' =>
    if bool_decide (length (suf st') < length (suf st))
    then star_loop body g f st' k' else None)).
  - by rewrite Hk.
  - intros st'. destruct (bool_decide _); [apply IH|done].
Qed.

Lemma rmatch_ext r st (k k' : kont) :
  (∀ st', k st' = k' st') → rmatch r st k = rmatch r st k'.
Proof.
  revert st k k'. induction r as [|p| | |a IHa b IHb|a IHa b IHb|g a IHa|n a IHa|a IHa|p];
    intros st k k' Hk; simpl.
  - done.
  - destruct (suf st) as [|c t]; [done|]. by destruct (p c).
  - by destruct (pre st).
  - destruct (suf st) as [|c [|? ?]]; [done| |done]. by destruct (N.eqb c 10).
  - apply IHa. intros st'. by apply IHb.
  - by rewrite (IHa st k k'), (IHb st k k').
  - apply star_loop_ext; [|done]. intros. by apply IHa.
  - apply IHa. intros st'. apply Hk.
  - by destruct (rmatch a st Some).
  - destruct (pre st) as [|c t]; [done|]. by destruct (p c).
Qed.

Lemma star_loop_fail body g f st :
  (∀ st (k k' : kont), (∀ st', k st' = k' st') → body st k = body st k') →
  (∀ st, body st (fun _ => None) = None) →
  star_loop body g f st (fun _ => None) = None.
Proof.
  intros Hb Hf. revert st. induction f as [|f IH]; intros st; simpl; [done|].
  rewrite (Hb st _ (fun _ => None)).
  - rewrite Hf. by destruct g.
  - intros st'. destruct (bool_decide _); [apply IH|done].
Qed.

Lemma rmatch_fail r st : rmatch r st (fun _ => None) = None.
Proof.
  revert st. induction r as [|p| | |a IHa b IHb|a IHa b IHb|g a IHa|n a IHa|a IHa|p];
    intros st; simpl.
  - done.
  - destruct (suf st) as [|c t]; [done|]. by destruct (p c).
  - by destruct (pre st).
  - destruct (suf st) as [|c [|? ?]]; [done| |done]. by destruct (N.eqb c 10).
  - rewrite (rmatch_ext a st _ (fun _ => None)); [apply IHa|]. intros st'. apply IHb.
  - by rewrite IHa, IHb.
  - apply star_loop_fail; [|done]. intros. by apply rmatch_ext.
  - apply IHa.
  - by destruct (rmatch a st Some).
  - destruct (pre st) as [|c t]; [done|]. by destruct (p c).
Qed.

(** A repetition gives the same result with any fuel that is at least the
    length of the rest of the subject. *)
Lemma star_loop_fuel a g f f' st k :
  (length (suf st) ≤ f)%nat → (length (suf st) ≤ f')%nat →
  star_loop (rmatch a) g f st k = star_loop (rmatch a) g f' st k.
Proof.
  assert (Hzero : ∀ f st, length (suf st) = 0%nat →
            star_loop (rmatch a) g f st k = k st).
  { intros f0 st0 H0. destruct f0 as [|f0]; simpl; [done|].
    rewrite (rmatch_ext a st0 _ (fun _ => None)).
    - rewrite rmatch_fail. by destruct g, (k st0).
    - intros st'. rewrite bool_decide_eq_false_2; [done|lia]. }
  revert f' st. induction f as [|f IH]; intros f' st Hf Hf'.
  - rewrite !Hzero by lia. done.
  - destruct f' as [|f']; [rewrite !Hzero by lia; done|]. simpl.
    rewrite (rmatch_ext a st _ (fun st' =>
      if bool_decide (length (suf st') < length (suf st))
      then star_loop (rmatch a) g f' st' k else None)); [done|].
    intros st'. case_bool_decide; [|done]. apply IH; lia.
Qed.

(** A scan gives the same result with any fuel above the length of the
    subject. *)
Lemma scan_fuel f f' r p s :
  (length s < f)%nat → (length s < f')%nat → scan f r p s = scan f' r p s.
Proof.
  revert f' p s. induction f as [|f IH]; intros f' p s Hf Hf'; [lia|].
  destruct f' as [|f']; [lia|]. simpl.
  destruct (search_from r [] p s) as [[t m]|]; [|done].
  case_bool_decide.
  - rewrite (IH f' (pre m) (suf m)) by lia. done.
  - destruct (drop (length t) s) as [|c s'] eqn:E; [done|].
    assert (length s' < length s)%nat.
    { pose proof (length_drop s (length t)) as Hd. rewrite E in Hd.
      simpl in Hd. lia. }
    rewrite (IH f' (c :: pre m) s') by lia. done.
Qed.

(** *** Where a match can end *)

Lemma rmatch_Alt a b st k :
  rmatch (Alt a b) st k = orelse (rmatch a st k) (rmatch b st k).
Proof. reflexivity. Qed.

Lemma rmatch_Eps st k : rmatch Eps st k = k st.
Proof. reflexivity. Qed.

Lemma rmatch_Ahead a st k :
  rmatch (Ahead a) st k =
  match rmatch a st Some with
  | Some st' => k (MState (pre st) (suf st) (caps st'))
  | None => None
  end.
Proof. reflexivity. Qed.

Lemma rmatch_Behind p st k :
  rmatch (Behind p) st k =
  match pre st with
  | c :: _ => if p c then k st else None
  | [] => None
  end.
Proof. reflexivity. Qed.

Lemma rmatch_Eol st k :
  rmatch Eol st k =
  match suf st with
  | [] => k st
  | [c] => if N.eqb c 10 then k st else None
  | _ => None
  end.
Proof. reflexivity. Qed.

Lemma star_loop_reaches body g f st (k : kont) res :
  (∀ st (k : kont) res, body st k = Some res →
     ∃ st', k st' = Some res ∧ suf st' `suffix_of` suf st) →
  star_loop body g f st k = Some res →
  ∃ st', k st' = Some res ∧ suf st' `suffix_of` suf st.
Proof.
  intros Hb. revert st res. induction f as [|f IH]; intros st res H; simpl in H.
  - by exists st.
  - assert (Hmore : ∀ r',
      body st (fun st' =>
        if bool_decide (length (suf st') < length (suf st))
        then star_loop body g f st' k else None) = Some r' →
      ∃ st', k st' = Some r' ∧ suf st' `suffix_of` suf st).
    { intros r' (st1 & H1 & Hs1)%Hb. destruct (bool_decide _); [|done].
      apply IH in H1 as (st2 & H2 & Hs2). exists st2. split; [done|].
      by etrans. }
    destruct g.
    + destruct (body st _) as [r'|] eqn:E; simpl in H.
      * injection H as ->. by apply Hmore.
      * by exists st.
    + destruct (k st) as [r'|] eqn:E; simpl in H.
      * injection H as ->. by exists st.
      * by apply Hmore.
Qed.

(** A match hands to the rest of the pattern a position at or after the
    one it started from. *)
Lemma rmatch_reaches r st (k : kont) res :
  rmatch r st k = Some res →
  ∃ st', k st' = Some res ∧ suf st' `suffix_of` suf st.
Proof.
  revert st k res.
  induction r as [|p| | |a IHa b IHb|a IHa b IHb|g a IHa|n a IHa|a IHa|p];
    intros st k res H; simpl in H.
  - by exists st.
  - destruct (suf st) as [|c t] eqn:E; [done|]. destruct (p c); [|done].
    eexists. split; [exact H|]. simpl. by apply suffix_cons_r.
  - destruct (pre st); [|done]. by exists st.
  - exists st. split; [|done]. destruct (suf st) as [|c [|? ?]]; [done| |done].
    by destruct (N.eqb c 10).
  - apply IHa in H as (st1 & H1 & Hs1). apply IHb in H1 as (st2 & H2 & Hs2).
    exists st2. split; [done|]. by etrans.
  - destruct (rmatch a st k) as [r'|] eqn:E; simpl in H.
    + injection H as ->. by apply IHa.
    + by apply IHb.
  - apply star_loop_reaches in H; [done|]. intros. by apply IHa.
  - apply IHa in H as (st1 & H1 & Hs1). eexists. split; [exact H1|done].
  - destruct (rmatch a st Some); [|done]. eexists. split; [exact H|done].
  - destruct (pre st) as [|c t]; [done|]. destruct (p c); [|done]. by exists st.
Qed.

Global Arguments rmatch : simpl never.
Global Arguments star_loop : simpl never.
Global Arguments search_from : simpl never.
Global Arguments scan : simpl never.

(** Greedy repetition of a class before a continuation that rejects the
    class: the longest run is taken and nothing is given back. *)
Lemma star_cls_det p k f pr s c :
  rejects p k → (length s ≤ f)%nat →
  star_loop (rmatch (Cls p)) true f (MState pr s c) k = k (munch p pr s c).
Proof.
  intros Hk. revert f pr. induction s as [|x t IH]; intros f pr Hf.
  - rewrite star_loop_cls_stop by done. done.
  - destruct (p x) eqn:E.
    + destruct f as [|f]; [simpl in Hf; lia|].
      rewrite star_loop_cls_step by done. cbv zeta.
      rewrite IH by (simpl in Hf; lia). rewrite (Hk pr x t c E).
      rewrite munch_cons by done. by destruct (k _).
    + rewrite star_loop_cls_stop by done. by rewrite munch_stop.
Qed.

(** Greedy repetition of a class: when the rest of the pattern matches
    after the longest run, that is the match. *)
Lemma star_cls_max p k f pr s c r :
  (length s ≤ f)%nat → k (munch p pr s c) = Some r →
  star_loop (rmatch (Cls p)) true f (MState pr s c) k = Some r.
Proof.
  revert f pr. induction s as [|x t IH]; intros f pr Hf Hr.
  - rewrite star_loop_cls_stop by done. done.
  - destruct (p x) eqn:E.
    + destruct f as [|f]; [simpl in Hf; lia|].
      rewrite star_loop_cls_step by done. cbv zeta.
      rewrite munch_cons in Hr by done.
      rewrite (IH f (x :: pr)) by (done || simpl in Hf; lia). done.
    + rewrite star_loop_cls_stop by done. by rewrite munch_stop in Hr.
Qed.

Lemma capture_munch n p pr s c c' :
  capture n (MState pr s c) (munch p pr s c') =
  MState (rev (takewhile p s) ++ pr) (dropwhile p s) (<[n := takewhile p s]> c').
Proof.
  unfold capture, munch, consumed. simpl. f_equal. f_equal.
  rewrite length_app, Nat.add_sub.
  rewrite take_app_length' by done. apply rev_involutive.
Qed.

Lemma takewhile_stop p (a b : str) :
  forallb p a = true → stops p b → takewhile p (a ++ b) = a.
Proof.
  intros Ha Hb. rewrite takewhile_app by done.
  destruct b as [|x b]; simpl in *; [|rewrite Hb]; apply app_nil_r.
Qed.

Lemma dropwhile_stop p (a b : str) :
  forallb p a = true → stops p b → dropwhile p (a ++ b) = b.
Proof.
  intros Ha Hb. rewrite dropwhile_app by done.
  destruct b as [|x b]; simpl in *; [done|]. by rewrite Hb.
Qed.

Lemma stops_dropwhile p (s : str) : stops p (dropwhile p s).
Proof. induction s as [|x t IH]; simpl; [done|]. destruct (p x) eqn:E; simpl; done. Qed.

Lemma munch_split p pr (a b : str) c :
  forallb p a = true → stops p b →
  munch p pr (a ++ b) c = MState (rev a ++ pr) b c.
Proof. intros Ha Hb. unfold munch. by rewrite takewhile_stop, dropwhile_stop. Qed.

Lemma rejects_capture p k n st :
  rejects p k → rejects p (fun st' => k (capture n st st')).
Proof. intros Hk pr x t c Hx. unfold capture. simpl. by apply Hk. Qed.

Lemma rejects_Cls p q k :
  (∀ x, p x = true → q x = false) → rejects p (fun st => rmatch (Cls q) st k).
Proof. intros H pr x t c Hx. rewrite rmatch_Cls. by rewrite (H x Hx). Qed.

Lemma rejects_Seq p a l k :
  rejects p (fun st => rmatch a st (fun st' => rmatch (Seq l) st' k)) →
  rejects p (fun st => rmatch (Seq (a :: l)) st k).
Proof. done. Qed.

(** [p*] before a continuation that rejects [p]. *)
Lemma star_det p k pr s c :
  rejects p k →
  rmatch (Star true (Cls p)) (MState pr s c) k = k (munch p pr s c).
Proof. intros Hk. rewrite rmatch_Star. by apply star_cls_det. Qed.

Lemma star_max p k pr s c r :
  k (munch p pr s c) = Some r →
  rmatch (Star true (Cls p)) (MState pr s c) k = Some r.
Proof. intros Hr. rewrite rmatch_Star. by apply star_cls_max. Qed.

(** [p+] before a continuation that rejects [p]. *)
Lemma plus_det p k pr s c :
  rejects p k →
  rmatch (Plus true (Cls p)) (MState pr s c) k =
  match takewhile p s with
  | [] => None
  | _ :: _ => k (munch p pr s c)
  end.
Proof.
  intros Hk. unfold Plus. rewrite rmatch_Cat, rmatch_Cls.
  destruct s as [|x t]; [done|]. simpl takewhile.
  destruct (p x) eqn:E; [|done].
  rewrite star_det by done. by rewrite munch_cons.
Qed.

Lemma plus_max p k pr s c r :
  takewhile p s ≠ [] → k (munch p pr s c) = Some r →
  rmatch (Plus true (Cls p)) (MState pr s c) k = Some r.
Proof.
  intros Hne Hr. unfold Plus. rewrite rmatch_Cat, rmatch_Cls.
  destruct s as [|x t]; [done|]. simpl takewhile in Hne.
  destruct (p x) eqn:E; [|done].
  apply star_max. by rewrite <- munch_cons.
Qed.

(** [(p+)] as group [n]. *)
Lemma grp_plus_det n p k pr s c :
  rejects p k →
  rmatch (Grp n (Plus true (Cls p))) (MState pr s c) k =
  match takewhile p s with
  | [] => None
  | _ :: _ =>
    k (MState (rev (takewhile p s) ++ pr) (dropwhile p s) (<[n := takewhile p s]> c))
  end.
Proof.
  intros Hk. rewrite rmatch_Grp, plus_det by by apply rejects_capture.
  by rewrite capture_munch.
Qed.

Lemma grp_plus_max n p k pr s c r :
  takewhile p s ≠ [] →
  k (MState (rev (takewhile p s) ++ pr) (dropwhile p s) (<[n := takewhile p s]> c))
    = Some r →
  rmatch (Grp n (Plus true (Cls p))) (MState pr s c) k = Some r.
Proof.
  intros Hne Hr. rewrite rmatch_Grp. apply plus_max; [done|].
  by rewrite capture_munch.
Qed.

Lemma grp_star_max n p k pr s c r :
  k (MState (rev (takewhile p s) ++ pr) (dropwhile p s) (<[n := takewhile p s]> c))
    = Some r →
  rmatch (Grp n (Star true (Cls p))) (MState pr s c) k = Some r.
Proof. intros Hr. rewrite rmatch_Grp. apply star_max. by rewrite capture_munch. Qed.

(** A literal string matches exactly itself. *)
Lemma rmatch_Lits (w : str) pr s c k :
  rmatch (Lits w) (MState pr s c) k =
  if starts_with w s then k (MState (rev w ++ pr) (drop (length w) s) c) else None.
Proof.
  revert pr s. induction w as [|a w IH]; intros pr s.
  - by destruct s.
  - unfold Lits in *. simpl map. rewrite rmatch_Seq_cons, rmatch_Cls.
    destruct s as [|x t]; [done|]. simpl starts_with.
    destruct (N.eqb a x) eqn:E; [|done]. apply N.eqb_eq in E as ->.
    simpl. rewrite IH. by rewrite <- app_assoc.
Qed.

Lemma starts_with_spec (w s : str) :
  starts_with w s = true ↔ ∃ t, s = w ++ t.
Proof.
  revert s. induction w as [|a w IH]; intros s; simpl.
  - split; eauto.
  - destruct s as [|x t]; [split; [done|by intros [? ?]]|].
    rewrite andb_true_iff, N.eqb_eq, IH. split.
    + intros [-> [t' ->]]. eauto.
    + intros [t' [= -> ->]]. eauto.
Qed.

(** ** Character classes *)

Lemma in_nrange lo n x : (lo ≤ x < lo + N.of_nat n)%N → In x (nrange lo n).
Proof.
  intros H. unfold nrange. apply in_map_iff. exists (N.to_nat (x - lo)).
  split; [lia|]. apply in_seq. lia.
Qed.

Lemma isspace_chars x : isspace x = true → In x space_chars.
Proof.
  unfold isspace, in_range. rewrite !orb_true_iff, !andb_true_iff.
  rewrite !N.leb_le, !N.eqb_eq. intros H. unfold space_chars.
  rewrite !in_app_iff.
  destruct H as [[[[[[[[[H|H]|H]|H]|H]|H]|H]|H]|H]|H].
  - left. apply in_nrange. lia.
  - right. left. apply in_nrange. lia.
  - right. right. left. simpl. lia.
  - right. right. left. simpl. lia.
  - right. right. left. simpl. lia.
  - right. right. right. left. apply in_nrange. lia.
  - right. right. right. right. simpl. lia.
  - right. right. right. right. simpl. lia.
  - right. right. right. right. simpl. lia.
  - right. right. right. right. simpl. lia.
Qed.

Lemma cyr_chars x : cyr x = true → In x letter_chars.
Proof.
  unfold cyr, in_range. rewrite !orb_true_iff, !andb_true_iff.
  rewrite !N.leb_le, !N.eqb_eq. intros H. unfold letter_chars.
  destruct H as [[[[H|H]|H]|H]|H].
  - right. apply in_app_iff. left. apply in_nrange. lia.
  - right. apply in_app_iff. right. left. done.
  - right. apply in_app_iff. left. apply in_nrange. lia.
  - left. done.
  - right. apply in_app_iff. right. right. apply in_nrange. lia.
Qed.

Lemma class_disjoint (p q : N → bool) (members : list N) x :
  (∀ y, p y = true → In y members) →
  forallb (fun y => negb (q y)) members = true →
  p x = true → q x = false.
Proof.
  intros Hin Hall Hx. rewrite forallb_forall in Hall.
  apply negb_true_iff, Hall, Hin, Hx.
Qed.

Lemma space_not_digit x : isspace x = true → isdigit x = false.
Proof. apply (class_disjoint _ _ space_chars); [apply isspace_chars|reflexivity]. Qed.

Lemma space_not_letter x : isspace x = true → cyr x = false.
Proof. apply (class_disjoint _ _ space_chars); [apply isspace_chars|reflexivity]. Qed.

Lemma letter_not_digit x : cyr x = true → isdigit x = false.
Proof. apply (class_disjoint _ _ letter_chars); [apply cyr_chars|reflexivity]. Qed.

Lemma digit_not_letter x : isdigit x = true → cyr x = false.
Proof.
  intros H. destruct (cyr x) eqn:E; [|done].
  apply letter_not_digit in E. congruence.
Qed.

Lemma digit_not_space x : isdigit x = true → isspace x = false.
Proof.
  intros H. destruct (isspace x) eqn:E; [|done].
  apply space_not_digit in E. congruence.
Qed.

Lemma class_not_lit (p : N → bool) (a : ascii) x :
  p (ch a) = false → p x = true → N.eqb (ch a) x = false.
Proof. intros Ha Hx. apply N.eqb_neq. intros <-. congruence. Qed.

(** ** The line normalizer *)

Lemma squeeze_cons x t :
  squeeze (x :: t) =
  if isspace x then
    match t with
    | y :: _ => if isspace y then squeeze t else ch " " :: squeeze t
    | [] => [ch " "]
    end
  else x :: squeeze t.
Proof. reflexivity. Qed.

Lemma squeeze_run x t :
  isspace x = true → squeeze (x :: t) = ch " " :: squeeze (dropwhile isspace t).
Proof.
  revert x. induction t as [|y t IH]; intros x Hx; rewrite squeeze_cons, Hx.
  - done.
  - simpl dropwhile. destruct (isspace y) eqn:E; [by apply IH|done].
Qed.

Lemma squeeze_nonspace (a b : str) :
  forallb nonspace a = true → squeeze (a ++ b) = a ++ squeeze b.
Proof.
  induction a as [|x a IH]; [done|]. simpl. unfold nonspace at 1.
  intros [Hx Ha]%andb_prop. apply negb_true_iff in Hx. rewrite Hx.
  f_equal. auto.
Qed.

Lemma rmatch_SPACES p s c :
  rmatch SPACES (MState p s c) Some =
  match takewhile isspace s with
  | [] => None
  | _ :: _ => Some (munch isspace p s c)
  end.
Proof.
  unfold SPACES, space. destruct (takewhile isspace s) as [|y w] eqn:E.
  - unfold Plus. rewrite rmatch_Cat, rmatch_Cls.
    destruct s as [|x t]; [done|]. simpl in E. by destruct (isspace x).
  - apply plus_max; [by rewrite E|done].
Qed.

Lemma search_SPACES sk p s :
  search_from SPACES sk p s =
  match dropwhile nonspace s with
  | [] => None
  | x :: t =>
    Some (rev sk ++ takewhile nonspace s,
          MState (rev (takewhile isspace t) ++ x :: rev (takewhile nonspace s) ++ p)
                 (dropwhile isspace t) ∅)
  end.
Proof.
  revert sk p. induction s as [|x t IH]; intros sk p.
  - done.
  - rewrite search_from_eq. unfold at_pos. rewrite rmatch_SPACES.
    simpl. destruct (isspace x) eqn:E.
    + assert (Hn : nonspace x = false) by (unfold nonspace; by rewrite E).
      rewrite Hn. simpl. rewrite app_nil_r. unfold munch. simpl. rewrite E.
      simpl. by rewrite <- app_assoc.
    + assert (Hn : nonspace x = true) by (unfold nonspace; by rewrite E).
      rewrite Hn, IH. destruct (dropwhile nonspace t); [done|].
      simpl rev. by rewrite <- !app_assoc.
Qed.

Lemma re_sub_sub_of r repl s : re_sub r repl s = sub_of repl (re_scan r s).
Proof. unfold re_sub, sub_of. by destruct (re_scan r s). Qed.

Lemma scan_SPACES f p s :
  (length s < f)%nat → sub_of [ch " "] (scan f SPACES p s) = squeeze s.
Proof.
  revert p s. induction f as [|f IH]; intros p s Hf; [lia|].
  rewrite scan_eq, search_SPACES.
  pose proof (takewhile_dropwhile nonspace s) as Hs.
  pose proof (takewhile_all nonspace s) as Ha.
  destruct (dropwhile nonspace s) as [|x t] eqn:E.
  - unfold sub_of. simpl. rewrite <- Hs at 2.
    rewrite squeeze_nonspace by done. simpl. by rewrite <- Hs at 1.
  - assert (Hx : isspace x = true).
    { pose proof (stops_dropwhile nonspace s) as H. rewrite E in H.
      simpl in H. by apply negb_false_iff in H. }
    assert (Hl : length s = (length (takewhile nonspace s) + S (length t))%nat).
    { rewrite <- Hs at 1. by rewrite length_app. }
    pose proof (dropwhile_length isspace t) as Hd.
    cbn [suf pre]. rewrite bool_decide_eq_true_2 by (simpl; lia).
    specialize (IH (rev (takewhile isspace t) ++ x :: rev (takewhile nonspace s) ++ p)
                   (dropwhile isspace t)).
    destruct (scan f SPACES _ (dropwhile isspace t)) as [ms rest].
    unfold sub_of in *. cbn [fst snd map concat] in *.
    rewrite <- Hs at 2. rewrite squeeze_nonspace by done.
    rewrite squeeze_run by done. rewrite <- IH by lia.
    by rewrite <- !app_assoc.
Qed.

(** The normalizer as a function on the stripped line. *)
Lemma normalize_squeeze line : normalize line = squeeze (strip line).
Proof.
  unfold normalize. rewrite re_sub_sub_of. unfold re_scan.
  apply scan_SPACES. lia.
Qed.

Lemma squeeze_spaces s c : c ∈ squeeze s → isspace c = true → c = ch " ".
Proof.
  induction s as [|x t IH]; simpl; [by intros ?%elem_of_nil|].
  destruct (isspace x) eqn:E.
  - destruct t as [|y t']; [by intros ->%list_elem_of_singleton|].
    destruct (isspace y); [done|].
    intros [->|?]%elem_of_cons; [done|auto].
  - intros [->|?]%elem_of_cons; [congruence|auto].
Qed.

Lemma squeeze_last s c :
  last s = Some c → isspace c = false → last (squeeze s) = Some c.
Proof.
  induction s as [|x t IH]; [done|]. intros Hl Hc.
  destruct t as [|y t'].
  - simpl in *. injection Hl as ->. by rewrite Hc.
  - change (last (x :: y :: t')) with (last (y :: t')) in Hl.
    specialize (IH Hl Hc).
    rewrite squeeze_cons.
    destruct (squeeze (y :: t')) as [|z sq] eqn:Es; [done|].
    by destruct (isspace x), (isspace y).
Qed.

Lemma last_rev_head (s : str) : last (rev s) = head s.
Proof. destruct s as [|x t]; [done|]. simpl. apply last_snoc. Qed.

Lemma strip_last line c : last (strip line) = Some c → isspace c = false.
Proof.
  unfold strip, rstrip, lstrip. rewrite last_rev_head.
  pose proof (stops_dropwhile isspace (rev (dropwhile isspace line))) as H.
  destruct (dropwhile isspace (rev _)) as [|x t]; [done|].
  simpl in *. by intros [= <-].
Qed.

Lemma normalize_tidy line : tidy (normalize line).
Proof.
  rewrite normalize_squeeze. split.
  - apply squeeze_spaces.
  - intros c Hc. destruct (last (strip line)) as [d|] eqn:E.
    + pose proof (strip_last _ _ E) as Hd.
      rewrite (squeeze_last _ _ E Hd) in Hc. by injection Hc as <-.
    + apply last_None in E. rewrite E in Hc. done.
Qed.

Lemma tidy_app_r (a b : str) : tidy (a ++ b) → b ≠ [] → tidy b.
Proof.
  intros [H1 H2] Hb. split.
  - intros c Hc. apply H1. apply elem_of_app. by right.
  - intros c Hc. apply H2. rewrite last_app. by rewrite Hc.
Qed.

Lemma tidy_notnl (l : str) : tidy l → forallb notnl l = true.
Proof.
  intros [H _]. apply forallb_forall. intros c Hc%list_elem_of_In.
  unfold notnl. apply negb_true_iff, N.eqb_neq. intros ->.
  by specialize (H _ Hc eq_refl).
Qed.

Lemma rstrip_id (l : str) :
  (∀ c, last l = Some c → isspace c = false) → rstrip l = l.
Proof.
  intros H. unfold rstrip, lstrip.
  pose proof (last_rev_head (rev l)) as Hl. rewrite rev_involutive in Hl.
  destruct (rev l) as [|x t] eqn:E.
  - simpl. by rewrite <- (rev_involutive l), E.
  - cbn [dropwhile]. rewrite (H x Hl). by rewrite <- E, rev_involutive.
Qed.

Lemma lstrip_id (l : str) : stops isspace l → lstrip l = l.
Proof. destruct l as [|x t]; [done|]. unfold lstrip. cbn [stops dropwhile]. by intros ->. Qed.

Lemma strip_id (l : str) : tidy l → stops isspace l → strip l = l.
Proof.
  intros [_ H] Hs. unfold strip. rewrite lstrip_id by done. by apply rstrip_id.
Qed.

(** ** The patterns of the task extractor on lines of a known shape *)

Lemma digits_takewhile (n s : str) :
  digits n → stops isdigit s →
  takewhile isdigit (n ++ s) = n ∧ dropwhile isdigit (n ++ s) = s.
Proof. intros [_ Hn] Hs. by rewrite takewhile_stop, dropwhile_stop. Qed.

Lemma digits_of_takewhile (s : str) :
  takewhile isdigit s ≠ [] → digits (takewhile isdigit s).
Proof. intros H. split; [done|apply takewhile_all]. Qed.

Lemma digits_head n : digits n → ∃ d t, n = d :: t ∧ isdigit d = true.
Proof.
  intros [Hne Hn]. destruct n as [|d t]; [done|].
  simpl in Hn. apply andb_prop in Hn as [Hd _]. eauto.
Qed.

Lemma stops_lit (p : N → bool) (a : ascii) (t : str) :
  p (ch a) = false → stops p (ch a :: t).
Proof. done. Qed.

Lemma rmatch_Lit a pr s c k :
  rmatch (Lit a) (MState pr s c) k =
  match s with
  | x :: t => if N.eqb (ch a) x then k (MState (x :: pr) t c) else None
  | [] => None
  end.
Proof. apply rmatch_Cls. Qed.

Lemma rejects_Lit p a k :
  p (ch a) = false → rejects p (fun st => rmatch (Lit a) st k).
Proof. intros Ha. apply rejects_Cls. intros x. by apply class_not_lit. Qed.

(** [(\d+)] followed by a literal that is not a digit. *)
Lemma grp_digits_lit n a l pr s c k :
  isdigit (ch a) = false →
  rmatch (Seq (Grp n (Plus true digit) :: Lit a :: l)) (MState pr s c) k =
  match takewhile isdigit s, dropwhile isdigit s with
  | _ :: _, x :: t =>
    if N.eqb (ch a) x
    then rmatch (Seq l)
           (MState (x :: rev (takewhile isdigit s) ++ pr) t
                   (<[n := takewhile isdigit s]> c)) k
    else None
  | _, _ => None
  end.
Proof.
  intros Ha. rewrite rmatch_Seq_cons. unfold digit.
  rewrite grp_plus_det.
  - destruct (takewhile isdigit s); [done|].
    rewrite rmatch_Seq_cons, rmatch_Lit. by destruct (dropwhile isdigit s).
  - apply rejects_Seq. by apply rejects_Lit.
Qed.

(** [\d+] followed by a literal that is not a digit. *)
Lemma digits_lit a l pr s c k :
  isdigit (ch a) = false →
  rmatch (Seq (Plus true digit :: Lit a :: l)) (MState pr s c) k =
  match takewhile isdigit s, dropwhile isdigit s with
  | _ :: _, x :: t =>
    if N.eqb (ch a) x
    then rmatch (Seq l) (MState (x :: rev (takewhile isdigit s) ++ pr) t c) k
    else None
  | _, _ => None
  end.
Proof.
  intros Ha. rewrite rmatch_Seq_cons. unfold digit.
  rewrite plus_det.
  - unfold munch. destruct (dropwhile isdigit s).
    + rewrite rmatch_Seq_cons, rmatch_Lit. by destruct (takewhile isdigit s).
    + rewrite rmatch_Seq_cons, rmatch_Lit. by destruct (takewhile isdigit s) eqn:E.
  - apply rejects_Seq. by apply rejects_Lit.
Qed.

(** [\s*] before something that cannot begin with whitespace. *)
Lemma spaces_det l pr s c k :
  rejects isspace (fun st => rmatch (Seq l) st k) →
  rmatch (Seq (Star true space :: l)) (MState pr s c) k =
  rmatch (Seq l) (munch isspace pr s c) k.
Proof. intros H. rewrite rmatch_Seq_cons. unfold space. by rewrite star_det. Qed.

(** [\s*] when the rest of the pattern matches after all the whitespace. *)
Lemma spaces_max l pr s c k r :
  rmatch (Seq l) (munch isspace pr s c) k = Some r →
  rmatch (Seq (Star true space :: l)) (MState pr s c) k = Some r.
Proof. intros H. rewrite rmatch_Seq_cons. unfold space. by apply star_max. Qed.

(** The final [(.+)] on text without a line break. *)
Lemma grp_rest n pr (text : str) c :
  text ≠ [] → forallb notnl text = true →
  rmatch (Seq [Grp n (Plus true Any)]) (MState pr text c) Some =
  Some (MState (rev text ++ pr) [] (<[n := text]> c)).
Proof.
  intros Hne Hnl. rewrite rmatch_Seq_cons. unfold Any. fold notnl.
  assert (Ht : takewhile notnl text = text) by by apply takewhile_id.
  assert (Hd : dropwhile notnl text = []).
  { pose proof (takewhile_dropwhile notnl text) as H. rewrite Ht in H.
    rewrite <- (app_nil_r text) in H at 3. by apply app_inv_head in H. }
  apply grp_plus_max; rewrite Ht, ?Hd; done.
Qed.

Lemma lit_eq (a : ascii) x : N.eqb (ch a) x = true → x = ch a.
Proof. by intros ->%N.eqb_eq. Qed.

Lemma THREE_LEVEL_iff l :
  is_Some (re_match THREE_LEVEL l) ↔ three_level_shape l.
Proof.
  unfold re_match, at_pos, THREE_LEVEL.
  rewrite rmatch_Seq_cons, rmatch_Bol, digits_lit by done.
  split.
  - pose proof (takewhile_dropwhile isdigit l) as Hl.
    destruct (takewhile isdigit l) as [|d1 n1] eqn:E1; [by intros [? ?]|].
    destruct (dropwhile isdigit l) as [|x t]; [by intros [? ?]|].
    destruct (N.eqb (ch ".") x) eqn:Ex; [|by intros [? ?]].
    apply lit_eq in Ex as ->. rewrite digits_lit by done.
    pose proof (takewhile_dropwhile isdigit t) as Ht.
    destruct (takewhile isdigit t) as [|d2 n2] eqn:E2; [by intros [? ?]|].
    destruct (dropwhile isdigit t) as [|y t']; [by intros [? ?]|].
    destruct (N.eqb (ch ".") y) eqn:Ey; [|by intros [? ?]].
    apply lit_eq in Ey as ->. intros _.
    exists (d1 :: n1), (d2 :: n2), t'. rewrite Ht, Hl. split_and!; [| |done].
    + rewrite <- E1. apply digits_of_takewhile. by rewrite E1.
    + rewrite <- E2. apply digits_of_takewhile. by rewrite E2.
  - intros (d1 & d2 & rest & H1 & H2 & ->).
    destruct (digits_takewhile d1 (ch "." :: d2 ++ ch "." :: rest) H1) as [-> ->];
      [by apply stops_lit|].
    destruct (digits_head _ H1) as (? & ? & -> & _).
    rewrite N.eqb_refl, digits_lit by done.
    destruct (digits_takewhile d2 (ch "." :: rest) H2) as [-> ->];
      [by apply stops_lit|].
    destruct (digits_head _ H2) as (? & ? & -> & _).
    rewrite N.eqb_refl. by eexists.
Qed.

Lemma capture_one n pr x t c c' :
  capture n (MState pr (x :: t) c) (MState (x :: pr) t c') =
  MState (x :: pr) t (<[n := [x]]> c').
Proof.
  unfold capture, consumed. cbn [pre suf caps length].
  replace (S (length pr) - length pr)%nat with 1%nat by lia. done.
Qed.

(** [([c])] as group [n], for a class [q]. *)
Lemma grp_cls n q l pr s c k :
  rmatch (Seq (Grp n (Cls q) :: l)) (MState pr s c) k =
  match s with
  | x :: t =>
    if q x then rmatch (Seq l) (MState (x :: pr) t (<[n := [x]]> c)) k else None
  | [] => None
  end.
Proof.
  rewrite rmatch_Seq_cons, rmatch_Grp, rmatch_Cls.
  destruct s as [|x t]; [done|]. destruct (q x); [|done].
  by rewrite capture_one.
Qed.

Lemma seq_Lit a l pr s c k :
  rmatch (Seq (Lit a :: l)) (MState pr s c) k =
  match s with
  | x :: t => if N.eqb (ch a) x then rmatch (Seq l) (MState (x :: pr) t c) k else None
  | [] => None
  end.
Proof. by rewrite rmatch_Seq_cons, rmatch_Lit. Qed.

Lemma rejects_grp_cls p q n l k :
  (∀ x, p x = true → q x = false) →
  rejects p (fun st => rmatch (Seq (Grp n (Cls q) :: l)) st k).
Proof. intros H pr x t c Hx. rewrite grp_cls. by rewrite (H x Hx). Qed.

Lemma rejects_grp_plus p q n l k :
  (∀ x, p x = true → q x = false) →
  rejects p (fun st => rmatch (Seq (Grp n (Plus true (Cls q)) :: l)) st k).
Proof.
  intros H pr x t c Hx. rewrite rmatch_Seq_cons, rmatch_Grp.
  unfold Plus. rewrite rmatch_Cat, rmatch_Cls. by rewrite (H x Hx).
Qed.

(** [\s*(.+)] at the end of a pattern, on the empty rest of a line. *)
Lemma spaces_rest_nil n pr c :
  rmatch (Seq [Star true space; Grp n (Plus true Any)]) (MState pr [] c) Some = None.
Proof. reflexivity. Qed.

(** [\s*(.+)] at the end of a pattern: the blanks and then the text. *)
Lemma spaces_rest n pr (sp text : str) c :
  forallb isspace sp = true → stops isspace text →
  text ≠ [] → forallb notnl text = true →
  rmatch (Seq [Star true space; Grp n (Plus true Any)]) (MState pr (sp ++ text) c) Some =
  Some (MState (rev text ++ rev sp ++ pr) [] (<[n := text]> c)).
Proof.
  intros Hsp Hst Hne Hnl. apply spaces_max.
  rewrite munch_split by done. by apply grp_rest.
Qed.

(** [MAIN] on a line that begins with a number and a dot. *)
Lemma MAIN_some (n t : str) :
  digits n →
  ∃ m, re_match MAIN (n ++ ch "." :: t) = Some m ∧
       group_str 1 m = n ∧
       group_str 2 m = takewhile notnl (dropwhile isspace t).
Proof.
  intros Hn. unfold re_match, at_pos, MAIN.
  rewrite rmatch_Seq_cons, rmatch_Bol, grp_digits_lit by done.
  destruct (digits_takewhile n (ch "." :: t) Hn) as [-> ->]; [by apply stops_lit|].
  destruct (digits_head _ Hn) as (d & n' & -> & _).
  rewrite N.eqb_refl. eexists. split.
  - apply spaces_max. rewrite rmatch_Seq_cons. unfold Any. fold notnl.
    apply grp_star_max. reflexivity.
  - unfold group_str, group. cbn [caps].
    rewrite lookup_insert_eq, lookup_insert_ne, lookup_insert_eq by done. done.
Qed.

Lemma MAIN_none (l : str) : ¬ main_shape l → re_match MAIN l = None.
Proof.
  intros H. unfold re_match, at_pos, MAIN.
  rewrite rmatch_Seq_cons, rmatch_Bol, grp_digits_lit by done.
  pose proof (takewhile_dropwhile isdigit l) as Hl.
  destruct (takewhile isdigit l) as [|d n] eqn:E; [done|].
  destruct (dropwhile isdigit l) as [|x t]; [done|].
  destruct (N.eqb (ch ".") x) eqn:Ex; [|done].
  apply lit_eq in Ex as ->. destruct H. exists (d :: n), t. split; [|done].
  rewrite <- E. apply digits_of_takewhile. by rewrite E.
Qed.

(** A line has at most one reading as a number followed by a non-digit. *)
Lemma digits_split_unique (n n' s s' : str) :
  digits n → digits n' → stops isdigit s → stops isdigit s' →
  n ++ s = n' ++ s' → n = n' ∧ s = s'.
Proof.
  intros Hn Hn' Hs Hs' E.
  destruct (digits_takewhile n s Hn Hs) as [H1 H2].
  destruct (digits_takewhile n' s' Hn' Hs') as [H3 H4].
  rewrite E in H1, H2. split; congruence.
Qed.

Lemma HEADER_iff (n s : str) :
  is_Some (re_match (HEADER n) s) ↔ header_shape n s.
Proof.
  unfold re_match, at_pos, HEADER.
  rewrite rmatch_Seq_cons, rmatch_Bol, rmatch_Seq_cons, rmatch_Lits.
  split.
  - destruct (starts_with n s) eqn:E; [|by intros [? ?]].
    apply starts_with_spec in E as [t ->]. rewrite drop_app_length.
    rewrite seq_Lit. destruct t as [|x t]; [by intros [? ?]|].
    destruct (N.eqb (ch ".") x) eqn:Ex; [|by intros [? ?]].
    apply lit_eq in Ex as ->. rewrite digits_lit by done.
    pose proof (takewhile_dropwhile isdigit t) as Ht.
    destruct (takewhile isdigit t) as [|d m] eqn:E2; [by intros [? ?]|].
    destruct (dropwhile isdigit t) as [|y t']; [by intros [? ?]|].
    destruct (N.eqb (ch ".") y) eqn:Ey; [|by intros [? ?]].
    apply lit_eq in Ey as ->. intros _.
    exists (d :: m), t'. rewrite Ht. split; [|done].
    rewrite <- E2. apply digits_of_takewhile. by rewrite E2.
  - intros (m & rest & Hm & ->).
    assert (E : starts_with n (n ++ ch "." :: m ++ ch "." :: rest) = true)
      by (apply starts_with_spec; eauto).
    rewrite E, drop_app_length, seq_Lit, N.eqb_refl, digits_lit by done.
    destruct (digits_takewhile m (ch "." :: rest) Hm) as [-> ->];
      [by apply stops_lit|].
    destruct (digits_head _ Hm) as (? & ? & -> & _).
    rewrite N.eqb_refl. by eexists.
Qed.

Lemma cyr_stops_space x t : cyr x = true → stops isspace (x :: t).
Proof.
  intros H. simpl. destruct (isspace x) eqn:E; [|done].
  apply space_not_letter in E. congruence.
Qed.

Lemma digit_stops_space x t : isdigit x = true → stops isspace (x :: t).
Proof. intros H. simpl. by apply digit_not_space. Qed.

(** [INLINE_LETTER] on a line "N.letter) text". *)
Lemma INLINE_LETTER_some (n sp sp' text : str) (x : N) :
  digits n → forallb isspace sp = true → cyr x = true →
  forallb isspace sp' = true → stops isspace text →
  text ≠ [] → forallb notnl text = true →
  ∃ m, re_match INLINE_LETTER (n ++ ch "." :: sp ++ x :: ch ")" :: sp' ++ text) = Some m ∧
       group_str 1 m = n ∧ group_str 2 m = [x] ∧ group_str 3 m = text.
Proof.
  intros Hn Hsp Hx Hsp' Hst Hne Hnl. unfold re_match, at_pos, INLINE_LETTER.
  rewrite rmatch_Seq_cons, rmatch_Bol, grp_digits_lit by done.
  destruct (digits_takewhile n (ch "." :: sp ++ x :: ch ")" :: sp' ++ text) Hn)
    as [-> ->]; [by apply stops_lit|].
  destruct (digits_head _ Hn) as (d & n' & -> & _).
  rewrite N.eqb_refl.
  rewrite spaces_det by (apply rejects_grp_cls, space_not_letter).
  rewrite munch_split by (done || by apply cyr_stops_space).
  unfold letter. rewrite grp_cls, Hx, seq_Lit, N.eqb_refl.
  rewrite spaces_rest by done. eexists. split; [done|].
  unfold group_str, group. cbn [caps].
  rewrite lookup_insert_eq, !lookup_insert_ne, !lookup_insert_eq by done.
  rewrite !lookup_insert_ne, lookup_insert_eq by done. done.
Qed.

(** [INLINE_LETTER] fails when what follows the number is not a letter
    variant with text after it. *)
Lemma INLINE_LETTER_none (n sp prose : str) :
  digits n → forallb isspace sp = true → stops isspace prose →
  (∀ x rest, cyr x = true → rest ≠ [] → prose ≠ x :: ch ")" :: rest) →
  re_match INLINE_LETTER (n ++ ch "." :: sp ++ prose) = None.
Proof.
  intros Hn Hsp Hst Hno. unfold re_match, at_pos, INLINE_LETTER.
  rewrite rmatch_Seq_cons, rmatch_Bol, grp_digits_lit by done.
  destruct (digits_takewhile n (ch "." :: sp ++ prose) Hn)
    as [-> ->]; [by apply stops_lit|].
  destruct (digits_head _ Hn) as (d & n' & -> & _).
  rewrite N.eqb_refl.
  rewrite spaces_det by (apply rejects_grp_cls, space_not_letter).
  rewrite munch_split by done.
  unfold letter. rewrite grp_cls.
  destruct prose as [|x t]; [done|].
  destruct (cyr x) eqn:Hx; [|done].
  rewrite seq_Lit. destruct t as [|y t]; [done|].
  destruct (N.eqb (ch ")") y) eqn:Ey; [|done].
  apply lit_eq in Ey as ->.
  destruct t as [|z t]; [apply spaces_rest_nil|].
  by destruct (Hno x (z :: t)).
Qed.

(** [INLINE_NUMBERED] fails when what follows the number is not a numbered
    variant with text after it. *)
Lemma INLINE_NUMBERED_none (n sp prose : str) :
  digits n → forallb isspace sp = true → stops isspace prose →
  (∀ m rest, digits m → rest ≠ [] → prose ≠ m ++ ch ")" :: rest) →
  re_match INLINE_NUMBERED (n ++ ch "." :: sp ++ prose) = None.
Proof.
  intros Hn Hsp Hst Hno. unfold re_match, at_pos, INLINE_NUMBERED.
  rewrite rmatch_Seq_cons, rmatch_Bol, grp_digits_lit by done.
  destruct (digits_takewhile n (ch "." :: sp ++ prose) Hn)
    as [-> ->]; [by apply stops_lit|].
  destruct (digits_head _ Hn) as (d & n' & -> & _).
  rewrite N.eqb_refl. unfold digit.
  rewrite spaces_det by (apply rejects_grp_plus, space_not_digit).
  rewrite munch_split by done.
  fold digit. rewrite grp_digits_lit by done.
  pose proof (takewhile_dropwhile isdigit prose) as Hp.
  destruct (takewhile isdigit prose) as [|e m] eqn:E; [done|].
  destruct (dropwhile isdigit prose) as [|y t]; [done|].
  destruct (N.eqb (ch ")") y) eqn:Ey; [|done].
  apply lit_eq in Ey as ->.
  destruct t as [|z t]; [apply spaces_rest_nil|].
  destruct (Hno (e :: m) (z :: t)); [|done|done].
  rewrite <- E. apply digits_of_takewhile. by rewrite E.
Qed.

(** [NEW_LINE_LETTER] on a line "letter) text". *)
Lemma NEW_LINE_LETTER_some (sp text : str) (x : N) :
  cyr x = true → forallb isspace sp = true → stops isspace text →
  text ≠ [] → forallb notnl text = true →
  ∃ m, re_match NEW_LINE_LETTER (x :: ch ")" :: sp ++ text) = Some m ∧
       group_str 1 m = [x] ∧ group_str 2 m = text.
Proof.
  intros Hx Hsp Hst Hne Hnl. unfold re_match, at_pos, NEW_LINE_LETTER.
  rewrite rmatch_Seq_cons, rmatch_Bol.
  rewrite spaces_det by (apply rejects_grp_cls, space_not_letter).
  rewrite munch_stop by by apply cyr_stops_space.
  unfold letter. rewrite grp_cls, Hx, seq_Lit, N.eqb_refl.
  rewrite spaces_rest by done. eexists. split; [done|].
  unfold group_str, group. cbn [caps].
  by rewrite lookup_insert_eq, lookup_insert_ne, lookup_insert_eq.
Qed.

(** [NEW_LINE_LETTER] fails on a line that begins with a digit. *)
Lemma NEW_LINE_LETTER_digit (x : N) (t : str) :
  isdigit x = true → re_match NEW_LINE_LETTER (x :: t) = None.
Proof.
  intros Hx. unfold re_match, at_pos, NEW_LINE_LETTER.
  rewrite rmatch_Seq_cons, rmatch_Bol.
  rewrite spaces_det by (apply rejects_grp_cls, space_not_letter).
  rewrite munch_stop by by apply digit_stops_space.
  unfold letter. rewrite grp_cls. by rewrite digit_not_letter.
Qed.

(** [NEW_LINE_NUMBERED] on a line "M) text". *)
Lemma NEW_LINE_NUMBERED_some (m sp text : str) :
  digits m → sp ≠ [] → forallb isspace sp = true → stops isspace text →
  text ≠ [] → forallb notnl text = true →
  ∃ r, re_match NEW_LINE_NUMBERED (m ++ ch ")" :: sp ++ text) = Some r ∧
       group_str 1 r = m ∧ group_str 2 r = text.
Proof.
  intros Hm Hsp0 Hsp Hst Hne Hnl. unfold re_match, at_pos, NEW_LINE_NUMBERED.
  rewrite rmatch_Seq_cons, rmatch_Bol. unfold digit.
  rewrite spaces_det by (apply rejects_grp_plus, space_not_digit).
  destruct (digits_head _ Hm) as (d & m' & -> & Hd).
  rewrite munch_stop by by apply digit_stops_space.
  fold digit. rewrite grp_digits_lit by done.
  destruct (digits_takewhile (d :: m') (ch ")" :: sp ++ text) Hm)
    as [-> ->]; [by apply stops_lit|].
  rewrite N.eqb_refl. rewrite rmatch_Seq_cons. unfold space.
  eexists. split.
  - apply plus_max.
    + rewrite takewhile_stop by done. done.
    + rewrite munch_split by done. by apply grp_rest.
  - unfold group_str, group. cbn [caps].
    by rewrite lookup_insert_eq, lookup_insert_ne, lookup_insert_eq.
Qed.

(** ** One line of the task part *)

Lemma sentinel_chars : ∃ t, sentinel = 1054%N :: 1090%N :: t.
Proof. eexists. vm_compute. reflexivity. Qed.

Lemma digit_line_not_sentinel (n t : str) : digits n → n ++ t ≠ sentinel.
Proof.
  intros (d & n' & -> & Hd)%digits_head. destruct sentinel_chars as [s ->].
  intros [= -> _]. by vm_compute in Hd.
Qed.

Lemma paren_line_not_sentinel (x : N) (t : str) : x :: ch ")" :: t ≠ sentinel.
Proof. destruct sentinel_chars as [s ->]. by intros [= _ ?]. Qed.

Lemma process_line_scan lines i raw st :
  answers_section st = false → normalize raw ≠ sentinel →
  process_line lines i raw st =
  ScanState (tasks st ++ (scan_task_line lines i (normalize raw) (current_main_id st)).1)
            (scan_task_line lines i (normalize raw) (current_main_id st)).2
            false (all_answers st).
Proof.
  intros Ha Hs. unfold process_line.
  rewrite bool_decide_eq_false_2 by done. rewrite Ha. simpl.
  by destruct (scan_task_line _ _ _ _).
Qed.

Lemma process_line_answers lines i raw st :
  answers_section st = true →
  tasks (process_line lines i raw st) = tasks st ∧
  current_main_id (process_line lines i raw st) = current_main_id st ∧
  answers_section (process_line lines i raw st) = true.
Proof.
  intros Ha. unfold process_line. rewrite Ha.
  by destruct (bool_decide _).
Qed.

Lemma is_header_iff lines i n :
  is_header lines i n = true ↔
  ∃ next, lines !! (i + 1)%nat = Some next ∧ header_shape n (strip next).
Proof.
  unfold is_header. destruct (lines !! (i + 1)%nat) as [next|].
  - rewrite bool_decide_eq_true, HEADER_iff. split; [eauto|].
    by intros (? & [= <-] & ?).
  - split; [done|]. by intros (? & ? & _).
Qed.

Lemma scan_task_line_three lines i line reg :
  three_level_shape line → scan_task_line lines i line reg = ([], reg).
Proof.
  intros H%THREE_LEVEL_iff. unfold scan_task_line.
  by rewrite bool_decide_eq_true_2.
Qed.

(** A line that begins with a number and a dot, and is not three-level. *)
Lemma scan_task_line_main lines i (n t : str) reg :
  digits n → ¬ three_level_shape (n ++ ch "." :: t) →
  scan_task_line lines i (n ++ ch "." :: t) reg =
  if is_header lines i n then ([], Some n)
  else
    match inline_variant [(INLINE_LETTER, 2%nat); (INLINE_NUMBERED, 2%nat)]
                         (n ++ ch "." :: t) with
    | Some (variant, task_text) =>
      ([create_task n (Some variant) task_text true], Some n)
    | None =>
      match strip (takewhile notnl (dropwhile isspace t)) with
      | c :: s => ([create_task n None (c :: s) false], Some n)
      | [] => ([], Some n)
      end
    end.
Proof.
  intros Hn H3. unfold scan_task_line.
  rewrite bool_decide_eq_false_2 by by rewrite THREE_LEVEL_iff.
  destruct (MAIN_some n t Hn) as (m & -> & -> & ->).
  by destruct (strip _).
Qed.

(** A line that does not begin with a number and a dot. *)
Lemma scan_task_line_other lines i line reg :
  ¬ main_shape line →
  scan_task_line lines i line reg =
  match new_line_variant [(NEW_LINE_LETTER, 1%nat); (NEW_LINE_NUMBERED, 1%nat)]
                         reg line with
  | Some (variant, task_text) =>
    ([create_task (default [] reg) (Some variant) task_text true], reg)
  | None => ([], reg)
  end.
Proof.
  intros Hm. unfold scan_task_line.
  rewrite bool_decide_eq_false_2.
  - by rewrite MAIN_none.
  - rewrite THREE_LEVEL_iff. intros (d1 & d2 & rest & H1 & _ & ->).
    apply Hm. by exists d1, (d2 ++ ch "." :: rest).
Qed.

(** The text after the number of a normalized line. *)
Lemma tidy_text (a text : str) :
  tidy (a ++ text) → text ≠ [] → stops isspace text →
  forallb notnl text = true ∧ strip text = text.
Proof.
  intros Ht Hne Hs. pose proof (tidy_app_r _ _ Ht Hne) as H.
  split; [by apply tidy_notnl|by apply strip_id].
Qed.

Lemma space_stops_digit (sp s : str) :
  forallb isspace sp = true → stops isspace s → stops isdigit s →
  stops isdigit (sp ++ s).
Proof.
  intros Hsp _ Hs. destruct sp as [|x sp]; [done|].
  simpl in *. apply andb_prop in Hsp as [Hx _]. by apply space_not_digit.
Qed.

(** No three-level reading when a blank or a letter follows the dot. *)
Lemma not_three_level (n s : str) :
  digits n → stops isdigit s → ¬ three_level_shape (n ++ ch "." :: s).
Proof.
  intros Hn Hs (d1 & d2 & rest & H1 & H2 & E).
  apply digits_split_unique in E as [_ E]; [|done|done|by apply stops_lit..].
  injection E as ->. destruct (digits_head _ H2) as (d & ? & -> & Hd).
  simpl in Hs. congruence.
Qed.

(** A bare main-task line adds one main task. *)
Lemma process_bare_main lines i raw st (n sp prose : str) :
  answers_section st = false →
  normalize raw = n ++ ch "." :: sp ++ prose →
  digits n → forallb isspace sp = true →
  prose ≠ [] → stops isspace prose →
  (∀ x rest, cyr x = true → rest ≠ [] → prose ≠ x :: ch ")" :: rest) →
  (∀ m rest, digits m → rest ≠ [] → prose ≠ m ++ ch ")" :: rest) →
  ¬ three_level_shape (normalize raw) →
  (∀ next, lines !! (i + 1)%nat = Some next → ¬ header_shape n (strip next)) →
  tasks (process_line lines i raw st) =
  tasks st ++ [Task n prose no_answer (u "5;6") 1 1].
Proof.
  intros Ha Hl Hn Hsp Hne Hst Hlet Hnum H3 Hnext.
  pose proof (normalize_tidy raw) as Ht. rewrite Hl in Ht, H3.
  assert (Ht' : tidy ((n ++ ch "." :: sp) ++ prose))
    by (rewrite <- app_assoc; exact Ht).
  destruct (tidy_text _ _ Ht' Hne Hst) as [Hnl Hstrip].
  rewrite process_line_scan; [|done|rewrite Hl; by apply digit_line_not_sentinel].
  rewrite Hl, scan_task_line_main by done.
  destruct (is_header lines i n) eqn:E.
  { apply is_header_iff in E as (next & E & Hh). by destruct (Hnext next). }
  cbn [inline_variant].
  rewrite INLINE_LETTER_none, INLINE_NUMBERED_none by done.
  rewrite dropwhile_stop, takewhile_id, Hstrip by done.
  by destruct prose.
Qed.

(** ** New-line sub-variants and the register *)

Lemma letter_line_not_main (x : N) (t : str) : cyr x = true → ¬ main_shape (x :: t).
Proof.
  intros Hx (n & t' & (d & n' & -> & Hd)%digits_head & [= -> _]).
  apply letter_not_digit in Hx. congruence.
Qed.

Lemma paren_line_not_main (m t : str) : digits m → ¬ main_shape (m ++ ch ")" :: t).
Proof.
  intros Hm (n & t' & Hn & E).
  apply digits_split_unique in E as [_ E]; [done|done|done|by apply stops_lit..].
Qed.

Lemma new_line_not_main (l : str) : new_line_shape l → ¬ main_shape l.
Proof.
  intros [(x & rest & Hx & ->)|(m & rest & Hm & ->)];
    [by apply letter_line_not_main|by apply paren_line_not_main].
Qed.

Lemma new_line_not_sentinel (l : str) : new_line_shape l → l ≠ sentinel.
Proof.
  intros [(x & rest & Hx & ->)|(m & rest & Hm & ->)];
    [apply paren_line_not_sentinel|by apply digit_line_not_sentinel].
Qed.

Lemma new_line_variant_None patterns line :
  new_line_variant patterns None line = None.
Proof.
  induction patterns as [|[pattern idx] rest IH]; [done|].
  simpl. by destruct (re_match pattern line).
Qed.

Lemma process_new_line_letter lines j raw st (n sp text : str) (x : N) :
  answers_section st = false → current_main_id st = Some n → n ≠ [] →
  normalize raw = x :: ch ")" :: sp ++ text →
  cyr x = true → forallb isspace sp = true → text ≠ [] → stops isspace text →
  tasks (process_line lines j raw st) =
  tasks st ++ [Task (n ++ [ch "."; x]) (9%N :: text) no_answer (u "5;6") 1 1].
Proof.
  intros Ha Hreg Hn Hl Hx Hsp Hne Hst.
  pose proof (normalize_tidy raw) as Ht. rewrite Hl in Ht.
  assert (Ht' : tidy ((x :: ch ")" :: sp) ++ text)) by exact Ht.
  destruct (tidy_text _ _ Ht' Hne Hst) as [Hnl Hstrip].
  rewrite process_line_scan; [|done|rewrite Hl; apply paren_line_not_sentinel].
  rewrite Hl, scan_task_line_other by by apply letter_line_not_main.
  rewrite Hreg. cbn [new_line_variant].
  destruct (NEW_LINE_LETTER_some sp text x) as (m & -> & -> & ->); [done..|].
  destruct n; [done|]. by rewrite Hstrip.
Qed.

Lemma process_new_line_numbered lines j raw st (n m sp text : str) :
  answers_section st = false → current_main_id st = Some n → n ≠ [] →
  normalize raw = m ++ ch ")" :: sp ++ text →
  digits m → sp ≠ [] → forallb isspace sp = true →
  text ≠ [] → stops isspace text →
  tasks (process_line lines j raw st) =
  tasks st ++ [Task (n ++ ch "." :: m) (9%N :: text) no_answer (u "5;6") 1 1].
Proof.
  intros Ha Hreg Hn Hl Hm Hsp0 Hsp Hne Hst.
  pose proof (normalize_tidy raw) as Ht. rewrite Hl in Ht.
  assert (Ht' : tidy ((m ++ ch ")" :: sp) ++ text))
    by (rewrite <- app_assoc; exact Ht).
  destruct (tidy_text _ _ Ht' Hne Hst) as [Hnl Hstrip].
  rewrite process_line_scan; [|done|rewrite Hl; by apply digit_line_not_sentinel].
  rewrite Hl, scan_task_line_other by by apply paren_line_not_main.
  rewrite Hreg. cbn [new_line_variant].
  destruct (NEW_LINE_NUMBERED_some m sp text) as (r & -> & -> & ->); [done..|].
  destruct (digits_head _ Hm) as (d & m' & -> & Hd).
  cbn [app]. rewrite NEW_LINE_LETTER_digit by done.
  destruct n; [done|]. by rewrite Hstrip.
Qed.

(** While no line has set the register, a new-line sub-variant line,
    "letter) ..." or "M) ...", adds no record and leaves the register
    unset. *)
Lemma new_line_without_register lines i raw st :
  answers_section st = false → current_main_id st = None →
  new_line_shape (normalize raw) →
  tasks (process_line lines i raw st) = tasks st ∧
  current_main_id (process_line lines i raw st) = None.
Proof.
  intros Ha Hreg Hs.
  rewrite process_line_scan by (done || by apply new_line_not_sentinel).
  rewrite scan_task_line_other by by apply new_line_not_main.
  rewrite Hreg, new_line_variant_None. simpl. by rewrite app_nil_r.
Qed.

(** ** What a match of a new-line pattern captured *)

Lemma star_loop_S body g f st k :
  star_loop body g (S f) st k =
  let more :=
    body st (fun st' =>
      if bool_decide (length (suf st') < length (suf st))
      then star_loop body g f st' k else None) in
  if g then orelse more (k st) else orelse (k st) more.
Proof. reflexivity. Qed.

(** A repetition of a class hands the groups on unchanged. *)
Lemma star_loop_cls_caps p g f st k r :
  star_loop (rmatch (Cls p)) g f st k = Some r →
  ∃ st', k st' = Some r ∧ caps st' = caps st.
Proof.
  revert st r. induction f as [|f IH]; intros st r H.
  - by exists st.
  - rewrite star_loop_S in H. cbv zeta in H.
    assert (Hmore : ∀ r',
      rmatch (Cls p) st (fun st' =>
        if bool_decide (length (suf st') < length (suf st))
        then star_loop (rmatch (Cls p)) g f st' k else None) = Some r' →
      ∃ st', k st' = Some r' ∧ caps st' = caps st).
    { intros r' Hr'. destruct st as [pr s c]. rewrite rmatch_Cls in Hr'.
      destruct s as [|x t]; [done|]. destruct (p x); [|done].
      cbn [suf] in Hr'. destruct (bool_decide _); [|done].
      apply IH in Hr' as (st' & ? & ?). by exists st'. }
    destruct g.
    + destruct (rmatch (Cls p) st _) as [r'|] eqn:E.
      * simpl in H. injection H as ->. by apply Hmore.
      * simpl in H. by exists st.
    + destruct (k st) as [r'|] eqn:E.
      * simpl in H. injection H as ->. by exists st.
      * simpl in H. by apply Hmore.
Qed.

Lemma grp2_rest_caps st r :
  rmatch (Seq [Grp 2 (Plus true Any)]) st Some = Some r →
  caps r !! 1%nat = caps st !! 1%nat.
Proof.
  rewrite rmatch_Seq_cons, rmatch_Grp. unfold Plus, Any.
  rewrite rmatch_Cat. destruct st as [pr s c]. rewrite rmatch_Cls.
  destruct s as [|x t]; [done|]. destruct (negb _); [|done].
  rewrite rmatch_Star. intros (st' & H & Hc)%star_loop_cls_caps.
  rewrite rmatch_Seq_nil in H. injection H as <-.
  unfold capture. cbn [caps] in *. rewrite Hc.
  by rewrite lookup_insert_ne.
Qed.

Lemma spaces_grp2_caps st r :
  rmatch (Seq [Star true space; Grp 2 (Plus true Any)]) st Some = Some r →
  caps r !! 1%nat = caps st !! 1%nat.
Proof.
  rewrite rmatch_Seq_cons. unfold space. rewrite rmatch_Star.
  intros (st' & H & Hc)%star_loop_cls_caps.
  apply grp2_rest_caps in H. by rewrite H, Hc.
Qed.

Lemma plus_spaces_grp2_caps st r :
  rmatch (Seq [Plus true space; Grp 2 (Plus true Any)]) st Some = Some r →
  caps r !! 1%nat = caps st !! 1%nat.
Proof.
  rewrite rmatch_Seq_cons. unfold space, Plus at 1.
  rewrite rmatch_Cat. destruct st as [pr s c]. rewrite rmatch_Cls.
  destruct s as [|x t]; [done|]. destruct (isspace x); [|done].
  rewrite rmatch_Star. intros (st' & H & Hc)%star_loop_cls_caps.
  apply grp2_rest_caps in H. by rewrite H, Hc.
Qed.

Lemma group_str_lookup n m (v : str) : caps m !! n = Some v → group_str n m = v.
Proof. unfold group_str, group. by intros ->. Qed.

Lemma NEW_LINE_LETTER_inv (x : N) (t : str) m :
  cyr x = true → re_match NEW_LINE_LETTER (x :: ch ")" :: t) = Some m →
  group_str 1 m = [x].
Proof.
  intros Hx. unfold re_match, at_pos, NEW_LINE_LETTER.
  rewrite rmatch_Seq_cons, rmatch_Bol.
  rewrite spaces_det by (apply rejects_grp_cls, space_not_letter).
  rewrite munch_stop by by apply cyr_stops_space.
  unfold letter. rewrite grp_cls, Hx, seq_Lit, N.eqb_refl.
  intros H%spaces_grp2_caps. apply group_str_lookup.
  rewrite H. cbn [caps]. by rewrite lookup_insert_eq.
Qed.

Lemma NEW_LINE_NUMBERED_inv (n t : str) m :
  digits n → re_match NEW_LINE_NUMBERED (n ++ ch ")" :: t) = Some m →
  group_str 1 m = n.
Proof.
  intros Hn. unfold re_match, at_pos, NEW_LINE_NUMBERED.
  rewrite rmatch_Seq_cons, rmatch_Bol. unfold digit.
  rewrite spaces_det by (apply rejects_grp_plus, space_not_digit).
  destruct (digits_head _ Hn) as (d & n' & -> & Hd).
  rewrite munch_stop by by apply digit_stops_space.
  fold digit. rewrite grp_digits_lit by done.
  destruct (digits_takewhile (d :: n') (ch ")" :: t) Hn)
    as [-> ->]; [by apply stops_lit|].
  rewrite N.eqb_refl.
  intros H%plus_spaces_grp2_caps. apply group_str_lookup.
  rewrite H. cbn [caps]. by rewrite lookup_insert_eq.
Qed.

Lemma NEW_LINE_NUMBERED_letter (x : N) (t : str) :
  cyr x = true → re_match NEW_LINE_NUMBERED (x :: t) = None.
Proof.
  intros Hx. unfold re_match, at_pos, NEW_LINE_NUMBERED.
  rewrite rmatch_Seq_cons, rmatch_Bol. unfold digit.
  rewrite spaces_det by (apply rejects_grp_plus, space_not_digit).
  rewrite munch_stop by by apply cyr_stops_space.
  fold digit. rewrite grp_digits_lit by done.
  cbn [takewhile]. by rewrite letter_not_digit.
Qed.

(** Whether a line begins with a number and a dot can be decided. *)
Lemma main_shape_cases (l : str) : main_shape l ∨ ¬ main_shape l.
Proof.
  pose proof (takewhile_dropwhile isdigit l) as Hl.
  destruct (takewhile isdigit l) as [|d n] eqn:E1.
  { right. intros (n & t & Hn & ->).
    destruct (digits_takewhile n (ch "." :: t) Hn) as [H _]; [by apply stops_lit|].
    rewrite E1 in H. destruct Hn. congruence. }
  assert (Hn : digits (d :: n))
    by (rewrite <- E1; apply digits_of_takewhile; by rewrite E1).
  destruct (dropwhile isdigit l) as [|x t] eqn:E2.
  { right. intros (n' & t' & Hn' & ->).
    destruct (digits_takewhile n' (ch "." :: t') Hn') as [_ H]; [by apply stops_lit|].
    congruence. }
  destruct (N.eqb_spec (ch ".") x) as [<-|Hx].
  - left. by exists (d :: n), t.
  - right. intros (n' & t' & Hn' & ->).
    destruct (digits_takewhile n' (ch "." :: t') Hn') as [_ H]; [by apply stops_lit|].
    congruence.
Qed.

Lemma MAIN_inv (l : str) m :
  re_match MAIN l = Some m →
  ∃ t, digits (group_str 1 m) ∧ l = group_str 1 m ++ ch "." :: t.
Proof.
  intros H. destruct (main_shape_cases l) as [(n & t & Hn & ->)|Hno].
  - destruct (MAIN_some n t Hn) as (m' & E & <- & _).
    rewrite E in H. injection H as <-. eauto.
  - by rewrite MAIN_none in H.
Qed.

(** ** The loop over the lines *)

Lemma scan_lines_app lines i (a b : list str) st :
  scan_lines lines i (a ++ b) st =
  scan_lines lines (i + length a) b (scan_lines lines i a st).
Proof.
  revert i st. induction a as [|x a IH]; intros i st; simpl.
  - by rewrite Nat.add_0_r.
  - rewrite IH. f_equal. lia.
Qed.

Lemma state_at_S lines i raw :
  lines !! i = Some raw →
  state_at lines (S i) = process_line lines i raw (state_at lines i).
Proof.
  intros H. unfold state_at. rewrite (take_S_r _ _ _ H), scan_lines_app.
  simpl. rewrite length_take_le; [done|].
  apply lookup_lt_Some in H. lia.
Qed.

Lemma scan_from_state_at lines i :
  scan_lines lines 0 lines initial =
  scan_lines lines (i `min` length lines) (drop i lines) (state_at lines i).
Proof.
  unfold state_at. rewrite <- (take_drop i lines) at 2.
  rewrite scan_lines_app, length_take. done.
Qed.

Lemma process_line_grows lines i raw st :
  ∃ new, tasks (process_line lines i raw st) = tasks st ++ new.
Proof.
  unfold process_line. destruct (bool_decide _); [by exists []; rewrite app_nil_r|].
  destruct (answers_section st); simpl.
  - exists []. by rewrite app_nil_r.
  - destruct (scan_task_line _ _ _ _) as [new reg]. by exists new.
Qed.

Lemma scan_lines_grows lines i rest st :
  ∃ new, tasks (scan_lines lines i rest st) = tasks st ++ new.
Proof.
  revert i st. induction rest as [|x rest IH]; intros i st; simpl.
  - exists []. by rewrite app_nil_r.
  - destruct (IH (S i) (process_line lines i x st)) as [new2 ->].
    destruct (process_line_grows lines i x st) as [new1 ->].
    exists (new1 ++ new2). by rewrite app_assoc.
Qed.

Lemma scan_lines_answers lines i rest st :
  answers_section st = true →
  answers_section (scan_lines lines i rest st) = true ∧
  tasks (scan_lines lines i rest st) = tasks st.
Proof.
  revert i st. induction rest as [|x rest IH]; intros i st Ha; simpl; [done|].
  destruct (process_line_answers lines i x st Ha) as (Ht & _ & Ha').
  destruct (IH (S i) _ Ha') as [-> ->]. done.
Qed.

Lemma process_line_sentinel lines i raw st :
  normalize raw = sentinel →
  process_line lines i raw st =
  ScanState (tasks st) (current_main_id st) true (all_answers st).
Proof. intros H. unfold process_line. by rewrite bool_decide_eq_true_2. Qed.

Lemma merge_answers_ids m ts :
  map id_tasks_book (merge_answers m ts) = map id_tasks_book ts.
Proof.
  unfold merge_answers. rewrite map_map. apply map_ext.
  intros t. by destruct (m !! id_tasks_book t).
Qed.

Lemma merge_answers_texts m ts : map task (merge_answers m ts) = map task ts.
Proof.
  unfold merge_answers. rewrite map_map. apply map_ext.
  intros t. by destruct (m !! id_tasks_book t).
Qed.

Lemma merge_answers_empty ts : merge_answers ∅ ts = ts.
Proof.
  unfold merge_answers. rewrite <- (map_id ts) at 2. apply map_ext.
  intros t. by rewrite lookup_empty.
Qed.

(** ** Without the sentinel heading *)

Lemma scan_task_line_default lines i line reg :
  Forall (fun t => answer t = no_answer) (scan_task_line lines i line reg).1.
Proof.
  unfold scan_task_line. repeat case_match; simpl; repeat constructor.
Qed.

Lemma process_line_quiet lines i raw st :
  quiet st → normalize raw ≠ sentinel → quiet (process_line lines i raw st).
Proof.
  intros (Ha & Hm & Ht) Hs. rewrite process_line_scan by done.
  split; [done|]. split; [done|]. cbn [tasks].
  apply Forall_app. split; [done|apply scan_task_line_default].
Qed.

Lemma scan_lines_quiet lines i rest st :
  quiet st → (∀ l, l ∈ rest → normalize l ≠ sentinel) →
  quiet (scan_lines lines i rest st).
Proof.
  revert i st. induction rest as [|x rest IH]; intros i st Hq Hs; simpl; [done|].
  apply IH.
  - apply process_line_quiet; [done|]. apply Hs. by left.
  - intros l Hl. apply Hs. by right.
Qed.

Lemma quiet_initial : quiet initial.
Proof. split; [done|]. split; [done|]. constructor. Qed.

(** ** Where the register comes from *)

Lemma process_line_register lines i raw st :
  current_main_id (process_line lines i raw st) = current_main_id st ∨
  (answers_section st = false ∧
   ∃ n rest, digits n ∧ normalize raw = n ++ ch "." :: rest ∧
             current_main_id (process_line lines i raw st) = Some n).
Proof.
  unfold process_line. destruct (bool_decide _); [by left|].
  destruct (answers_section st); [by left|]. simpl.
  unfold scan_task_line. destruct (bool_decide _); [by left|].
  destruct (re_match MAIN (normalize raw)) as [m|] eqn:E.
  - right. split; [done|].
    apply MAIN_inv in E as (t & Hn & E). exists (group_str 1 m), t.
    split; [done|]. split; [done|].
    destruct (is_header _ _ _); [done|].
    destruct (inline_variant _ _) as [[??]|]; [done|]. by destruct (strip _).
  - left. by destruct (new_line_variant _ _ _) as [[??]|].
Qed.

Lemma state_at_beyond lines i :
  lines !! i = None → state_at lines (S i) = state_at lines i.
Proof.
  intros H%lookup_ge_None. unfold state_at.
  by rewrite !take_ge by lia.
Qed.

(** The register holds the number of an earlier line of the task part. *)
Lemma register_origin lines i n :
  current_main_id (state_at lines i) = Some n →
  ∃ j rawj rest, (j < i)%nat ∧ lines !! j = Some rawj ∧
    normalize rawj = n ++ ch "." :: rest ∧ digits n ∧
    answers_section (state_at lines j) = false.
Proof.
  revert n. induction i as [|i IH]; intros n H; [done|].
  destruct (lines !! i) as [raw|] eqn:E.
  - rewrite (state_at_S _ _ _ E) in H.
    destruct (process_line_register lines i raw (state_at lines i))
      as [Hr|(Ha & n' & rest & Hn & Hl & Hr)].
    + rewrite Hr in H. destruct (IH n H) as (j & rawj & rest & ? & ?).
      exists j, rawj, rest. split; [lia|done].
    + rewrite Hr in H. injection H as <-. exists i, raw, rest.
      split; [lia|done].
  - rewrite (state_at_beyond _ _ E) in H.
    destruct (IH n H) as (j & rawj & rest & ? & ?).
    exists j, rawj, rest. split; [lia|done].
Qed.

Lemma new_line_variant_Some patterns reg line v :
  new_line_variant patterns reg line = Some v → truthy reg = true.
Proof.
  induction patterns as [|[pattern idx] rest IH]; [done|]. simpl.
  destruct (re_match pattern line); [|done]. by destruct (truthy reg).
Qed.

Lemma create_task_id n variant text sub :
  id_tasks_book (create_task n variant text sub) = n ∨
  ∃ v, id_tasks_book (create_task n variant text sub) = dotted n v.
Proof. destruct variant as [[|c v]|]; simpl; eauto. Qed.

(** Every record a line adds carries the number of a line "N. ..." of the
    task part that is not after it. *)
Lemma emitted_origin lines i raw t :
  lines !! i = Some raw →
  t ∈ drop (length (tasks (state_at lines i))) (tasks (state_at lines (S i))) →
  ∃ j rawj n rest,
    (j ≤ i)%nat ∧ lines !! j = Some rawj ∧
    normalize rawj = n ++ ch "." :: rest ∧ digits n ∧
    (id_tasks_book t = n ∨ ∃ v, id_tasks_book t = dotted n v).
Proof.
  intros Hi. rewrite (state_at_S _ _ _ Hi). set (st := state_at lines i).
  destruct (answers_section st) eqn:Ha.
  { destruct (process_line_answers lines i raw st Ha) as (-> & _).
    rewrite drop_all. by intros ?%elem_of_nil. }
  destruct (decide (normalize raw = sentinel)) as [Hs|Hs].
  { rewrite process_line_sentinel by done. cbn [tasks].
    rewrite drop_all. by intros ?%elem_of_nil. }
  rewrite process_line_scan by done. cbn [tasks]. rewrite drop_app_length.
  unfold scan_task_line. destruct (bool_decide _); [by intros ?%elem_of_nil|].
  destruct (re_match MAIN (normalize raw)) as [m|] eqn:E.
  - apply MAIN_inv in E as (rest & Hn & E). intros Ht.
    exists i, raw, (group_str 1 m), rest. split_and!; try done.
    destruct (is_header _ _ _); [by apply elem_of_nil in Ht|].
    destruct (inline_variant _ _) as [[v tx]|].
    + apply list_elem_of_singleton in Ht as ->. apply create_task_id.
    + destruct (strip _); [by apply elem_of_nil in Ht|].
      apply list_elem_of_singleton in Ht as ->. apply create_task_id.
  - destruct (new_line_variant _ _ _) as [[v tx]|] eqn:Ev;
      [|by intros ?%elem_of_nil].
    apply new_line_variant_Some in Ev.
    destruct (current_main_id st) as [n|] eqn:Hreg; [|done].
    destruct (register_origin lines i n Hreg) as (j & rawj & rest & Hj & Hlj & Hnj & Hn & _).
    intros Ht%list_elem_of_singleton. subst t.
    exists j, rawj, n, rest. split_and!; try done; [lia|].
    apply create_task_id.
Qed.

(** ** The outline *)

Lemma existsb_elem (c : N) (s : str) : existsb (N.eqb c) s = true ↔ c ∈ s.
Proof.
  rewrite existsb_exists. split.
  - intros (x & Hx%list_elem_of_In & ->%N.eqb_eq). done.
  - intros H. exists c. split; [by apply list_elem_of_In|apply N.eqb_refl].
Qed.

(** A section number without its last segment. *)
Lemma rsplit1_head_spec (c : N) (prefix seg : str) :
  c ∉ seg → rsplit1_head c (prefix ++ c :: seg) = prefix.
Proof.
  intros Hseg. unfold rsplit1_head.
  assert (E : existsb (N.eqb c) (prefix ++ c :: seg) = true).
  { apply existsb_elem, elem_of_app. right. by left. }
  rewrite E, rev_app_distr. simpl. rewrite <- app_assoc. simpl.
  rewrite dropwhile_stop.
  - simpl. apply rev_involutive.
  - apply forallb_forall. intros x Hx%in_rev%list_elem_of_In.
    apply negb_true_iff, N.eqb_neq. by intros <-.
  - simpl. by rewrite N.eqb_refl.
Qed.

Lemma first_id_none key (toc : list TocItem) :
  (∀ j itj, toc !! j = Some itj → temp itj ≠ Some key) →
  first_id_with_temp key toc = 0%Z.
Proof.
  induction toc as [|item toc IH]; intros H; simpl; [done|].
  rewrite bool_decide_eq_false_2 by apply (H 0%nat item eq_refl).
  apply IH. intros j itj Hj. by apply (H (S j)).
Qed.

Lemma first_id_first key (toc : list TocItem) j itj :
  toc !! j = Some itj → temp itj = Some key →
  (∀ j' itj', (j' < j)%nat → toc !! j' = Some itj' → temp itj' ≠ Some key) →
  first_id_with_temp key toc = toc_id itj.
Proof.
  revert j. induction toc as [|item toc IH]; intros j Hj Hk Hfirst; [done|].
  destruct j as [|j]; simpl in *.
  - injection Hj as ->. by rewrite bool_decide_eq_true_2.
  - rewrite bool_decide_eq_false_2 by (apply (Hfirst 0%nat item); [lia|done]).
    apply (IH j); [done|done|]. intros j' itj' Hlt Hj'.
    apply (Hfirst (S j') itj'); [lia|done].
Qed.

Lemma parent_rule_app toc new k item num :
  (k < length toc)%nat →
  parent_rule toc k item num → parent_rule (toc ++ new) k item num.
Proof.
  intros Hk (Hid & Hnodot & Hnone & Hfirst). split; [done|]. split; [done|].
  split.
  - intros prefix seg E Hseg Hno. apply (Hnone prefix seg E Hseg).
    intros j itj Hj Hl. apply (Hno j itj Hj). rewrite lookup_app_l; [done|lia].
  - intros prefix seg j itj E Hseg Hj Hl Ht Hmin.
    rewrite lookup_app_l in Hl by lia.
    apply (Hfirst prefix seg j itj E Hseg Hj Hl Ht).
    intros j' itj' Hj' Hl'. apply (Hmin j' itj' Hj').
    rewrite lookup_app_l; [done|lia].
Qed.

Lemma parent_rule_new toc name num :
  parent_rule (toc ++ [Toc (Z.of_nat (length toc) + 1) name
                           (resolve_parent toc num) (Some num)])
              (length toc)
              (Toc (Z.of_nat (length toc) + 1) name (resolve_parent toc num) (Some num))
              num.
Proof.
  split; [done|]. unfold resolve_parent. cbn [parent]. split; [|split].
  - intros Hno. destruct (existsb _ num) eqn:E; [|done].
    by apply existsb_elem in E.
  - intros prefix seg -> Hseg Hnone.
    assert (E : existsb (N.eqb (ch ".")) (prefix ++ ch "." :: seg) = true).
    { apply existsb_elem, elem_of_app. right. by left. }
    rewrite E, rsplit1_head_spec by done. apply first_id_none.
    intros j itj Hj. apply (Hnone j itj).
    + by apply lookup_lt_Some in Hj.
    + rewrite lookup_app_l; [done|]. by apply lookup_lt_Some in Hj.
  - intros prefix seg j itj -> Hseg Hj Hl Ht Hmin.
    assert (E : existsb (N.eqb (ch ".")) (prefix ++ ch "." :: seg) = true).
    { apply existsb_elem, elem_of_app. right. by left. }
    rewrite E, rsplit1_head_spec by done.
    rewrite lookup_app_l in Hl by done.
    apply (first_id_first _ _ j); [done|done|].
    intros j' itj' Hj' Hl'. apply (Hmin j' itj' Hj').
    rewrite lookup_app_l; [done|lia].
Qed.

Lemma toc_inv_snoc toc current_id name num :
  toc_inv toc current_id →
  toc_inv (toc ++ [Toc current_id name (resolve_parent toc num) (Some num)])
          (current_id + 1).
Proof.
  intros [-> H]. split.
  - rewrite length_app. simpl. lia.
  - intros k item Hk. destruct (decide (k < length toc)%nat) as [Hlt|Hge].
    + rewrite lookup_app_l in Hk by done.
      destruct (H k item Hk) as (n & Ht & Hr).
      exists n. split; [done|]. by apply parent_rule_app.
    + rewrite lookup_app_r in Hk by lia.
      destruct (k - length toc)%nat as [|d] eqn:Ed; [|by destruct d].
      injection Hk as <-. exists num. split; [done|].
      replace k with (length toc) by lia. apply parent_rule_new.
Qed.

Lemma toc_loop_inv paragraphs inside_toc current_id toc :
  toc_inv toc current_id →
  ∃ current_id', toc_inv (toc_loop paragraphs inside_toc current_id toc) current_id'.
Proof.
  revert inside_toc current_id toc.
  induction paragraphs as [|para rest IH]; intros inside cid toc Hinv; simpl.
  - by exists cid.
  - destruct (contains _ _); [by apply IH|].
    destruct (inside && bool_decide _).
    + destruct (re_match TOC_SECTION _); [|by apply IH].
      apply IH. by apply toc_inv_snoc.
    + destruct (inside && negb _); [by exists cid|by apply IH].
Qed.

(** ** More on the line normalizer *)

Lemma dropwhile_snoc p (a : str) x :
  p x = false → dropwhile p (a ++ [x]) = dropwhile p a ++ [x].
Proof.
  intros Hx. induction a as [|y a IH]; simpl; [by rewrite Hx|].
  by destruct (p y).
Qed.

Lemma rstrip_head (l : str) : stops isspace l → stops isspace (rstrip l).
Proof.
  destruct l as [|x t]; [done|]. cbn [stops]. intros Hx.
  unfold rstrip, lstrip. cbn [rev]. rewrite dropwhile_snoc by done.
  rewrite rev_app_distr. done.
Qed.

Lemma strip_head (l : str) : stops isspace (strip l).
Proof. apply rstrip_head, stops_dropwhile. Qed.

Lemma squeeze_head (s : str) : stops isspace s → stops isspace (squeeze s).
Proof.
  destruct s as [|x t]; [done|]. cbn [stops]. intros Hx.
  rewrite squeeze_cons, Hx. done.
Qed.

Lemma normalize_head line : stops isspace (normalize line).
Proof. rewrite normalize_squeeze. apply squeeze_head, strip_head. Qed.

Lemma squeeze_single (s a b : str) (x y : N) :
  squeeze s = a ++ x :: y :: b → isspace x = true → isspace y = false.
Proof.
  revert a. induction s as [|x0 t IH]; intros a E Hx.
  - by destruct a.
  - rewrite squeeze_cons in E. destruct (isspace x0) eqn:E0.
    + destruct t as [|y0 t'].
      * by destruct a as [|? [|? ?]].
      * destruct (isspace y0) eqn:Ey0; [by apply (IH a)|].
        rewrite squeeze_cons, Ey0 in E.
        destruct a as [|z a]; simpl in E.
        -- by injection E as <- <- _.
        -- injection E as _ E. apply (IH a); [|done].
           by rewrite squeeze_cons, Ey0.
    + destruct a as [|z a]; simpl in E.
      * injection E as <- _. congruence.
      * injection E as _ E. by apply (IH a).
Qed.

Lemma filter_dropwhile_space (s : str) :
  List.filter nonspace (dropwhile isspace s) = List.filter nonspace s.
Proof.
  induction s as [|x t IH]; [done|]. simpl. unfold nonspace at 2.
  destruct (isspace x) eqn:E; simpl; [done|].
  unfold nonspace at 1. by rewrite E.
Qed.

Lemma filter_strip (s : str) :
  List.filter nonspace (strip s) = List.filter nonspace s.
Proof.
  unfold strip, rstrip, lstrip.
  rewrite filter_rev, filter_dropwhile_space, <- filter_rev, rev_involutive.
  apply filter_dropwhile_space.
Qed.

Lemma filter_squeeze (s : str) :
  List.filter nonspace (squeeze s) = List.filter nonspace s.
Proof.
  induction s as [|x t IH]; [done|]. rewrite squeeze_cons. simpl.
  unfold nonspace at 2. destruct (isspace x) eqn:E; simpl.
  - destruct t as [|y t']; [done|]. destruct (isspace y); [done|].
    simpl. done.
  - unfold nonspace at 1. rewrite E. simpl. by rewrite IH.
Qed.

Lemma squeeze_idem (s : str) : squeeze (squeeze s) = squeeze s.
Proof.
  induction s as [|x t IH]; [done|]. rewrite squeeze_cons.
  destruct (isspace x) eqn:E.
  - destruct t as [|y t']; [done|].
    destruct (isspace y) eqn:Ey; [done|].
    assert (Hs : squeeze (y :: t') = y :: squeeze t')
      by (by rewrite squeeze_cons, Ey).
    rewrite Hs in IH |- *. rewrite squeeze_cons.
    change (isspace (ch " ")) with true. cbv iota.
    by rewrite Ey, IH.
  - rewrite squeeze_cons, E. by rewrite IH.
Qed.

(** ** More on single lines *)

Lemma strip_blank (s : str) : forallb isspace s = true → strip s = [].
Proof.
  intros H. unfold strip, lstrip.
  assert (E : dropwhile isspace s = []).
  { rewrite <- (app_nil_r s). by rewrite dropwhile_app. }
  by rewrite E.
Qed.

Lemma stripped_lines_blank (a b : list str) (blank : str) :
  forallb isspace blank = true →
  stripped_lines (a ++ blank :: b) = stripped_lines (a ++ b).
Proof.
  intros H. unfold stripped_lines. rewrite !map_app, !filter_app. simpl.
  rewrite strip_blank by done. rewrite filter_cons_False by (by intros ?). done.
Qed.

Lemma scan_task_line_fresh lines i line reg :
  Forall fresh (scan_task_line lines i line reg).1.
Proof.
  unfold scan_task_line. repeat case_match; simpl; repeat constructor.
Qed.

Lemma scan_task_line_one lines i line reg :
  (length (scan_task_line lines i line reg).1 ≤ 1)%nat.
Proof. unfold scan_task_line. repeat case_match; simpl; lia. Qed.

Lemma process_line_cases lines i raw st :
  tasks (process_line lines i raw st) = tasks st ∨
  tasks (process_line lines i raw st) =
  tasks st ++ (scan_task_line lines i (normalize raw) (current_main_id st)).1.
Proof.
  destruct (answers_section st) eqn:Ha.
  - left. by apply process_line_answers.
  - destruct (decide (normalize raw = sentinel)) as [Hs|Hs].
    + left. by rewrite process_line_sentinel.
    + right. by rewrite process_line_scan.
Qed.

Lemma process_line_fresh lines i raw st :
  Forall fresh (tasks st) → Forall fresh (tasks (process_line lines i raw st)).
Proof.
  intros H. destruct (process_line_cases lines i raw st) as [->| ->]; [done|].
  apply Forall_app. split; [done|apply scan_task_line_fresh].
Qed.

Lemma scan_lines_fresh lines i rest st :
  Forall fresh (tasks st) → Forall fresh (tasks (scan_lines lines i rest st)).
Proof.
  revert i st. induction rest as [|x rest IH]; intros i st H; simpl; [done|].
  by apply IH, process_line_fresh.
Qed.

Lemma process_line_one lines i raw st :
  (length (tasks (process_line lines i raw st)) ≤ S (length (tasks st)))%nat.
Proof.
  destruct (process_line_cases lines i raw st) as [->| ->]; [lia|].
  rewrite length_app. pose proof (scan_task_line_one lines i (normalize raw)
                                    (current_main_id st)). lia.
Qed.

Lemma scan_lines_length lines i rest st :
  (length (tasks (scan_lines lines i rest st)) ≤ length (tasks st) + length rest)%nat.
Proof.
  revert i st. induction rest as [|x rest IH]; intros i st; simpl; [lia|].
  pose proof (IH (S i) (process_line lines i x st)).
  pose proof (process_line_one lines i x st). lia.
Qed.

(** [NEW_LINE_LETTER] needs a letter and a parenthesis at the start. *)
Lemma NEW_LINE_LETTER_none (l : str) :
  stops isspace l →
  (∀ x rest, cyr x = true → l ≠ x :: ch ")" :: rest) →
  re_match NEW_LINE_LETTER l = None.
Proof.
  intros Hst Hno. unfold re_match, at_pos, NEW_LINE_LETTER.
  rewrite rmatch_Seq_cons, rmatch_Bol.
  rewrite spaces_det by (apply rejects_grp_cls, space_not_letter).
  rewrite munch_stop by done. unfold letter. rewrite grp_cls.
  destruct l as [|x t]; [done|]. destruct (cyr x) eqn:Hx; [|done].
  rewrite seq_Lit. destruct t as [|y t]; [done|].
  destruct (N.eqb (ch ")") y) eqn:Ey; [|done].
  apply lit_eq in Ey as ->. by destruct (Hno x t).
Qed.

(** [NEW_LINE_NUMBERED] needs a number, a parenthesis and a blank. *)
Lemma NEW_LINE_NUMBERED_none (l : str) :
  stops isspace l →
  (∀ m x rest, digits m → isspace x = true → l ≠ m ++ ch ")" :: x :: rest) →
  re_match NEW_LINE_NUMBERED l = None.
Proof.
  intros Hst Hno. unfold re_match, at_pos, NEW_LINE_NUMBERED.
  rewrite rmatch_Seq_cons, rmatch_Bol. unfold digit.
  rewrite spaces_det by (apply rejects_grp_plus, space_not_digit).
  rewrite munch_stop by done. fold digit. rewrite grp_digits_lit by done.
  pose proof (takewhile_dropwhile isdigit l) as Hl.
  destruct (takewhile isdigit l) as [|d m] eqn:E; [done|].
  destruct (dropwhile isdigit l) as [|y t]; [done|].
  destruct (N.eqb (ch ")") y) eqn:Ey; [|done].
  apply lit_eq in Ey as ->.
  rewrite rmatch_Seq_cons. unfold Plus at 1, space. rewrite rmatch_Cat, rmatch_Cls.
  destruct t as [|x t]; [done|]. destruct (isspace x) eqn:Ex; [|done].
  destruct (Hno (d :: m) x t); [|done|done].
  rewrite <- E. apply digits_of_takewhile. by rewrite E.
Qed.

(** [INLINE_NUMBERED] on a line "N.M) text". *)
Lemma INLINE_NUMBERED_some (n sp m sp' text : str) :
  digits n → forallb isspace sp = true → digits m →
  forallb isspace sp' = true → stops isspace text →
  text ≠ [] → forallb notnl text = true →
  ∃ r, re_match INLINE_NUMBERED (n ++ ch "." :: sp ++ m ++ ch ")" :: sp' ++ text) = Some r ∧
       group_str 1 r = n ∧ group_str 2 r = m ∧ group_str 3 r = text.
Proof.
  intros Hn Hsp Hm Hsp' Hst Hne Hnl. unfold re_match, at_pos, INLINE_NUMBERED.
  rewrite rmatch_Seq_cons, rmatch_Bol, grp_digits_lit by done.
  destruct (digits_takewhile n (ch "." :: sp ++ m ++ ch ")" :: sp' ++ text) Hn)
    as [-> ->]; [by apply stops_lit|].
  destruct (digits_head _ Hn) as (d & n' & -> & _).
  rewrite N.eqb_refl. unfold digit.
  rewrite spaces_det by (apply rejects_grp_plus, space_not_digit).
  destruct (digits_head _ Hm) as (e & m' & -> & He).
  rewrite munch_split; [|done|by apply digit_stops_space].
  fold digit. rewrite grp_digits_lit by done.
  destruct (digits_takewhile (e :: m') (ch ")" :: sp' ++ text) Hm)
    as [-> ->]; [by apply stops_lit|].
  rewrite N.eqb_refl.
  rewrite spaces_rest by done. eexists. split; [done|].
  unfold group_str, group. cbn [caps].
  rewrite lookup_insert_eq, !lookup_insert_ne, !lookup_insert_eq by done.
  rewrite !lookup_insert_ne, lookup_insert_eq by done. done.
Qed.

(** ** More on the outline *)

Lemma contains_spec (needle text : str) :
  contains needle text = true ↔ ∃ a b, text = a ++ needle ++ b.
Proof.
  induction text as [|x t IH]; simpl.
  - rewrite orb_false_r, starts_with_spec. split.
    + intros [b E]. by exists [], b.
    + intros (a & b & E). destruct a; [by exists b|done].
  - rewrite orb_true_iff, starts_with_spec, IH. split.
    + intros [[b E]|(a & b & E)]; [by exists [], b|].
      exists (x :: a), b. by rewrite E.
    + intros ([|y a] & b & E); [left; by exists b|].
      right. injection E as -> E. by exists a, b.
Qed.

Lemma has_heading_iff para :
  contains (u "Оглавление") (strip para) = true ↔ has_heading para.
Proof. apply contains_spec. Qed.

Lemma TOC_LINE_none (text : str) : stops isdigit text → re_match TOC_LINE text = None.
Proof.
  intros H. unfold re_match, at_pos, TOC_LINE.
  rewrite rmatch_Seq_cons, rmatch_Bol, rmatch_Seq_cons.
  unfold Plus at 1, digit. rewrite rmatch_Cat, rmatch_Cls.
  destruct text as [|x t]; [done|]. simpl in H. by rewrite H.
Qed.

Lemma toc_loop_before_heading (pre rest : list str) current_id toc :
  (∀ p, p ∈ pre → ¬ has_heading p) →
  toc_loop (pre ++ rest) false current_id toc = toc_loop rest false current_id toc.
Proof.
  induction pre as [|p pre IH]; intros H; [done|]. simpl.
  destruct (contains _ _) eqn:E.
  - apply has_heading_iff in E. destruct (H p); [by left|done].
  - apply IH. intros q Hq. apply H. by right.
Qed.

Lemma toc_loop_break (pre post : list str) (bad : str) inside current_id toc :
  (inside = true ∨ ∃ p, p ∈ pre ∧ has_heading p) →
  ¬ has_heading bad → stops isdigit (strip bad) →
  toc_loop (pre ++ bad :: post) inside current_id toc =
  toc_loop pre inside current_id toc.
Proof.
  intros Hin Hbad Hd. revert inside current_id toc Hin.
  induction pre as [|p pre IH]; intros inside cid toc Hin.
  - destruct Hin as [->|(p & Hp%elem_of_nil & _)]; [|done]. simpl.
    destruct (contains _ _) eqn:E; [by apply has_heading_iff in E|].
    by rewrite TOC_LINE_none.
  - simpl. destruct (contains _ _) eqn:E; [apply IH; by left|].
    assert (Hin' : inside = true ∨ ∃ q, q ∈ pre ∧ has_heading q).
    { destruct Hin as [?|(q & [->|Hq]%elem_of_cons & Hh)]; [by left| |by right; eauto].
      apply has_heading_iff in Hh. congruence. }
    destruct (inside && bool_decide _).
    + destruct (re_match TOC_SECTION _); by apply IH.
    + destruct (inside && negb _); [done|by apply IH].
Qed.

(** ** The answers of the records returned *)

Lemma merge_answers_elem (m : gmap str str) (ts : list TaskRecord) t :
  t ∈ merge_answers m ts →
  ∃ t0, t0 ∈ ts ∧ id_tasks_book t = id_tasks_book t0 ∧ task t = task t0 ∧
        classes t = classes t0 ∧ topic_id t = topic_id t0 ∧ level t = level t0 ∧
        answer t = default (answer t0) (m !! id_tasks_book t0).
Proof.
  unfold merge_answers. intros (t0 & -> & H)%list_elem_of_fmap.
  exists t0. split; [done|]. by destruct (m !! id_tasks_book t0).
Qed.

Lemma scanned_fresh paragraphs : Forall fresh (tasks (scanned paragraphs)).
Proof. apply scan_lines_fresh. constructor. Qed.

Lemma process_line_answers_map lines i raw st k :
  answers_section st = true → normalize raw ≠ sentinel →
  all_answers (process_line lines i raw st) !! k =
  match extract_answers_from_line (normalize raw) !! k with
  | Some a => Some a
  | None => all_answers st !! k
  end.
Proof.
  intros Ha Hs. unfold process_line.
  rewrite bool_decide_eq_false_2 by done. rewrite Ha. cbn [negb all_answers].
  rewrite lookup_union. by destruct (_ !! k), (_ !! k).
Qed.

Lemma scan_lines_answers_kept lines i rest st k :
  answers_section st = true →
  (∀ l, l ∈ rest → normalize l ≠ sentinel →
        extract_answers_from_line (normalize l) !! k = None) →
  all_answers (scan_lines lines i rest st) !! k = all_answers st !! k.
Proof.
  revert i st. induction rest as [|x rest IH]; intros i st Ha H; simpl; [done|].
  destruct (process_line_answers lines i x st Ha) as (_ & _ & Ha').
  rewrite IH; [|done|intros l Hl; apply H; by right].
  destruct (decide (normalize x = sentinel)) as [Hs|Hs].
  - by rewrite process_line_sentinel.
  - rewrite process_line_answers_map by done.
    rewrite H; [done|by left|done].
Qed.

(** ** Patterns that find nothing *)

Lemma search_from_None r sk p s :
  (∀ a b, s = a ++ b → rmatch r (at_pos (rev a ++ p) b) Some = None) →
  search_from r sk p s = None.
Proof.
  revert sk p. induction s as [|c t IH]; intros sk p H; rewrite search_from_eq.
  - pose proof (H [] [] eq_refl) as E. simpl in E. by rewrite E.
  - pose proof (H [] (c :: t) eq_refl) as E. simpl in E. rewrite E.
    apply IH. intros a b ->.
    specialize (H (c :: a) b eq_refl). simpl in H.
    by rewrite <- app_assoc in H.
Qed.

Lemma re_scan_None r s :
  search_from r [] [] s = None → re_scan r s = ([], s).
Proof. intros H. unfold re_scan. by rewrite scan_eq, H. Qed.

(** What is needed of the subject is needed of any longer subject. *)
Lemma seq_skip (Q : str → Prop) x l (k : kont) :
  (∀ s1 s2, s1 `suffix_of` s2 → Q s1 → Q s2) →
  (∀ st r, rmatch (Seq l) st k = Some r → Q (suf st)) →
  ∀ st r, rmatch (Seq (x :: l)) st k = Some r → Q (suf st).
Proof.
  intros Hup Hl st r H. rewrite rmatch_Seq_cons in H.
  apply rmatch_reaches in H as (st' & H & Hs).
  apply (Hup _ _ Hs). by apply (Hl st' r).
Qed.

Lemma seq_needs_lit a l (k : kont) st r :
  rmatch (Seq (Lit a :: l)) st k = Some r → ch a ∈ suf st.
Proof.
  destruct st as [pr s c]. rewrite seq_Lit. destruct s as [|x t]; [done|].
  destruct (N.eqb (ch a) x) eqn:E; [|done]. apply lit_eq in E as ->.
  intros _. by left.
Qed.

Lemma elem_of_upward (c : N) (s1 s2 : str) : s1 `suffix_of` s2 → c ∈ s1 → c ∈ s2.
Proof. intros [w ->] H. apply elem_of_app. by right. Qed.

Lemma NUMBERED_VARIANT_needs st r :
  rmatch NUMBERED_VARIANT st Some = Some r → ch ")" ∈ suf st.
Proof.
  revert st r. unfold NUMBERED_VARIANT.
  do 2 (apply seq_skip; [apply elem_of_upward|]).
  intros st r. apply seq_needs_lit.
Qed.

Lemma LETTER_VARIANT_needs st r :
  rmatch LETTER_VARIANT st Some = Some r → ch ")" ∈ suf st.
Proof.
  revert st r. unfold LETTER_VARIANT.
  do 2 (apply seq_skip; [apply elem_of_upward|]).
  intros st r. apply seq_needs_lit.
Qed.

Lemma VARIANT_MARK_needs st r :
  rmatch VARIANT_MARK st Some = Some r → ch ")" ∈ suf st.
Proof.
  revert st r. unfold VARIANT_MARK.
  do 3 (apply seq_skip; [apply elem_of_upward|]).
  intros st r. apply seq_needs_lit.
Qed.

Lemma FINAL_DOT_needs st r :
  rmatch FINAL_DOT st Some = Some r → ch "." ∈ suf st.
Proof. apply seq_needs_lit. Qed.

Lemma search_needs r (c : N) (s : str) :
  (∀ st res, rmatch r st Some = Some res → c ∈ suf st) →
  c ∉ s → search_from r [] [] s = None.
Proof.
  intros Hr Hc. apply search_from_None. intros a b ->.
  destruct (rmatch r _ Some) as [res|] eqn:E; [|done].
  apply Hr in E. destruct Hc. apply elem_of_app. by right.
Qed.

(** [ANSWER_SPLIT] matches only behind a dot and before a number and a dot. *)
Lemma ANSWER_SPLIT_needs p s r :
  rmatch ANSWER_SPLIT (at_pos p s) Some = Some r →
  (∃ t, p = ch "." :: t) ∧ ch "." ∈ s ∧ ∃ x, x ∈ s ∧ isdigit x = true.
Proof.
  unfold ANSWER_SPLIT, at_pos. rewrite rmatch_Seq_cons, rmatch_Behind. cbn [pre].
  destruct p as [|c t]; [done|]. destruct (N.eqb (ch ".") c) eqn:Ec; [|done].
  apply lit_eq in Ec as ->. intros H. split; [by eexists|].
  rewrite rmatch_Seq_cons in H.
  apply rmatch_reaches in H as (st1 & H & Hs). cbn [suf] in Hs.
  rewrite rmatch_Seq_cons, rmatch_Ahead in H.
  destruct (rmatch (Seq _) st1 Some) as [st2|] eqn:E; [|done]. split.
  - apply (elem_of_upward _ _ _ Hs). revert E.
    apply (seq_skip (fun s => ch "." ∈ s)); [apply elem_of_upward|].
    intros st' r'. apply seq_needs_lit.
  - rewrite rmatch_Seq_cons in E. unfold Plus, digit in E.
    rewrite rmatch_Cat in E. destruct st1 as [p1 s1 c1]. rewrite rmatch_Cls in E.
    destruct s1 as [|x s1]; [done|]. destruct (isdigit x) eqn:Ex; [|done].
    exists x. split; [|done]. apply (elem_of_upward _ _ _ Hs). by left.
Qed.

(** [ANSWER_TASK] on a part that begins with a number and a dot. *)
Lemma ANSWER_TASK_some (n text : str) :
  digits n → text ≠ [] → forallb notnl text = true →
  ∃ m, re_match ANSWER_TASK (n ++ ch "." :: text) = Some m ∧
       group_str 1 m = n ∧ group_str 2 m = text.
Proof.
  intros Hn Hne Hnl. unfold re_match, at_pos, ANSWER_TASK.
  rewrite grp_digits_lit by done.
  destruct (digits_takewhile n (ch "." :: text) Hn) as [-> ->];
    [by apply stops_lit|].
  destruct (digits_head _ Hn) as (d & n' & -> & _).
  rewrite N.eqb_refl, grp_rest by done. eexists. split; [done|].
  unfold group_str, group. cbn [caps].
  by rewrite lookup_insert_eq, lookup_insert_ne, lookup_insert_eq.
Qed.

Lemma ANSWER_TASK_inv (part : str) m :
  re_match ANSWER_TASK part = Some m → digits (group_str 1 m).
Proof.
  unfold re_match, at_pos, ANSWER_TASK. rewrite grp_digits_lit by done.
  destruct (takewhile isdigit part) as [|d n] eqn:E; [done|].
  destruct (dropwhile isdigit part) as [|x t]; [done|].
  destruct (N.eqb (ch ".") x); [|done].
  intros H%grp2_rest_caps. cbn [caps] in H. rewrite lookup_insert_eq in H.
  rewrite (group_str_lookup _ _ _ H), <- E.
  apply digits_of_takewhile. by rewrite E.
Qed.

Lemma ANSWER_TASK_none (part : str) :
  stops isdigit part → re_match ANSWER_TASK part = None.
Proof.
  intros H. unfold re_match, at_pos, ANSWER_TASK. rewrite grp_digits_lit by done.
  destruct part as [|x t]; [done|]. simpl in *. by rewrite H.
Qed.

Lemma elem_of_dropwhile p (c : N) (s : str) : c ∈ dropwhile p s → c ∈ s.
Proof.
  induction s as [|x t IH]; [done|]. simpl. destruct (p x); [|done].
  intros H. right. auto.
Qed.

Lemma elem_of_strip (c : N) (s : str) : c ∈ strip s → c ∈ s.
Proof.
  unfold strip, rstrip, lstrip.
  intros H%list_elem_of_In%in_rev%list_elem_of_In%elem_of_dropwhile.
  apply list_elem_of_In, in_rev, list_elem_of_In in H.
  by apply elem_of_dropwhile in H.
Qed.

Lemma strip_strip (s : str) : strip (strip s) = strip s.
Proof.
  unfold strip at 1. rewrite lstrip_id by apply strip_head.
  apply rstrip_id, strip_last.
Qed.

(** ** The keys of the answer mapping *)

Lemma add_variants_keys (Q : str → Prop) (task_num : str)
    (variants : list mstate) (answers : gmap str str) :
  (∀ v, Q (dotted task_num v)) →
  (∀ k, is_Some (answers !! k) → Q k) →
  ∀ k, is_Some (add_variants task_num variants answers !! k) → Q k.
Proof.
  intros Hq. unfold add_variants. revert answers.
  induction variants as [|m ms IH]; intros answers H; [done|]. simpl.
  apply IH. intros k. rewrite lookup_insert. case_decide; [by subst|apply H].
Qed.

Lemma answers_of_part_keys (Q : str → Prop) (patterns : list regex)
    (task_num text : str) (answers : gmap str str) :
  Q task_num → (∀ v, Q (dotted task_num v)) →
  (∀ k, is_Some (answers !! k) → Q k) →
  ∀ k, is_Some (answers_of_part patterns task_num text answers !! k) → Q k.
Proof.
  intros Hn Hq H. induction patterns as [|pat pats IH]; cbn [answers_of_part].
  - destruct (_ && _); [|done]. intros k. rewrite lookup_insert.
    case_decide; [by subst|apply H].
  - destruct (re_finditer pat text) eqn:E; [done|].
    by apply add_variants_keys.
Qed.

Lemma digits_no_lit (a : ascii) (n : str) :
  isdigit (ch a) = false → digits n → ch a ∉ n.
Proof.
  intros Ha [_ Hn] H. rewrite forallb_forall in Hn.
  apply list_elem_of_In, Hn in H. congruence.
Qed.

Lemma re_split_None r s : search_from r [] [] s = None → re_split r s = [s].
Proof. intros H. unfold re_split. by rewrite re_scan_None. Qed.

Lemma re_sub_None r repl s : search_from r [] [] s = None → re_sub r repl s = s.
Proof. intros H. unfold re_sub. by rewrite re_scan_None. Qed.

Lemma re_finditer_None r s : search_from r [] [] s = None → re_finditer r s = [].
Proof. intros H. unfold re_finditer. by rewrite re_scan_None. Qed.

Lemma re_search_None r s : search_from r [] [] s = None → re_search r s = None.
Proof. intros H. unfold re_search. by rewrite H. Qed.

(** A part without a parenthesis has no variants: its answer goes to the
    task number. *)
Lemma answers_of_part_bare (task_num text : str) (answers : gmap str str) :
  text ≠ [] → ch ")" ∉ text →
  answers_of_part [NUMBERED_VARIANT; LETTER_VARIANT] task_num text answers =
  <[task_num := strip (re_sub FINAL_DOT [] text)]> answers.
Proof.
  intros Hne Hp. cbn [answers_of_part].
  rewrite (re_finditer_None NUMBERED_VARIANT)
    by (by apply (search_needs _ (ch ")")); [apply NUMBERED_VARIANT_needs|]).
  rewrite (re_finditer_None LETTER_VARIANT)
    by (by apply (search_needs _ (ch ")")); [apply LETTER_VARIANT_needs|]).
  rewrite (re_search_None VARIANT_MARK)
    by (by apply (search_needs _ (ch ")")); [apply VARIANT_MARK_needs|]).
  rewrite bool_decide_eq_true_2 by done.
  rewrite bool_decide_eq_false_2 by (by intros [? ?]). done.
Qed.

(** ** The patterns of the outline on lines of a known shape *)

Lemma tocsep_not_digit x : tocsep x = true → isdigit x = false.
Proof.
  unfold tocsep. rewrite !orb_true_iff.
  intros [[H|H]|H].
  - apply N.eqb_eq in H as <-. reflexivity.
  - by apply space_not_digit.
  - apply N.eqb_eq in H as <-. reflexivity.
Qed.

Lemma capture_all n pr s (w s' : str) c c' :
  capture n (MState pr s c) (MState (rev w ++ pr) s' c') =
  MState (rev w ++ pr) s' (<[n := w]> c').
Proof.
  unfold capture, consumed. simpl. f_equal. f_equal.
  rewrite length_app, Nat.add_sub.
  rewrite take_app_length' by done. apply rev_involutive.
Qed.

(** One segment [.d] of a section number. *)
Lemma segment_step pr (d tail : str) c (k : kont) r :
  digits d → stops isdigit tail →
  k (MState (rev d ++ ch "." :: pr) tail c) = Some r →
  rmatch (Seq [Lit "."; Plus true digit]) (MState pr (ch "." :: d ++ tail) c) k = Some r.
Proof.
  intros Hd Ht Hk. rewrite seq_Lit, N.eqb_refl, rmatch_Seq_cons. unfold digit.
  destruct Hd as [Hne Hd]. apply plus_max.
  - by rewrite takewhile_stop.
  - by rewrite munch_split.
Qed.

(** No segment where no dot and digit follow. *)
Lemma segment_fail pr (rest : str) c (k : kont) :
  (∀ t, rest = ch "." :: t → stops isdigit t) →
  rmatch (Seq [Lit "."; Plus true digit]) (MState pr rest c) k = None.
Proof.
  intros H. rewrite seq_Lit. destruct rest as [|x t]; [done|].
  destruct (N.eqb (ch ".") x) eqn:E; [|done]. apply lit_eq in E as ->.
  specialize (H t eq_refl). rewrite rmatch_Seq_cons. unfold Plus, digit.
  rewrite rmatch_Cat, rmatch_Cls. destruct t as [|y t]; [done|].
  simpl in H. by rewrite H.
Qed.

Lemma segments_stop (ds : list str) (rest : str) :
  stops isdigit rest → stops isdigit (segments ds ++ rest).
Proof. intros H. by destruct ds. Qed.

(** The repetition [(?:\.\d+)*] takes all the segments. *)
Lemma segments_max f pr (ds : list str) (rest : str) c (k : kont) r :
  Forall digits ds → stops isdigit rest →
  (∀ t, rest = ch "." :: t → stops isdigit t) →
  (length (segments ds ++ rest) ≤ f)%nat →
  k (MState (rev (segments ds) ++ pr) rest c) = Some r →
  star_loop (rmatch (Seq [Lit "."; Plus true digit])) true f
            (MState pr (segments ds ++ rest) c) k = Some r.
Proof.
  intros Hds Hr Hno. revert f pr.
  induction Hds as [|d ds Hd Hds IH]; intros f pr Hf Hk.
  - simpl in *. destruct f as [|f]; [done|]. rewrite star_loop_S. cbv zeta.
    by rewrite segment_fail.
  - unfold segments in *. cbn [map concat] in *. rewrite <- app_assoc in *.
    cbn [app] in *. destruct f as [|f]; [simpl in Hf; lia|].
    rewrite star_loop_S. cbv zeta.
    match goal with |- orelse ?m _ = _ =>
      assert (Hm : m = Some r); [|by rewrite Hm] end.
    apply segment_step; [done|by apply (segments_stop ds)|].
    cbn [suf]. rewrite bool_decide_eq_true_2
      by (cbn [length]; rewrite !length_app; lia).
    apply IH.
    + cbn [length] in Hf. rewrite !length_app in Hf. rewrite length_app. lia.
    + cbn [rev] in Hk. by rewrite rev_app_distr, <- !app_assoc in Hk.
Qed.

(** The same repetition with its group, as [TOC_LINE] has it. *)
Lemma segments_grp_max f pr (ds : list str) (rest : str) c (k : kont) :
  Forall digits ds → stops isdigit rest →
  (∀ t, rest = ch "." :: t → stops isdigit t) →
  (length (segments ds ++ rest) ≤ f)%nat →
  (∀ c', is_Some (k (MState (rev (segments ds) ++ pr) rest c'))) →
  is_Some (star_loop (rmatch (Grp 1 (Seq [Lit "."; Plus true digit]))) true f
                     (MState pr (segments ds ++ rest) c) k).
Proof.
  intros Hds Hr Hno. revert f pr c.
  induction Hds as [|d ds Hd Hds IH]; intros f pr c Hf Hk.
  - simpl in *. destruct f as [|f]; [exact (Hk c)|]. rewrite star_loop_S.
    cbv zeta. rewrite rmatch_Grp, segment_fail by done. exact (Hk c).
  - unfold segments in *. cbn [map concat] in *. rewrite <- app_assoc in *.
    cbn [app] in *. destruct f as [|f]; [simpl in Hf; lia|].
    rewrite star_loop_S. cbv zeta. rewrite rmatch_Grp.
    match goal with |- is_Some (orelse ?m _) =>
      assert (Hm : is_Some m); [|by destruct Hm as [? ->]] end.
    destruct (IH f (rev d ++ ch "." :: pr)
                (<[1%nat := ch "." :: d]> c)) as [r Hr'].
    + cbn [length] in Hf. rewrite !length_app in Hf. rewrite length_app. lia.
    + intros c'. specialize (Hk c'). cbn [rev] in Hk.
      by rewrite rev_app_distr, <- !app_assoc in Hk.
    + exists r. apply segment_step; [done|by apply (segments_stop ds)|].
      assert (E : rev d ++ ch "." :: pr = rev (ch "." :: d) ++ pr)
        by (cbn [rev]; by rewrite <- app_assoc).
      rewrite E, capture_all, <- E. cbn [suf].
      by rewrite bool_decide_eq_true_2
        by (cbn [length]; rewrite !length_app; lia).
Qed.

(** A lazy repetition of a class stops at the first place where the rest
    of the pattern matches. *)
Lemma star_lazy_first p f pr (a b : str) c (k : kont) r :
  forallb p a = true → (length (a ++ b) ≤ f)%nat →
  (∀ a1 a2, a = a1 ++ a2 → a2 ≠ [] → k (MState (rev a1 ++ pr) (a2 ++ b) c) = None) →
  k (MState (rev a ++ pr) b c) = Some r →
  star_loop (rmatch (Cls p)) false f (MState pr (a ++ b) c) k = Some r.
Proof.
  revert f pr. induction a as [|x a IH]; intros f pr Ha Hf Hno Hk.
  - simpl in *. destruct f as [|f]; [done|]. rewrite star_loop_S. cbv zeta.
    by rewrite Hk.
  - simpl in Ha. apply andb_prop in Ha as [Hx Ha].
    destruct f as [|f]; [simpl in Hf; lia|].
    cbn [app]. rewrite star_loop_cls_step by done. cbv zeta.
    pose proof (Hno [] (x :: a) eq_refl) as H0. cbn [rev app] in H0.
    rewrite H0 by done. cbn [orelse].
    apply IH; [done|simpl in Hf; lia| |].
    + intros a1 a2 -> Hne. specialize (Hno (x :: a1) a2 eq_refl Hne).
      simpl in Hno. by rewrite <- app_assoc in Hno.
    + simpl in Hk. by rewrite <- app_assoc in Hk.
Qed.

Lemma dropwhile_keeps p (w v : str) (x : N) :
  p x = false → ∃ w', dropwhile p (w ++ x :: v) = w' ++ x :: v.
Proof.
  intros Hx. induction w as [|y w IH]; simpl.
  - exists []. by rewrite Hx.
  - destruct (p y); [done|]. by exists (y :: w).
Qed.

Lemma seq_Eol_nil pr c :
  rmatch (Seq [Eol]) (MState pr [] c) Some = Some (MState pr [] c).
Proof. by rewrite rmatch_Seq_cons, rmatch_Eol. Qed.

Lemma seq_Eol_more pr (s : str) c :
  s ≠ [] → s ≠ [10%N] → rmatch (Seq [Eol]) (MState pr s c) Some = None.
Proof.
  intros H1 H2. rewrite rmatch_Seq_cons, rmatch_Eol. cbn [suf].
  destruct s as [|x [|y t]]; [done| |done].
  destruct (N.eqb_spec x 10) as [->|]; done.
Qed.

Lemma rejects_plus_cls p q l (k : kont) :
  (∀ x, p x = true → q x = false) →
  rejects p (fun st => rmatch (Seq (Plus true (Cls q) :: l)) st k).
Proof.
  intros H pr x t c Hx. rewrite rmatch_Seq_cons. unfold Plus.
  rewrite rmatch_Cat, rmatch_Cls. by rewrite (H x Hx).
Qed.

Lemma rejects_Eol :
  rejects isdigit (fun st => rmatch (Seq []) st
                     (fun st' => rmatch (Seq [Eol]) st' Some)).
Proof.
  intros pr x t c Hx. rewrite rmatch_Seq_nil, rmatch_Seq_cons, rmatch_Eol.
  cbn [suf]. destruct t; [|done].
  destruct (N.eqb_spec x 10) as [->|]; [by vm_compute in Hx|done].
Qed.

(** The end of [TOC_SECTION], the optional page number and the end of the
    line, on what is left of the line. *)
Lemma toc_tail pr (s : str) c :
  rmatch (Seq [Opt (Seq [Plus true space; Plus true digit]); Eol])
         (MState pr s c) Some =
  orelse
    match takewhile isspace s with
    | [] => None
    | _ :: _ =>
      match takewhile isdigit (dropwhile isspace s) with
      | [] => None
      | _ :: _ =>
        rmatch (Seq [Eol])
          (MState (rev (takewhile isdigit (dropwhile isspace s))
                   ++ rev (takewhile isspace s) ++ pr)
                  (dropwhile isdigit (dropwhile isspace s)) c) Some
      end
    end
    (rmatch (Seq [Eol]) (MState pr s c) Some).
Proof.
  rewrite rmatch_Seq_cons. unfold Opt. rewrite rmatch_Alt, rmatch_Eps.
  f_equal. rewrite rmatch_Seq_cons. unfold space, digit.
  rewrite plus_det by (apply rejects_plus_cls, space_not_digit).
  destruct (takewhile isspace s) eqn:E; [done|]. rewrite <- E.
  unfold munch. rewrite rmatch_Seq_cons, plus_det by apply rejects_Eol.
  destruct (takewhile isdigit _) eqn:E2; [done|]. rewrite <- E2.
  unfold munch. by rewrite rmatch_Seq_nil.
Qed.

(** After a title a blank and a page number end the line. *)
Lemma toc_tail_page pr (w page : str) c :
  w ≠ [] → forallb isspace w = true → digits page →
  ∃ pr', rmatch (Seq [Opt (Seq [Plus true space; Plus true digit]); Eol])
                (MState pr (w ++ page) c) Some = Some (MState pr' [] c).
Proof.
  intros Hw Hsp Hp. rewrite toc_tail.
  destruct (digits_head _ Hp) as (d & p' & Ep & Hd).
  assert (Hst : stops isspace page) by (rewrite Ep; by apply digit_stops_space).
  rewrite takewhile_stop, dropwhile_stop by done.
  destruct w as [|x w]; [done|].
  pose proof (digits_takewhile page [] Hp I) as [E1 E2].
  rewrite app_nil_r in E1, E2. rewrite E1, E2. subst page. cbv beta iota.
  rewrite seq_Eol_nil. by eexists.
Qed.

(** Inside a title, before a blank and a page number, the line does not
    end. *)
Lemma toc_tail_inside pr (a w page : str) (x : N) c :
  isspace x = false → w ≠ [] → forallb isspace w = true → page ≠ [] →
  rmatch (Seq [Opt (Seq [Plus true space; Plus true digit]); Eol])
         (MState pr ((a ++ [x]) ++ w ++ page) c) Some = None.
Proof.
  intros Hx Hw Hsp Hp. rewrite toc_tail.
  destruct w as [|y w]; [done|]. simpl in Hsp. apply andb_prop in Hsp as [Hy _].
  assert (E : (a ++ [x]) ++ (y :: w) ++ page = a ++ x :: y :: w ++ page)
    by (by rewrite <- app_assoc).
  rewrite E. clear E.
  destruct (dropwhile_keeps isspace a (y :: w ++ page) x Hx) as [a' ->].
  assert (E : a' ++ x :: y :: w ++ page = (a' ++ [x]) ++ y :: w ++ page)
    by (by rewrite <- app_assoc).
  rewrite E. clear E.
  destruct (dropwhile_keeps isdigit (a' ++ [x]) (w ++ page) y
              (space_not_digit _ Hy)) as [a'' ->].
  assert (Hlong : ∀ pr', rmatch (Seq [Eol])
            (MState pr' (a'' ++ y :: w ++ page) c) Some = None).
  { intros pr'. apply seq_Eol_more; [by destruct a''|].
    destruct a'' as [|? [|? ?]]; [|done..].
    destruct w; [by destruct page|done]. }
  assert (Hall : rmatch (Seq [Eol])
            (MState pr (a ++ x :: y :: w ++ page) c) Some = None).
  { apply seq_Eol_more; [by destruct a|by destruct a as [|? [|? ?]]]. }
  rewrite Hlong, Hall.
  by destruct (takewhile isspace _); [|destruct (takewhile isdigit _)].
Qed.

Lemma sep_head (sep rest : str) :
  sep ≠ [] → forallb tocsep sep = true →
  takewhile tocsep (sep ++ rest) ≠ [] ∧ stops isdigit (sep ++ rest).
Proof.
  intros Hne Hs. destruct sep as [|s0 sep]; [done|].
  simpl in Hs. apply andb_prop in Hs as [Hs0 _]. split.
  - simpl. by rewrite Hs0.
  - simpl. by apply tocsep_not_digit.
Qed.

(** After the separator no further segment of the number begins. *)
Lemma sep_no_segment (sep title tail : str) :
  sep ≠ [] → forallb tocsep sep = true → title ≠ [] →
  (sep = [ch "."] → stops isdigit title) →
  ∀ t, sep ++ title ++ tail = ch "." :: t → stops isdigit t.
Proof.
  intros Hsep Hs Hne Hdot t E. destruct sep as [|s0 [|s1 sep]]; [done| |].
  - simpl in E. injection E as -> <-. specialize (Hdot eq_refl).
    by destruct title.
  - simpl in E. injection E as -> <-. cbn [forallb] in Hs.
    rewrite !andb_true_iff in Hs. destruct Hs as (_ & Hs1 & _).
    simpl. by apply tocsep_not_digit.
Qed.

(** [TOC_LINE] accepts a section number followed by a separator. *)
Lemma TOC_LINE_some (d0 : str) (ds : list str) (sep rest : str) :
  digits d0 → Forall digits ds → sep ≠ [] → forallb tocsep sep = true →
  (∀ t, sep ++ rest = ch "." :: t → stops isdigit t) →
  is_Some (re_match TOC_LINE ((d0 ++ segments ds) ++ sep ++ rest)).
Proof.
  intros Hd0 Hds Hne Hs Hno. unfold re_match, at_pos, TOC_LINE.
  change (fun c => N.eqb (ch ".") c || isspace c || N.eqb 9 c) with tocsep.
  destruct (sep_head sep rest Hne Hs) as [Htw Hst].
  rewrite rmatch_Seq_cons, rmatch_Bol, rmatch_Seq_cons, <- app_assoc.
  destruct (segments_grp_max (length (segments ds ++ sep ++ rest))
              (rev d0 ++ []) ds (sep ++ rest) ∅
              (fun st => rmatch (Seq [Plus true (Cls tocsep)]) st Some)
              Hds Hst Hno (le_n _)) as [r Hr].
  { intros c'. eexists. rewrite rmatch_Seq_cons. apply plus_max; [done|].
    by rewrite rmatch_Seq_nil. }
  exists r. unfold digit. destruct Hd0 as [Hd0 Hd0'].
  apply plus_max.
  - by rewrite takewhile_stop by (done || by apply segments_stop).
  - rewrite munch_split by (done || by apply segments_stop).
    by rewrite rmatch_Seq_cons, rmatch_Star.
Qed.

(** [TOC_SECTION] on a line "number separator title tail": the lazy title
    ends at the first place where the rest of the pattern accepts the
    tail. *)
Lemma TOC_SECTION_some (d0 : str) (ds : list str) (sep : str) (x : N)
    (t tail : str) :
  digits d0 → Forall digits ds → sep ≠ [] → forallb tocsep sep = true →
  (sep = [ch "."] → isdigit x = false) →
  tocsep x = false → forallb notnl (x :: t) = true →
  (∀ a1 a2 pr c, t = a1 ++ a2 → a2 ≠ [] →
     rmatch (Seq [Opt (Seq [Plus true space; Plus true digit]); Eol])
            (MState pr (a2 ++ tail) c) Some = None) →
  (∀ pr c, ∃ pr',
     rmatch (Seq [Opt (Seq [Plus true space; Plus true digit]); Eol])
            (MState pr tail c) Some = Some (MState pr' [] c)) →
  ∃ m, re_match TOC_SECTION ((d0 ++ segments ds) ++ sep ++ (x :: t) ++ tail)
       = Some m ∧
       group_str 1 m = d0 ++ segments ds ∧ group_str 2 m = x :: t.
Proof.
  intros Hd0 Hds Hne Hs Hdot Hx Hnl Hfail Hok.
  simpl in Hnl. apply andb_prop in Hnl as [Hnx Hnt].
  set (num := d0 ++ segments ds).
  set (c1 := <[1%nat := num]> (∅ : gmap nat str)).
  set (pr1 := rev sep ++ rev num ++ []).
  destruct (Hok (rev (x :: t) ++ pr1) (<[2%nat := x :: t]> c1)) as [pr' Hpr'].
  exists (MState pr' [] (<[2%nat := x :: t]> c1)). split.
  2: { unfold group_str, group, c1. cbn [caps].
       by rewrite lookup_insert_eq, lookup_insert_ne, lookup_insert_eq. }
  set (rest := sep ++ (x :: t) ++ tail).
  destruct (sep_head sep ((x :: t) ++ tail) Hne Hs) as [Htw Hst].
  assert (Hno : ∀ t', rest = ch "." :: t' → stops isdigit t').
  { apply sep_no_segment; [done|done|done|]. intros E. simpl. by apply Hdot. }
  unfold re_match, at_pos, TOC_SECTION.
  change (fun c => N.eqb (ch ".") c || isspace c || N.eqb 9 c) with tocsep.
  rewrite rmatch_Seq_cons, rmatch_Bol, rmatch_Seq_cons, rmatch_Grp,
    rmatch_Seq_cons.
  unfold num at 1 2. rewrite <- app_assoc. fold rest.
  destruct Hd0 as [Hd0 Hd0']. unfold digit at 1.
  apply plus_max.
  { by rewrite takewhile_stop by (done || by apply segments_stop). }
  rewrite munch_split by (done || by apply segments_stop).
  rewrite rmatch_Seq_cons, rmatch_Star. cbn [suf].
  apply segments_max; [done|done|done|done|].
  rewrite rmatch_Seq_nil.
  assert (E : rev (segments ds) ++ rev d0 ++ [] = rev num ++ [])
    by (unfold num; by rewrite rev_app_distr, <- app_assoc).
  rewrite E, capture_all. fold c1.
  rewrite rmatch_Seq_cons. apply plus_max; [done|].
  unfold rest. rewrite munch_split by (done || (simpl; done)). fold pr1.
  rewrite rmatch_Seq_cons, rmatch_Grp. unfold Plus at 1, Any. fold notnl.
  cbn [app]. rewrite rmatch_Cat, rmatch_Cls, Hnx, rmatch_Star. cbn [suf].
  apply star_lazy_first; [done|done| |].
  - intros a1 a2 -> Ha2.
    assert (E' : rev a1 ++ x :: pr1 = rev (x :: a1) ++ pr1)
      by (cbn [rev]; by rewrite <- app_assoc).
    rewrite E', capture_all. by apply (Hfail a1 a2).
  - assert (E' : rev t ++ x :: pr1 = rev (x :: t) ++ pr1)
      by (cbn [rev]; by rewrite <- app_assoc).
    rewrite E'. rewrite capture_all. exact Hpr'.
Qed.

(** Without a page number the line ends where the title ends. *)
Lemma toc_tail_end pr c :
  rmatch (Seq [Opt (Seq [Plus true space; Plus true digit]); Eol])
         (MState pr [] c) Some = Some (MState pr [] c).
Proof. rewrite toc_tail. cbn [takewhile]. by rewrite seq_Eol_nil. Qed.

(** Inside a title that no blank and number end, the line does not end. *)
Lemma toc_tail_plain pr (s : str) c :
  s ≠ [] → forallb notnl s = true →
  (∀ w ds, w ≠ [] → forallb isspace w = true → digits ds → s ≠ w ++ ds) →
  rmatch (Seq [Opt (Seq [Plus true space; Plus true digit]); Eol])
         (MState pr s c) Some = None.
Proof.
  intros Hne Hnl Hno. rewrite toc_tail.
  assert (Hten : ∀ l : str, (∀ y, y ∈ l → notnl y = true) → l ≠ [10%N]).
  { intros l Hl ->. by specialize (Hl 10%N (list_elem_of_here _ _)). }
  assert (Hs : ∀ y, y ∈ s → notnl y = true).
  { intros y Hy. rewrite forallb_forall in Hnl. apply Hnl.
    by apply list_elem_of_In. }
  rewrite (seq_Eol_more pr s) by (done || by apply Hten).
  pose proof (takewhile_dropwhile isspace s) as E1.
  pose proof (takewhile_dropwhile isdigit (dropwhile isspace s)) as E2.
  destruct (takewhile isspace s) as [|w0 w] eqn:Ew; [done|].
  destruct (takewhile isdigit (dropwhile isspace s)) as [|g0 g] eqn:Eg; [done|].
  rewrite seq_Eol_more; [done| |].
  - intros E3. rewrite E3, app_nil_r in E2. rewrite <- E2 in E1.
    apply (Hno (w0 :: w) (g0 :: g)); [done| | |done].
    + rewrite <- Ew. apply takewhile_all.
    + rewrite <- Eg. apply digits_of_takewhile. by rewrite Eg.
  - apply Hten. intros y Hy. apply Hs. rewrite <- E1, <- E2.
    rewrite !elem_of_app. auto.
Qed.

Lemma tocsep_space x : tocsep x = false → isspace x = false.
Proof. unfold tocsep. rewrite !orb_false_iff. tauto. Qed.

(** ** Splitting and scanning at known places *)

(** What a repetition of a class took is a run of the class. *)
Lemma star_cls_inv p g f pr (s : str) c (k : kont) r :
  star_loop (rmatch (Cls p)) g f (MState pr s c) k = Some r →
  ∃ a b, s = a ++ b ∧ forallb p a = true ∧
         k (MState (rev a ++ pr) b c) = Some r.
Proof.
  revert pr s. induction f as [|f IH]; intros pr s H.
  - by exists [], s.
  - destruct s as [|x t].
    { rewrite star_loop_cls_stop in H by done. by exists [], []. }
    destruct (p x) eqn:Ex.
    2: { rewrite star_loop_cls_stop in H by done. by exists [], (x :: t). }
    rewrite star_loop_cls_step in H by done. cbv zeta in H.
    assert (Hc : star_loop (rmatch (Cls p)) g f (MState (x :: pr) t c) k = Some r
                 ∨ k (MState pr (x :: t) c) = Some r).
    { destruct g.
      - destruct (star_loop _ _ _ _ _); [by left|by right].
      - destruct (k (MState pr (x :: t) c)); [by right|by left]. }
    destruct Hc as [Hc|Hc]; [|by exists [], (x :: t)].
    apply IH in Hc as (a & b & -> & Ha & Hk).
    exists (x :: a), b. split; [done|]. split; [simpl; by rewrite Ex|].
    simpl. by rewrite <- app_assoc.
Qed.

Lemma plus_cls_inv p g pr (s : str) c (k : kont) r :
  rmatch (Plus g (Cls p)) (MState pr s c) k = Some r →
  ∃ a b, s = a ++ b ∧ a ≠ [] ∧ forallb p a = true ∧
         k (MState (rev a ++ pr) b c) = Some r.
Proof.
  unfold Plus. rewrite rmatch_Cat, rmatch_Cls.
  destruct s as [|x t]; [done|]. destruct (p x) eqn:Ex; [|done].
  rewrite rmatch_Star. intros (a & b & -> & Ha & Hk)%star_cls_inv.
  exists (x :: a), b. split; [done|]. split; [done|].
  split; [simpl; by rewrite Ex|]. simpl. by rewrite <- app_assoc.
Qed.

(** [ANSWER_SPLIT] matches exactly behind a dot, on blanks that a number
    and a dot follow. *)
Lemma ANSWER_SPLIT_inv p s r :
  rmatch ANSWER_SPLIT (at_pos p s) Some = Some r →
  (∃ t, p = ch "." :: t) ∧
  ∃ ws ds rest, ws ≠ [] ∧ forallb isspace ws = true ∧ digits ds ∧
                s = ws ++ ds ++ ch "." :: rest.
Proof.
  unfold ANSWER_SPLIT, at_pos. rewrite rmatch_Seq_cons, rmatch_Behind. cbn [pre].
  destruct p as [|c t]; [done|]. destruct (N.eqb (ch ".") c) eqn:Ec; [|done].
  apply lit_eq in Ec as ->. intros H. split; [by eexists|].
  rewrite rmatch_Seq_cons in H. unfold space in H.
  apply plus_cls_inv in H as (ws & b & -> & Hne & Hws & H).
  exists ws. rewrite rmatch_Seq_cons, rmatch_Ahead in H. cbn [suf] in H.
  destruct (rmatch (Seq _) _ Some) as [st2|] eqn:E; [|done].
  rewrite digits_lit in E by done.
  pose proof (takewhile_dropwhile isdigit b) as Hb.
  destruct (takewhile isdigit b) as [|d ds] eqn:Ed; [done|].
  destruct (dropwhile isdigit b) as [|x rest]; [done|].
  destruct (N.eqb (ch ".") x) eqn:Ex; [|done]. apply lit_eq in Ex as ->.
  exists (d :: ds), rest. split; [done|]. split; [done|]. split.
  - rewrite <- Ed. apply digits_of_takewhile. by rewrite Ed.
  - by rewrite <- Hb.
Qed.

Lemma ANSWER_SPLIT_at (p ws d rest : str) :
  ws ≠ [] → forallb isspace ws = true → digits d →
  rmatch ANSWER_SPLIT (at_pos (ch "." :: p) (ws ++ d ++ ch "." :: rest)) Some
  = Some (MState (rev ws ++ ch "." :: p) (d ++ ch "." :: rest) ∅).
Proof.
  intros Hne Hws Hd. unfold ANSWER_SPLIT, at_pos.
  rewrite rmatch_Seq_cons, rmatch_Behind. cbn [pre]. rewrite N.eqb_refl.
  rewrite rmatch_Seq_cons. unfold space.
  destruct (digits_head _ Hd) as (d0 & d' & Ed & Hd0).
  assert (Hst : stops isspace (d ++ ch "." :: rest)).
  { rewrite Ed. simpl. by apply digit_not_space. }
  apply plus_max.
  - rewrite takewhile_stop by done. done.
  - rewrite munch_split by done.
    rewrite rmatch_Seq_cons, rmatch_Ahead, digits_lit by done. cbn [suf pre].
    destruct (digits_takewhile d (ch "." :: rest) Hd) as [-> ->];
      [by apply stops_lit|].
    rewrite Ed at 1. by rewrite N.eqb_refl.
Qed.

(** The search moves over the places where the pattern does not match. *)
Lemma search_from_skip r sk p (a b : str) :
  (∀ a1 a2, a = a1 ++ a2 → a2 ≠ [] →
     rmatch r (at_pos (rev a1 ++ p) (a2 ++ b)) Some = None) →
  search_from r sk p (a ++ b) = search_from r (rev a ++ sk) (rev a ++ p) b.
Proof.
  revert sk p. induction a as [|x a IH]; intros sk p H; [done|].
  cbn [app]. rewrite search_from_eq.
  pose proof (H [] (x :: a) eq_refl) as E. cbn [rev app] in E.
  rewrite E by done. rewrite IH.
  - cbn [rev]. by rewrite <- !app_assoc.
  - intros a1 a2 -> Ha2. specialize (H (x :: a1) a2 eq_refl Ha2).
    cbn [rev] in H. by rewrite <- app_assoc in H.
Qed.

Lemma scan_nil f r p :
  rmatch r (at_pos p []) Some = None → scan f r p [] = ([], []).
Proof.
  intros H. destruct f as [|f]; [done|].
  by rewrite scan_eq, search_from_eq, H.
Qed.

(** Where [a] stands before the first occurrence of [x] on one side, the
    other side splits at the same place or later. *)
Lemma pivot_cases (x : N) (n u b v : str) :
  x ∉ n → u ++ x :: b = n ++ x :: v →
  (u = n ∧ b = v) ∨ (∃ w, u = n ++ x :: w ∧ v = w ++ x :: b).
Proof.
  revert u. induction n as [|z n IH]; intros u Hx E.
  - destruct u as [|y u]; simpl in E.
    + left. by injection E.
    + right. injection E as -> E. by exists u.
  - apply not_elem_of_cons in Hx as [Hz Hx].
    destruct u as [|y u]; simpl in E.
    + injection E as -> _. done.
    + injection E as -> E. destruct (IH u Hx E) as [[-> ->]|(w & -> & ->)].
      * by left.
      * right. by exists w.
Qed.

(** [re.sub(r"\.$", '', s)] removes the dot that ends [s]. *)
Lemma re_sub_FINAL_DOT (t : str) : re_sub FINAL_DOT [] (t ++ [ch "."]) = t.
Proof.
  assert (Hs : search_from FINAL_DOT [] [] (t ++ [ch "."]) =
               Some (t, MState (ch "." :: rev t) [] ∅)).
  { rewrite search_from_skip.
    - rewrite search_from_eq. unfold FINAL_DOT, at_pos.
      rewrite seq_Lit, N.eqb_refl, seq_Eol_nil.
      by rewrite !app_nil_r, rev_involutive.
    - intros a1 a2 -> Ha2. unfold FINAL_DOT, at_pos.
      destruct a2 as [|y a2]; [done|]. cbn [app]. rewrite seq_Lit.
      destruct (N.eqb (ch ".") y); [|done].
      apply seq_Eol_more; [by destruct a2|by destruct a2 as [|? [|? ?]]]. }
  unfold re_sub, re_scan. rewrite scan_eq, Hs. cbn [suf pre].
  rewrite bool_decide_eq_true_2 by (rewrite length_app; simpl; lia).
  rewrite scan_nil by (by unfold FINAL_DOT, at_pos; rewrite seq_Lit).
  simpl. by rewrite !app_nil_r.
Qed.

(** A part that is a number and a dot has no answer text. *)
Lemma ANSWER_TASK_no_text (n : str) :
  digits n → re_match ANSWER_TASK (n ++ [ch "."]) = None.
Proof.
  intros Hn. unfold re_match, at_pos, ANSWER_TASK.
  rewrite grp_digits_lit by done.
  destruct (digits_takewhile n [ch "."] Hn) as [-> ->]; [by apply stops_lit|].
  destruct (digits_head _ Hn) as (d & n' & -> & _).
  rewrite N.eqb_refl. rewrite rmatch_Seq_cons, rmatch_Grp. unfold Plus.
  by rewrite rmatch_Cat.
Qed.

Lemma dropwhile_app_stop p (a b : str) :
  b ≠ [] → stops p b → dropwhile p (a ++ b) = dropwhile p a ++ b.
Proof.
  intros Hne Hb. induction a as [|x a IH]; simpl.
  - destruct b as [|y b]; [done|]. simpl in *. by rewrite Hb.
  - by destruct (p x).
Qed.

Lemma strip_before_dot (text : str) :
  strip (text ++ [ch "."]) = lstrip text ++ [ch "."].
Proof.
  unfold strip, lstrip. rewrite dropwhile_app_stop by done.
  apply rstrip_id. intros c. rewrite last_snoc. by intros [= <-].
Qed.

Lemma strip_lstrip (text : str) : strip (lstrip text) = strip text.
Proof.
  unfold strip. f_equal. apply lstrip_id. apply stops_dropwhile.
Qed.

(** An answers line "N.text." whose text has no dot is split only where
    the text is blanks and a number. *)
Lemma dotted_line_split (n text a b : str) r :
  digits n → ch "." ∉ text →
  n ++ ch "." :: text ++ [ch "."] = a ++ b →
  rmatch ANSWER_SPLIT (at_pos (rev a ++ []) b) Some = Some r →
  ∃ ws ds, ws ≠ [] ∧ forallb isspace ws = true ∧ digits ds ∧ text = ws ++ ds.
Proof.
  intros Hn Hd E Hm.
  apply ANSWER_SPLIT_inv in Hm
    as ([t Ea] & ws & ds & rest & Hne & Hws & Hds & ->).
  rewrite app_nil_r in Ea.
  assert (Ea' : a = rev t ++ [ch "."])
    by (by rewrite <- (rev_involutive a), Ea).
  subst a. rewrite <- app_assoc in E. cbn [app] in E. symmetry in E.
  pose proof (digits_no_lit "." n eq_refl Hn) as Hn'.
  apply pivot_cases in E as [[_ E]|(w & _ & E)]; [| |done].
  - exists ws, ds. split; [done|]. split; [done|]. split; [done|].
    rewrite app_assoc in E.
    apply pivot_cases in E as [[E _]|(w & _ & E)]; [done| |done].
    by destruct w.
  - symmetry in E. apply pivot_cases in E as [[_ E]|(w' & _ & E)]; [| |done].
    + by destruct ws.
    + by destruct w'.
Qed.

Lemma scan_None f r p s :
  search_from r [] p s = None → scan f r p s = ([], s).
Proof. intros H. destruct f as [|f]; [done|]. by rewrite scan_eq, H. Qed.

(** Text that does not end in a digit does not end in a number. *)
Lemma ends_without_digit (text : str) (y : N) :
  last text = Some y → isdigit y = false →
  ∀ a ds, digits ds → text ≠ a ++ ds.
Proof.
  intros Hl Hy a ds [Hne Hds] ->.
  destruct (exists_last Hne) as (ds' & z & ->).
  rewrite app_assoc, last_snoc in Hl. injection Hl as ->.
  rewrite forallb_app in Hds. apply andb_prop in Hds as [_ Hz].
  simpl in Hz. by rewrite Hy in Hz.
Qed.

(** An answers line "N. M." is split between its two numbers. *)
Lemma numeric_line_split (n ws d : str) :
  digits n → ws ≠ [] → forallb isspace ws = true → digits d →
  re_split ANSWER_SPLIT (n ++ ch "." :: ws ++ d ++ [ch "."]) =
  [n ++ [ch "."]; d ++ [ch "."]].
Proof.
  intros Hn Hne Hws Hd.
  pose proof (digits_no_lit "." n eq_refl Hn) as Hn'.
  assert (Hs : search_from ANSWER_SPLIT [] []
                 ((n ++ [ch "."]) ++ ws ++ d ++ [ch "."]) =
               Some (n ++ [ch "."],
                     MState (rev ws ++ ch "." :: rev n) (d ++ [ch "."]) ∅)).
  { rewrite search_from_skip.
    - rewrite search_from_eq, !app_nil_r, rev_app_distr. cbn [rev app].
      rewrite ANSWER_SPLIT_at by done. by rewrite rev_involutive.
    - intros a1 a2 E Ha2.
      destruct (rmatch ANSWER_SPLIT _ Some) as [r|] eqn:Em; [|done].
      apply ANSWER_SPLIT_inv in Em as ([t Ea] & _). exfalso.
      rewrite app_nil_r in Ea.
      assert (Ea' : a1 = rev t ++ [ch "."])
        by (by rewrite <- (rev_involutive a1), Ea).
      destruct (exists_last Ha2) as (a2' & y & ->).
      rewrite app_assoc in E. apply app_inj_tail in E as [E _].
      apply Hn'. rewrite E, Ea', !elem_of_app, list_elem_of_singleton. tauto. }
  rewrite <- app_assoc in Hs. cbn [app] in Hs.
  unfold re_split, re_scan. rewrite scan_eq, Hs. cbn [suf pre].
  rewrite bool_decide_eq_true_2.
  2: { destruct ws; [done|]. rewrite !length_app. cbn [length].
       rewrite !length_app. cbn [length]. lia. }
  rewrite scan_None; [done|].
  apply search_from_None. intros a b E.
  destruct (rmatch ANSWER_SPLIT _ Some) as [r|] eqn:Em; [|done].
  apply ANSWER_SPLIT_inv in Em as (_ & ws' & ds' & rest & Hne' & Hws' & _ & ->).
  exfalso. destruct ws' as [|w0 ws']; [done|].
  cbn [forallb] in Hws'. apply andb_prop in Hws' as [Hw0 _].
  assert (Hin : w0 ∈ d ++ [ch "."]).
  { rewrite E, elem_of_app. right. by left. }
  apply elem_of_app in Hin as [Hin|Hin%list_elem_of_singleton].
  - destruct Hd as [_ Hd]. rewrite forallb_forall in Hd.
    apply list_elem_of_In, Hd, digit_not_space in Hin. congruence.
  - by subst w0.
Qed.

(** ** The records do not depend on what follows the sentinel *)

Lemma header_shape_digit (n s : str) :
  digits n → stops isdigit s → ¬ header_shape n s.
Proof.
  intros (d & n' & -> & Hd)%digits_head Hs (m & rest & _ & ->).
  simpl in Hs. congruence.
Qed.

Lemma sentinel_line_head (l : str) :
  normalize l = sentinel → strip l ≠ [] ∧ stops isdigit (strip l).
Proof.
  rewrite normalize_squeeze. pose proof (strip_head l) as Hh.
  destruct sentinel_chars as [s ->].
  destruct (strip l) as [|x t]; [done|]. simpl in Hh.
  rewrite squeeze_cons, Hh. intros [= -> _]. done.
Qed.

(** A line is read with one look at the line after it, and only to ask
    whether that line is "N.M." for the number N of the line. *)
Lemma scan_task_line_local lines lines' i line reg :
  (∀ n, digits n → is_header lines i n = is_header lines' i n) →
  scan_task_line lines i line reg = scan_task_line lines' i line reg.
Proof.
  intros H. unfold scan_task_line.
  destruct (bool_decide _); [done|].
  destruct (re_match MAIN line) as [m|] eqn:E; [|done].
  apply MAIN_inv in E as (t & Hn & _). by rewrite (H _ Hn).
Qed.

Lemma process_line_local lines lines' i raw st :
  (∀ n, digits n → is_header lines i n = is_header lines' i n) →
  process_line lines i raw st = process_line lines' i raw st.
Proof.
  intros H. unfold process_line.
  by rewrite (scan_task_line_local lines lines' i _ _ H).
Qed.

Lemma is_header_app (lines more : list str) i n :
  digits n →
  (∀ next, head more = Some next → stops isdigit (strip next)) →
  (i < length lines)%nat →
  is_header (lines ++ more) i n = is_header lines i n.
Proof.
  intros Hn Hm Hi. unfold is_header.
  destruct (decide (i + 1 < length lines)%nat) as [Hlt|Hge].
  - by rewrite lookup_app_l.
  - rewrite (lookup_ge_None_2 lines) by lia.
    rewrite lookup_app_r by lia.
    replace (i + 1 - length lines)%nat with 0%nat by lia.
    destruct more as [|next more]; [done|]. simpl.
    apply bool_decide_eq_false_2. rewrite HEADER_iff.
    apply header_shape_digit; [done|]. by apply Hm.
Qed.

Lemma scan_lines_local (lines more : list str) i rest st :
  (∀ next, head more = Some next → stops isdigit (strip next)) →
  (i + length rest ≤ length lines)%nat →
  scan_lines (lines ++ more) i rest st = scan_lines lines i rest st.
Proof.
  intros Hm. revert i st.
  induction rest as [|x rest IH]; intros i st Hi; simpl in *; [done|].
  rewrite IH by lia. f_equal. apply process_line_local.
  intros n Hn. apply is_header_app; [done|done|lia].
Qed.

Lemma stripped_lines_cons (p : str) (ps : list str) :
  strip p ≠ [] → stripped_lines (p :: ps) = strip p :: stripped_lines ps.
Proof.
  intros H. unfold stripped_lines. simpl. by rewrite filter_cons_True.
Qed.

Lemma stripped_lines_app (a b : list str) :
  stripped_lines (a ++ b) = stripped_lines a ++ stripped_lines b.
Proof. unfold stripped_lines. by rewrite map_app, filter_app. Qed.

(** ** An answer with one numbered variant *)

(** A line with one dot, after its number, is not split. *)
Lemma single_dot_no_split (n rest : str) :
  digits n → ch "." ∉ rest →
  search_from ANSWER_SPLIT [] [] (n ++ ch "." :: rest) = None.
Proof.
  intros Hn Hd. apply search_from_None. intros a b E.
  destruct (rmatch ANSWER_SPLIT _ Some) as [r|] eqn:Em; [|done].
  apply ANSWER_SPLIT_needs in Em as ([t Ea] & Hb & _). exfalso.
  rewrite app_nil_r in Ea.
  assert (Ea' : a = rev t ++ [ch "."])
    by (by rewrite <- (rev_involutive a), Ea).
  subst a. rewrite <- app_assoc in E. cbn [app] in E. symmetry in E.
  apply pivot_cases in E as [[_ <-]|(w & _ & ->)];
    [done| |by apply (digits_no_lit "." n)].
  apply Hd, elem_of_app. right. by left.
Qed.

Lemma not_semicolon_dot_true (c : N) :
  c ≠ ch ";" → c ≠ ch "." → not_semicolon_dot c = true.
Proof.
  intros H1 H2. unfold not_semicolon_dot. cbn [existsb].
  destruct (N.eqb_spec (ch ";") c); [done|].
  destruct (N.eqb_spec (ch ".") c); done.
Qed.

Lemma next_numbered_needs st r :
  rmatch (Seq [Plus true space; Plus true digit; Lit ")"]) st Some = Some r →
  ch ")" ∈ suf st.
Proof.
  revert st r. do 2 (apply seq_skip; [apply elem_of_upward|]).
  intros st r. apply seq_needs_lit.
Qed.

(** The lookahead that ends the text of a numbered variant: inside a text
    without parenthesis, dot, semicolon and line break it fails, at the
    end of the subject it holds. *)
Lemma numbered_end_inside pr (a : str) c :
  a ≠ [] → ch ")" ∉ a → ch "." ∉ a → ch ";" ∉ a → 10%N ∉ a →
  rmatch (Seq [Ahead (Alt (Seq [Plus true space; Plus true digit; Lit ")"])
                     (Alt Eol (Alt (Lit ".") (Lit ";"))))])
         (MState pr a c) Some = None.
Proof.
  intros Hne Hp Hd Hs Hnl. rewrite rmatch_Seq_cons, rmatch_Ahead, !rmatch_Alt.
  destruct (rmatch (Seq _) _ Some) as [r|] eqn:E.
  { by apply next_numbered_needs in E. }
  rewrite rmatch_Eol, !rmatch_Lit. cbn [suf orelse].
  destruct a as [|y a]; [done|].
  apply not_elem_of_cons in Hd as [Hd _]. apply not_elem_of_cons in Hs as [Hs _].
  apply not_elem_of_cons in Hnl as [Hnl _].
  destruct (N.eqb_spec (ch ".") y); [done|].
  destruct (N.eqb_spec (ch ";") y); [done|].
  destruct a; [|done]. by destruct (N.eqb_spec y 10).
Qed.

Lemma numbered_end_at_end pr c :
  rmatch (Seq [Ahead (Alt (Seq [Plus true space; Plus true digit; Lit ")"])
                     (Alt Eol (Alt (Lit ".") (Lit ";"))))])
         (MState pr [] c) Some = Some (MState pr [] c).
Proof. reflexivity. Qed.

(** [NUMBERED_VARIANT] at the start of "M) text". *)
Lemma NUMBERED_VARIANT_some (m sp text : str) :
  digits m → forallb isspace sp = true → text ≠ [] → stops isspace text →
  ch ")" ∉ text → ch "." ∉ text → ch ";" ∉ text → 10%N ∉ text →
  ∃ r, rmatch NUMBERED_VARIANT (at_pos [] (m ++ ch ")" :: sp ++ text)) Some
       = Some r ∧
       suf r = [] ∧ group_str 1 r = m ∧ group_str 2 r = text.
Proof.
  intros Hm Hsp Hne Hst Hp Hd Hs Hnl.
  set (c1 := <[1%nat := m]> (∅ : gmap nat str)).
  set (pr1 := rev sp ++ ch ")" :: rev m ++ []).
  exists (MState (rev text ++ pr1) [] (<[2%nat := text]> c1)). split.
  2: { unfold group_str, group, c1. cbn [caps suf].
       by rewrite lookup_insert_eq, lookup_insert_ne, lookup_insert_eq. }
  unfold NUMBERED_VARIANT, at_pos.
  rewrite rmatch_Seq_cons, rmatch_Alt, rmatch_Bol.
  match goal with |- orelse ?x _ = _ =>
    assert (Hx : x = Some (MState (rev text ++ pr1) [] (<[2%nat := text]> c1)));
      [|by rewrite Hx] end.
  rewrite grp_digits_lit by done.
  destruct (digits_takewhile m (ch ")" :: sp ++ text) Hm) as [-> ->];
    [by apply stops_lit|].
  destruct (digits_head _ Hm) as (d & m' & Em & _). rewrite Em at 1.
  rewrite N.eqb_refl. fold c1. rewrite rmatch_Seq_cons. unfold space.
  apply star_max. rewrite munch_split by done. fold pr1.
  rewrite rmatch_Seq_cons, rmatch_Grp. unfold Plus, NotIn.
  fold not_semicolon_dot. destruct text as [|x t]; [done|].
  assert (Hx : not_semicolon_dot x = true).
  { apply not_semicolon_dot_true; intros ->; [apply Hs|apply Hd]; by left. }
  rewrite rmatch_Cat, rmatch_Cls, Hx, rmatch_Star. cbn [suf].
  rewrite <- (app_nil_r t) at 1 2.
  apply star_lazy_first.
  - apply forallb_forall. intros y Hy%list_elem_of_In.
    apply not_semicolon_dot_true; intros ->; [apply Hs|apply Hd]; by right.
  - done.
  - intros a1 a2 -> Ha2.
    assert (E' : rev a1 ++ x :: pr1 = rev (x :: a1) ++ pr1)
      by (cbn [rev]; by rewrite <- app_assoc).
    rewrite E', capture_all, app_nil_r.
    apply numbered_end_inside; [done|..]; intros H;
      [apply Hp|apply Hd|apply Hs|apply Hnl]; right;
      apply elem_of_app; by right.
  - assert (E' : rev t ++ x :: pr1 = rev (x :: t) ++ pr1)
      by (cbn [rev]; by rewrite <- app_assoc).
    rewrite E', capture_all. apply numbered_end_at_end.
Qed.

Lemma re_finditer_one r (s : str) m :
  s ≠ [] → rmatch r (at_pos [] s) Some = Some m → suf m = [] →
  rmatch r (at_pos (pre m) []) Some = None →
  re_finditer r s = [m].
Proof.
  intros Hne Hm Hsuf Hend. unfold re_finditer, re_scan.
  rewrite scan_eq, search_from_eq, Hm, Hsuf.
  rewrite bool_decide_eq_true_2 by (destruct s; [done|simpl; lia]).
  by rewrite scan_nil.
Qed.

(** ** The lines that add a record, and the register between them *)

(** An inline letter line adds one sub-variant. *)
Lemma process_inline_letter lines i raw st
    (n sp sp' text : str) (x : N) :
  answers_section st = false →
  normalize raw = n ++ ch "." :: sp ++ x :: ch ")" :: sp' ++ text →
  digits n → forallb isspace sp = true → cyr x = true →
  forallb isspace sp' = true → text ≠ [] → stops isspace text →
  (∀ next, lines !! (i + 1)%nat = Some next → ¬ header_shape n (strip next)) →
  tasks (process_line lines i raw st) =
  tasks st ++ [Task (n ++ [ch "."; x]) (9%N :: text) no_answer (u "5;6") 1 1].
Proof.
  intros Ha Hl Hn Hsp Hx Hsp' Hne Hst Hnext.
  pose proof (normalize_tidy raw) as Ht. rewrite Hl in Ht.
  assert (Ht' : tidy ((n ++ ch "." :: sp ++ x :: ch ")" :: sp') ++ text))
    by (repeat (rewrite <- app_assoc; cbn [app]); exact Ht).
  destruct (tidy_text _ _ Ht' Hne Hst) as [Hnl Hstrip].
  rewrite process_line_scan; [|done|rewrite Hl; by apply digit_line_not_sentinel].
  rewrite Hl, scan_task_line_main; [|done|].
  2:{ apply not_three_level; [done|]. apply space_stops_digit; [done|..].
      - by apply cyr_stops_space.
      - simpl. by apply letter_not_digit. }
  destruct (is_header lines i n) eqn:E.
  { apply is_header_iff in E as (next & E & Hh). by destruct (Hnext next). }
  cbn [inline_variant].
  destruct (INLINE_LETTER_some n sp sp' text x) as (m & -> & _ & -> & ->);
    [done..|].
  by rewrite Hstrip.
Qed.

(** An inline numbered line adds one sub-variant. *)
Lemma process_inline_numbered lines i raw st
    (n sp m sp' text : str) :
  answers_section st = false →
  normalize raw = n ++ ch "." :: sp ++ m ++ ch ")" :: sp' ++ text →
  digits n → forallb isspace sp = true → digits m →
  forallb isspace sp' = true → text ≠ [] → stops isspace text →
  (∀ next, lines !! (i + 1)%nat = Some next → ¬ header_shape n (strip next)) →
  tasks (process_line lines i raw st) =
  tasks st ++ [Task (n ++ ch "." :: m) (9%N :: text) no_answer (u "5;6") 1 1].
Proof.
  intros Ha Hl Hn Hsp Hm Hsp' Hne Hst Hnext.
  pose proof (normalize_tidy raw) as Ht. rewrite Hl in Ht.
  assert (Ht' : tidy ((n ++ ch "." :: sp ++ m ++ ch ")" :: sp') ++ text))
    by (repeat (rewrite <- app_assoc; cbn [app]); exact Ht).
  destruct (tidy_text _ _ Ht' Hne Hst) as [Hnl Hstrip].
  destruct (digits_head _ Hm) as (e & m' & Em & He).
  rewrite process_line_scan; [|done|rewrite Hl; by apply digit_line_not_sentinel].
  rewrite Hl, scan_task_line_main; [|done|].
  2:{ intros (d1 & d2 & rest & H1 & H2 & E).
      apply digits_split_unique in E as [_ E]; [|done|done|by apply stops_lit..].
      injection E as E. destruct (digits_head _ H2) as (d & ? & -> & Hd).
      destruct sp as [|y sp].
      - simpl in E. apply (digits_split_unique m (d :: x)) in E as [_ E];
          [done|done|done|by apply stops_lit..].
      - injection E as -> _. simpl in Hsp. apply andb_prop in Hsp as [Hy _].
        apply space_not_digit in Hy. congruence. }
  destruct (is_header lines i n) eqn:E.
  { apply is_header_iff in E as (next & E & Hh). by destruct (Hnext next). }
  cbn [inline_variant].
  rewrite (INLINE_LETTER_none n sp (m ++ ch ")" :: sp' ++ text)); try done.
  2:{ rewrite Em. by apply digit_stops_space. }
  2:{ intros x rest Hx _. rewrite Em. intros [= -> _].
      apply letter_not_digit in Hx. congruence. }
  destruct (INLINE_NUMBERED_some n sp m sp' text) as (r & -> & _ & -> & ->);
    [done..|].
  rewrite Hstrip, Em. done.
Qed.

(** A line "N. ..." that is not three-level sets the register to N. *)
Lemma register_set lines i raw st (n rest : str) :
  answers_section st = false →
  normalize raw = n ++ ch "." :: rest → digits n →
  ¬ three_level_shape (normalize raw) →
  current_main_id (process_line lines i raw st) = Some n.
Proof.
  intros Ha Hl Hn H3.
  rewrite process_line_scan; [|done|rewrite Hl; by apply digit_line_not_sentinel].
  cbn [current_main_id]. rewrite Hl in H3 |- *.
  rewrite scan_task_line_main by done.
  destruct (is_header lines i n); [done|].
  destruct (inline_variant _ _) as [[??]|]; [done|]. by destruct (strip _).
Qed.

(** Every other line leaves the register as it is. *)
Lemma register_kept lines i raw st :
  ¬ main_shape (normalize raw) ∨ three_level_shape (normalize raw) →
  current_main_id (process_line lines i raw st) = current_main_id st.
Proof.
  intros H. destruct (answers_section st) eqn:Ha.
  { by apply process_line_answers. }
  destruct (decide (normalize raw = sentinel)) as [Hs|Hs].
  { by rewrite process_line_sentinel. }
  rewrite process_line_scan by done. cbn [current_main_id].
  destruct H as [H|H].
  - rewrite scan_task_line_other by done.
    by destruct (new_line_variant _ _ _) as [[??]|].
  - by rewrite scan_task_line_three.
Qed.

(** In the task part the register holds the number of the last line that
    set it. *)
Lemma register_last lines i n :
  (∀ k, answers_section (state_at lines k) = false) →
  main_number_before lines i n →
  current_main_id (state_at lines i) = Some n.
Proof.
  intros Ha (j & rawj & rest & Hji & Hj & Hl & Hn & H3 & Hb).
  induction i as [|i IH]; [lia|].
  destruct (decide (i = j)) as [->|Hne].
  - rewrite (state_at_S _ _ _ Hj). by apply (register_set _ _ _ _ n rest).
  - destruct (lines !! i) as [rawk|] eqn:Ei.
    + rewrite (state_at_S _ _ _ Ei), register_kept.
      * apply IH; [lia|]. intros k rawk' Hk. apply Hb. lia.
      * apply (Hb i rawk); [lia|done].
    + rewrite (state_at_beyond _ _ Ei).
      apply IH; [lia|]. intros k rawk' Hk. apply Hb. lia.
Qed.

(** A record that a line adds is in the list at the end of the scan. *)
Lemma emitted_stays lines i raw t :
  lines !! i = Some raw →
  tasks (process_line lines i raw (state_at lines i)) =
  tasks (state_at lines i) ++ [t] →
  t ∈ tasks (scan_lines lines 0 lines initial).
Proof.
  intros Hi Ht. rewrite (scan_from_state_at lines (S i)).
  destruct (scan_lines_grows lines (S i `min` length lines) (drop (S i) lines)
              (state_at lines (S i))) as [new ->].
  rewrite (state_at_S _ _ _ Hi), Ht.
  apply elem_of_app. left. apply elem_of_app. right. by left.
Qed.

(** * Properties of the specification *)

(** C1, as the code has it. With the Cyrillic letters а and б for the
    sub-variants, the paragraphs of the scenario give the main task and
    the two sub-variants with their answers. *)
Theorem scenario_with_cyrillic_letters :
  extract_tasks_from_docx
    [u "1. Solve the equation"; u "а) x+1=0"; u "б) x-1=0";
     u "Ответы и советы"; u "1. а) -1 б) 1"] =
  [Task (u "1") (u "Solve the equation") (u "Отсутствует") (u "5;6") 1 1;
   Task (u "1.а") (9%N :: u "x+1=0") (u "-1") (u "5;6") 1 1;
   Task (u "1.б") (9%N :: u "x-1=0") (u "1") (u "5;6") 1 1].
Proof. vm_compute. reflexivity. Qed.

(** C1, as stated, fails: the letters a and b of the scenario are Latin,
    no pattern takes them for sub-variants, and the whole answer line
    becomes the answer of task 1. *)
Lemma scenario_with_latin_letters :
  extract_tasks_from_docx
    [u "1. Solve the equation"; u "a) x+1=0"; u "b) x-1=0";
     u "Ответы и советы"; u "1. a) -1 b) 1"] =
  [Task (u "1") (u "Solve the equation") (u "a) -1 b) 1") (u "5;6") 1 1].
Proof. vm_compute. reflexivity. Qed.

(** C2. A normalized line "N. prose", a number, a dot, optional blanks and
    a non-empty prose that is neither a letter variant nor a numbered
    variant with text after it, the line not being three-level, met
    before the answers section and not followed by a line "N.M.", adds
    exactly one record: a main task with id N and the prose as its text. *)
Theorem bare_main_line_emits_main_task lines i raw st (n sp prose : str) :
  answers_section st = false →
  normalize raw = n ++ ch "." :: sp ++ prose →
  digits n → forallb isspace sp = true →
  prose ≠ [] → stops isspace prose →
  (∀ x rest, cyr x = true → rest ≠ [] → prose ≠ x :: ch ")" :: rest) →
  (∀ m rest, digits m → rest ≠ [] → prose ≠ m ++ ch ")" :: rest) →
  ¬ three_level_shape (normalize raw) →
  (∀ next, lines !! (i + 1)%nat = Some next → ¬ header_shape n (strip next)) →
  tasks (process_line lines i raw st) =
  tasks st ++ [Task n prose no_answer (u "5;6") 1 1].
Proof. apply process_bare_main. Qed.

Lemma bare_main_line_emits_main_task_witness :
  tasks (process_line [u "1. Solve the equation"; u "2. Next"] 0
                      (u "1.   Solve the equation ") initial) =
  [Task (u "1") (u "Solve the equation") no_answer (u "5;6") 1 1].
Proof.
  apply (bare_main_line_emits_main_task
           [u "1. Solve the equation"; u "2. Next"] 0
           (u "1.   Solve the equation ") initial
           (u "1") (u " ") (u "Solve the equation")).
  - reflexivity.
  - vm_compute. reflexivity.
  - split; [discriminate|reflexivity].
  - reflexivity.
  - discriminate.
  - reflexivity.
  - intros x rest _ _ H. vm_compute in H. discriminate H.
  - intros m rest (d & m' & -> & Hd)%digits_head _ H.
    vm_compute in H. injection H as <- _. by vm_compute in Hd.
  - rewrite <- THREE_LEVEL_iff. vm_compute. by intros [? ?].
  - intros next [= <-]. rewrite <- HEADER_iff. vm_compute. by intros [? ?].
Defined.

(** C3, as the code has it. A normalized line "N.letter) text", the letter
    one of [а-яё] in either case, met before the answers section and not
    followed by a line "N.M.", adds exactly one record: a sub-variant with
    id "N.letter", the letter as written, and the text behind a tab. *)
Theorem inline_letter_line_emits_subtask lines i raw st
    (n sp sp' text : str) (x : N) :
  answers_section st = false →
  normalize raw = n ++ ch "." :: sp ++ x :: ch ")" :: sp' ++ text →
  digits n → forallb isspace sp = true → cyr x = true →
  forallb isspace sp' = true → text ≠ [] → stops isspace text →
  (∀ next, lines !! (i + 1)%nat = Some next → ¬ header_shape n (strip next)) →
  tasks (process_line lines i raw st) =
  tasks st ++ [Task (n ++ [ch "."; x]) (9%N :: text) no_answer (u "5;6") 1 1].
Proof.
  intros Ha Hl Hn Hsp Hx Hsp' Hne Hst Hnext.
  pose proof (normalize_tidy raw) as Ht. rewrite Hl in Ht.
  assert (Ht' : tidy ((n ++ ch "." :: sp ++ x :: ch ")" :: sp') ++ text))
    by (repeat (rewrite <- app_assoc; cbn [app]); exact Ht).
  destruct (tidy_text _ _ Ht' Hne Hst) as [Hnl Hstrip].
  rewrite process_line_scan; [|done|rewrite Hl; by apply digit_line_not_sentinel].
  rewrite Hl, scan_task_line_main; [|done|].
  2:{ apply not_three_level; [done|]. apply space_stops_digit; [done|..].
      - by apply cyr_stops_space.
      - simpl. by apply letter_not_digit. }
  destruct (is_header lines i n) eqn:E.
  { apply is_header_iff in E as (next & E & Hh). by destruct (Hnext next). }
  cbn [inline_variant].
  destruct (INLINE_LETTER_some n sp sp' text x) as (m & -> & _ & -> & ->);
    [done..|].
  by rewrite Hstrip.
Qed.

Lemma inline_letter_line_emits_subtask_witness :
  tasks (process_line [u "3.Б) найдите x"; u "4. Next"] 0
                      (u "3.Б) найдите x") initial) =
  [Task (u "3.Б") (9%N :: u "найдите x") no_answer (u "5;6") 1 1].
Proof.
  apply (inline_letter_line_emits_subtask
           [u "3.Б) найдите x"; u "4. Next"] 0 (u "3.Б) найдите x") initial
           (u "3") [] (u " ") (u "найдите x") 1041%N).
  - reflexivity.
  - vm_compute. reflexivity.
  - split; [discriminate|reflexivity].
  - reflexivity.
  - reflexivity.
  - reflexivity.
  - discriminate.
  - reflexivity.
  - intros next [= <-]. rewrite <- HEADER_iff. vm_compute. by intros [? ?].
Defined.

(** C3, as stated, fails: a line "N.letter) text" followed by a line
    "N.M." is taken for a section header and adds no record. *)
Lemma inline_letter_line_before_header_dropped :
  normalize (u "1.а) foo") = u "1" ++ ch "." :: 1072%N :: ch ")" :: u " " ++ u "foo" ∧
  tasks (process_line [u "1.а) foo"; u "1.2. bar"] 0 (u "1.а) foo") initial) = [] ∧
  extract_tasks_from_docx [u "1.а) foo"; u "1.2. bar"] = [].
Proof. vm_compute. done. Qed.

(** C4. Once a line that normalizes to the sentinel heading has been
    processed the scan is in answers mode and stays there, and no later
    line adds a task record: the records returned are, by id and by text,
    those collected up to the sentinel line. *)
Theorem no_task_after_sentinel paragraphs (pre post : list str) (s : str) :
  stripped_lines paragraphs = pre ++ s :: post →
  normalize s = sentinel →
  let lines := stripped_lines paragraphs in
  let seen := scan_lines lines 0 (pre ++ [s]) initial in
  answers_section seen = true ∧
  (∀ k, let st := scan_lines lines (S (length pre)) (take k post) seen in
        answers_section st = true ∧ tasks st = tasks seen) ∧
  tasks (scanned paragraphs) = tasks seen ∧
  map id_tasks_book (extract_tasks_from_docx paragraphs) = map id_tasks_book (tasks seen) ∧
  map task (extract_tasks_from_docx paragraphs) = map task (tasks seen).
Proof.
  intros Hl Hs lines seen.
  assert (Ha : answers_section seen = true).
  { unfold seen. rewrite scan_lines_app. simpl.
    by rewrite process_line_sentinel. }
  assert (Ht : tasks (scanned paragraphs) = tasks seen).
  { unfold scanned. fold lines. unfold seen.
    replace lines with ((pre ++ [s]) ++ post) at 2
      by (unfold lines; rewrite Hl, <- app_assoc; done).
    rewrite scan_lines_app. by apply scan_lines_answers. }
  split; [done|]. split; [|split; [done|]].
  - intros k. by apply scan_lines_answers.
  - unfold extract_tasks_from_docx.
    by rewrite merge_answers_ids, merge_answers_texts, Ht.
Qed.

Lemma no_task_after_sentinel_witness :
  map id_tasks_book
      (extract_tasks_from_docx [u "1. A"; u " Ответы  и советы "; u "2. B"; u "а) c"]) =
  map id_tasks_book
      (tasks (scan_lines [u "1. A"; u "Ответы  и советы"; u "2. B"; u "а) c"] 0
                         ([u "1. A"] ++ [u "Ответы  и советы"]) initial)).
Proof.
  refine (proj1 (proj2 (proj2 (proj2 (no_task_after_sentinel
    [u "1. A"; u " Ответы  и советы "; u "2. B"; u "а) c"]
    [u "1. A"] [u "2. B"; u "а) c"] (u "Ответы  и советы") _ _))))).
  - vm_compute. reflexivity.
  - vm_compute. reflexivity.
Defined.

(** C5. A line of the three-level dotted shape, digits, dot, digits, dot,
    met before the answers section, adds no task record whatever follows
    the second dot: the line leaves the state of the scan as it was. *)
Theorem three_level_line_is_skipped lines i raw st :
  answers_section st = false →
  three_level_shape (normalize raw) →
  tasks (process_line lines i raw st) = tasks st ∧
  process_line lines i raw st = st.
Proof.
  intros Ha H3.
  assert (Hs : normalize raw ≠ sentinel).
  { destruct H3 as (d1 & ? & ? & H1 & _ & ->). by apply digit_line_not_sentinel. }
  rewrite process_line_scan by done.
  rewrite scan_task_line_three by done. simpl. rewrite app_nil_r.
  split; [done|]. destruct st; simpl in *. by subst.
Qed.

Lemma three_level_line_is_skipped_witness :
  tasks (process_line [u "12.3. foo"; u "4) bar"] 0 (u "12.3. foo")
                      (ScanState [] (Some (u "7")) false ∅)) = [].
Proof.
  apply (three_level_line_is_skipped [u "12.3. foo"; u "4) bar"] 0 (u "12.3. foo")
           (ScanState [] (Some (u "7")) false ∅)).
  - reflexivity.
  - exists (u "12"), (u "3"), (u " foo").
    split; [split; [discriminate|reflexivity]|].
    split; [split; [discriminate|reflexivity]|].
    vm_compute. reflexivity.
Defined.

(** C6. For the lines of the example, inside the outline, the nodes are
    those of the specification; and for every input every node has the id
    of its place in the list, parent 0 when its section number has no dot
    or when no node found before it has the number with the last segment
    removed, and otherwise the id of the first such node. *)
Theorem outline_parent_resolution :
  extract_toc [u "Оглавление"; u "1. Intro"; u "1.1. Basics";
               u "1.2. Advanced"; u "2. Next"] =
  [Toc 1 (u "Intro") 0 None; Toc 2 (u "Basics") 1 None;
   Toc 3 (u "Advanced") 1 None; Toc 4 (u "Next") 0 None] ∧
  ∀ paragraphs k node,
    extract_toc paragraphs !! k = Some node →
    ∃ item num,
      toc_with_temp paragraphs !! k = Some item ∧ temp item = Some num ∧
      node = pop_temp item ∧ toc_id node = toc_id item ∧
      parent node = parent item ∧
      parent_rule (toc_with_temp paragraphs) k item num.
Proof.
  split; [vm_compute; reflexivity|].
  intros paragraphs k node Hk. unfold extract_toc in Hk.
  rewrite list_lookup_fmap in Hk.
  destruct (toc_with_temp paragraphs !! k) as [item|] eqn:E; [|done].
  injection Hk as <-.
  destruct (toc_loop_inv paragraphs false 1 []) as [cid [_ H]].
  { split; [done|]. intros ? ? ?. done. }
  destruct (H k item E) as (num & Ht & Hr). by exists item, num.
Qed.

Lemma outline_parent_resolution_witness :
  ∃ item num,
    toc_with_temp [u "Оглавление"; u "2. B"; u "2.1. C"] !! 1%nat = Some item ∧
    temp item = Some num ∧
    Toc 2 (u "C") 1 None = pop_temp item ∧ 2%Z = toc_id item ∧
    1%Z = parent item ∧
    parent_rule (toc_with_temp [u "Оглавление"; u "2. B"; u "2.1. C"]) 1 item num.
Proof.
  refine (proj2 outline_parent_resolution
            [u "Оглавление"; u "2. B"; u "2.1. C"] 1%nat (Toc 2 (u "C") 1 None) _).
  vm_compute. reflexivity.
Defined.

(** C7, as the code has it. When no line normalizes to the sentinel
    heading, the answer mapping stays empty, the records returned are the
    records of the scan with the default answer "Отсутствует" in every
    one, and the list is built as in the task part: it has the record of
    every bare main-task line and of every inline variant line that no
    line "N.M." follows, and the record of every new-line variant line
    that comes after a line with a main number. *)
Theorem no_sentinel_no_answers paragraphs :
  (∀ l, l ∈ stripped_lines paragraphs → normalize l ≠ sentinel) →
  all_answers (scanned paragraphs) = ∅ ∧
  extract_tasks_from_docx paragraphs = tasks (scanned paragraphs) ∧
  Forall (fun t => answer t = no_answer) (extract_tasks_from_docx paragraphs) ∧
  (∀ i raw (n sp prose : str),
     stripped_lines paragraphs !! i = Some raw →
     normalize raw = n ++ ch "." :: sp ++ prose →
     digits n → forallb isspace sp = true →
     prose ≠ [] → stops isspace prose →
     (∀ x rest, cyr x = true → rest ≠ [] → prose ≠ x :: ch ")" :: rest) →
     (∀ m rest, digits m → rest ≠ [] → prose ≠ m ++ ch ")" :: rest) →
     ¬ three_level_shape (normalize raw) →
     (∀ next, stripped_lines paragraphs !! (i + 1)%nat = Some next →
              ¬ header_shape n (strip next)) →
     Task n prose no_answer (u "5;6") 1 1 ∈ extract_tasks_from_docx paragraphs) ∧
  (∀ i raw (n sp sp' text : str) (x : N),
     stripped_lines paragraphs !! i = Some raw →
     normalize raw = n ++ ch "." :: sp ++ x :: ch ")" :: sp' ++ text →
     digits n → forallb isspace sp = true → cyr x = true →
     forallb isspace sp' = true → text ≠ [] → stops isspace text →
     (∀ next, stripped_lines paragraphs !! (i + 1)%nat = Some next →
              ¬ header_shape n (strip next)) →
     Task (n ++ [ch "."; x]) (9%N :: text) no_answer (u "5;6") 1 1
       ∈ extract_tasks_from_docx paragraphs) ∧
  (∀ i raw (n sp m sp' text : str),
     stripped_lines paragraphs !! i = Some raw →
     normalize raw = n ++ ch "." :: sp ++ m ++ ch ")" :: sp' ++ text →
     digits n → forallb isspace sp = true → digits m →
     forallb isspace sp' = true → text ≠ [] → stops isspace text →
     (∀ next, stripped_lines paragraphs !! (i + 1)%nat = Some next →
              ¬ header_shape n (strip next)) →
     Task (n ++ ch "." :: m) (9%N :: text) no_answer (u "5;6") 1 1
       ∈ extract_tasks_from_docx paragraphs) ∧
  (∀ i raw (n sp text : str) (x : N),
     stripped_lines paragraphs !! i = Some raw →
     main_number_before (stripped_lines paragraphs) i n →
     normalize raw = x :: ch ")" :: sp ++ text →
     cyr x = true → forallb isspace sp = true →
     text ≠ [] → stops isspace text →
     Task (n ++ [ch "."; x]) (9%N :: text) no_answer (u "5;6") 1 1
       ∈ extract_tasks_from_docx paragraphs) ∧
  (∀ i raw (n m sp text : str),
     stripped_lines paragraphs !! i = Some raw →
     main_number_before (stripped_lines paragraphs) i n →
     normalize raw = m ++ ch ")" :: sp ++ text →
     digits m → sp ≠ [] → forallb isspace sp = true →
     text ≠ [] → stops isspace text →
     Task (n ++ ch "." :: m) (9%N :: text) no_answer (u "5;6") 1 1
       ∈ extract_tasks_from_docx paragraphs).
Proof.
  intros Hs. set (lines := stripped_lines paragraphs) in *.
  assert (Hq : ∀ k, quiet (state_at lines k)).
  { intros k. apply scan_lines_quiet; [apply quiet_initial|].
    intros l Hl. apply Hs. by apply (subseteq_take k). }
  assert (Ha : ∀ k, answers_section (state_at lines k) = false)
    by (intros k; apply Hq).
  assert (Hfin : quiet (scanned paragraphs))
    by (apply scan_lines_quiet; [apply quiet_initial|done]).
  destruct Hfin as (_ & Hm & Hd).
  assert (He : extract_tasks_from_docx paragraphs = tasks (scanned paragraphs)).
  { unfold extract_tasks_from_docx. by rewrite Hm, merge_answers_empty. }
  split; [done|]. split; [done|]. split; [by rewrite He|].
  rewrite He. unfold scanned. fold lines. split_and!.
  - intros i raw n sp prose Hi Hl Hn Hsp Hne Hst Hlet Hnum H3 Hnext.
    apply (emitted_stays lines i raw); [done|].
    by apply (process_bare_main lines i raw _ n sp prose).
  - intros i raw n sp sp' text x Hi Hl Hn Hsp Hx Hsp' Hne Hst Hnext.
    apply (emitted_stays lines i raw); [done|].
    by apply (process_inline_letter lines i raw _ n sp sp' text x).
  - intros i raw n sp m sp' text Hi Hl Hn Hsp Hm' Hsp' Hne Hst Hnext.
    apply (emitted_stays lines i raw); [done|].
    by apply (process_inline_numbered lines i raw _ n sp m sp' text).
  - intros i raw n sp text x Hi Hb Hl Hx Hsp Hne Hst.
    pose proof (register_last lines i n Ha Hb) as Hreg.
    destruct Hb as (_ & _ & _ & _ & _ & _ & [Hn _] & _).
    apply (emitted_stays lines i raw); [done|].
    by apply (process_new_line_letter lines i raw _ n sp text x).
  - intros i raw n m sp text Hi Hb Hl Hm' Hsp0 Hsp Hne Hst.
    pose proof (register_last lines i n Ha Hb) as Hreg.
    destruct Hb as (_ & _ & _ & _ & _ & _ & [Hn _] & _).
    apply (emitted_stays lines i raw); [done|].
    by apply (process_new_line_numbered lines i raw _ n m sp text).
Qed.

Lemma no_sentinel_no_answers_witness :
  Task (u "1" ++ [ch "."; 1072%N]) (9%N :: u "x") no_answer (u "5;6") 1 1
    ∈ extract_tasks_from_docx [u "1. Solve"; u "а) x"; u "1. а) 5"].
Proof.
  refine (proj1 (proj2 (proj2 (proj2 (proj2 (proj2 (proj2
    (no_sentinel_no_answers [u "1. Solve"; u "а) x"; u "1. а) 5"] _)))))))
    1%nat (u "а) x") (u "1") (u " ") (u "x") 1072%N _ _ _ _ _ _ _).
  - intros l Hl. vm_compute in Hl.
    repeat (apply elem_of_cons in Hl as [->|Hl]; [vm_compute; discriminate|]).
    by apply elem_of_nil in Hl.
  - vm_compute. reflexivity.
  - exists 0%nat, (u "1. Solve"), (u " Solve"). split; [lia|].
    split; [vm_compute; reflexivity|]. split; [vm_compute; reflexivity|].
    split; [split; [discriminate|reflexivity]|]. split; [|intros k rawk Hk; lia].
    intros H%THREE_LEVEL_iff. vm_compute in H. destruct H as [? H].
    discriminate H.
  - vm_compute. reflexivity.
  - reflexivity.
  - reflexivity.
  - discriminate.
  - vm_compute. reflexivity.
Defined.

(** C7, as stated, fails: lines that the task patterns match do not
    always give a record. A sub-variant line with no main number before
    it gives none, and a main line followed by a line "N.M." gives none
    either, so without a sentinel the list can be empty although such
    lines occur. *)
Lemma task_shaped_lines_without_record :
  ((∀ l, l ∈ stripped_lines [u "а) x"] → normalize l ≠ sentinel) ∧
   is_Some (re_match NEW_LINE_LETTER (normalize (u "а) x"))) ∧
   extract_tasks_from_docx [u "а) x"] = []) ∧
  ((∀ l, l ∈ stripped_lines [u "1. Title"; u "1.1. part"] →
         normalize l ≠ sentinel) ∧
   is_Some (re_match MAIN (normalize (u "1. Title"))) ∧
   extract_tasks_from_docx [u "1. Title"; u "1.1. part"] = []).
Proof.
  split; (split; [|split; [vm_compute; by eexists|vm_compute; reflexivity]]).
  - intros l Hl. vm_compute in Hl.
    repeat (apply elem_of_cons in Hl as [->|Hl]; [vm_compute; discriminate|]).
    by apply elem_of_nil in Hl.
  - intros l Hl. vm_compute in Hl.
    repeat (apply elem_of_cons in Hl as [->|Hl]; [vm_compute; discriminate|]).
    by apply elem_of_nil in Hl.
Qed.

(** C8. Merging the same answer mapping into a task list twice gives the
    list that merging it once gives. *)
Theorem merge_answers_idempotent (m : gmap str str) (ts : list TaskRecord) :
  merge_answers m (merge_answers m ts) = merge_answers m ts.
Proof.
  unfold merge_answers. rewrite map_map. apply map_ext. intros t.
  destruct (m !! id_tasks_book t) as [a|] eqn:E; simpl; by rewrite E.
Qed.

(** C9. While the register is unset a new-line sub-variant line, "letter)
    ..." or "M) ...", adds no record; so every record such a line adds
    has the id "N.variant", N being the number of an earlier line "N. ..."
    of the task part, the one the register holds.  For a record of any
    line the number is that of a line "N. ..." not after it: an inline
    sub-variant takes it from its own line. *)
Theorem new_line_variant_needs_main_number lines i raw :
  lines !! i = Some raw →
  new_line_shape (normalize raw) →
  (∀ st, current_main_id st = None →
         tasks (process_line lines i raw st) = tasks st) ∧
  (∀ t, t ∈ drop (length (tasks (state_at lines i))) (tasks (state_at lines (S i))) →
     ∃ j rawj n rest,
       (j < i)%nat ∧ lines !! j = Some rawj ∧
       normalize rawj = n ++ ch "." :: rest ∧ digits n ∧
       answers_section (state_at lines j) = false ∧
       current_main_id (state_at lines i) = Some n ∧
       ((∃ x r, cyr x = true ∧ normalize raw = x :: ch ")" :: r ∧
                id_tasks_book t = n ++ [ch "."; x]) ∨
        (∃ m r, digits m ∧ normalize raw = m ++ ch ")" :: r ∧
                id_tasks_book t = n ++ ch "." :: m))) ∧
  (∀ i' raw' t, lines !! i' = Some raw' →
     t ∈ drop (length (tasks (state_at lines i'))) (tasks (state_at lines (S i'))) →
     ∃ j rawj n rest,
       (j ≤ i')%nat ∧ lines !! j = Some rawj ∧
       normalize rawj = n ++ ch "." :: rest ∧ digits n ∧
       (id_tasks_book t = n ∨ ∃ v, id_tasks_book t = dotted n v)).
Proof.
  intros Hi Hs. split; [|split; [|by apply emitted_origin]].
  - intros st Hreg. destruct (answers_section st) eqn:Ha.
    + by apply process_line_answers.
    + by apply new_line_without_register.
  - intros t. rewrite (state_at_S _ _ _ Hi).
    set (st := state_at lines i).
    destruct (answers_section st) eqn:Ha.
    { destruct (process_line_answers lines i raw st Ha) as (-> & _).
      rewrite drop_all. by intros ?%elem_of_nil. }
    rewrite process_line_scan by (done || by apply new_line_not_sentinel).
    cbn [tasks]. rewrite drop_app_length.
    rewrite scan_task_line_other by by apply new_line_not_main.
    destruct (current_main_id st) as [n|] eqn:Hreg.
    2:{ rewrite new_line_variant_None. by intros ?%elem_of_nil. }
    destruct (register_origin lines i n Hreg) as (j & rawj & rest & Hj & Hlj & Hnj & Hn & Haj).
    destruct (digits_head _ Hn) as (d & n' & En & _).
    intros Ht. exists j, rawj, n, rest. split_and!; try done.
    cbn [new_line_variant] in Ht.
    destruct Hs as [(x & r & Hx & Hl)|(m & r & Hm & Hl)]; rewrite Hl in Ht.
    + left. exists x, r. split_and!; try done.
      rewrite (NEW_LINE_NUMBERED_letter x) in Ht by done.
      destruct (re_match NEW_LINE_LETTER _) as [mm|] eqn:E;
        [|by apply elem_of_nil in Ht].
      rewrite (NEW_LINE_LETTER_inv x r mm Hx E), En in Ht.
      apply list_elem_of_singleton in Ht as ->. by rewrite En.
    + right. exists m, r. split_and!; try done.
      destruct (digits_head _ Hm) as (e & m' & Em & He).
      assert (E0 : re_match NEW_LINE_LETTER (m ++ ch ")" :: r) = None)
        by (rewrite Em; cbn [app]; by apply NEW_LINE_LETTER_digit).
      rewrite E0 in Ht.
      destruct (re_match NEW_LINE_NUMBERED _) as [mm|] eqn:E;
        [|by apply elem_of_nil in Ht].
      rewrite (NEW_LINE_NUMBERED_inv m r mm Hm E), En, Em in Ht.
      apply list_elem_of_singleton in Ht as ->. by rewrite En, Em.
Qed.

Lemma new_line_variant_needs_main_number_witness :
  tasks (process_line [u "а) x"; u "1. A"] 0 (u "а) x") initial) = [].
Proof.
  refine (proj1 (new_line_variant_needs_main_number
                   [u "а) x"; u "1. A"] 0 (u "а) x") _ _) initial _).
  - reflexivity.
  - left. exists 1072%N, (u " x"). split; [reflexivity|]. vm_compute. reflexivity.
  - reflexivity.
Defined.

(** C10. Before the answers section, a line that begins with a number N
    and a dot and is not three-level sets the register to N, also when it
    adds no record, because nothing follows the dot or because the next
    line "N.M." makes it a section header; a new-line sub-variant line
    that comes next attaches its record to N. *)
Theorem main_number_sets_register lines i raw st (n rest : str) :
  answers_section st = false →
  normalize raw = n ++ ch "." :: rest →
  digits n →
  ¬ three_level_shape (normalize raw) →
  let st' := process_line lines i raw st in
  current_main_id st' = Some n ∧
  (rest = [] → tasks st' = tasks st) ∧
  ((∃ next, lines !! (i + 1)%nat = Some next ∧ header_shape n (strip next)) →
   tasks st' = tasks st) ∧
  (∀ lines' j raw' x sp text,
     normalize raw' = x :: ch ")" :: sp ++ text →
     cyr x = true → forallb isspace sp = true → text ≠ [] → stops isspace text →
     tasks (process_line lines' j raw' st') =
     tasks st' ++ [Task (n ++ [ch "."; x]) (9%N :: text) no_answer (u "5;6") 1 1]) ∧
  (∀ lines' j raw' m sp text,
     normalize raw' = m ++ ch ")" :: sp ++ text →
     digits m → sp ≠ [] → forallb isspace sp = true →
     text ≠ [] → stops isspace text →
     tasks (process_line lines' j raw' st') =
     tasks st' ++ [Task (n ++ ch "." :: m) (9%N :: text) no_answer (u "5;6") 1 1]).
Proof.
  intros Ha Hl Hn H3 st'.
  assert (Hst' : st' =
    ScanState (tasks st ++ (scan_task_line lines i (n ++ ch "." :: rest) (current_main_id st)).1)
              (scan_task_line lines i (n ++ ch "." :: rest) (current_main_id st)).2
              false (all_answers st)).
  { unfold st'. rewrite process_line_scan, Hl; [done|done|].
    rewrite Hl. by apply digit_line_not_sentinel. }
  rewrite Hl in H3.
  assert (Hreg : current_main_id st' = Some n).
  { rewrite Hst'. cbn [current_main_id]. rewrite scan_task_line_main by done.
    destruct (is_header lines i n); [done|].
    destruct (inline_variant _ _) as [[??]|]; [done|]. by destruct (strip _). }
  assert (Hans : answers_section st' = false) by by rewrite Hst'.
  assert (Hne : n ≠ []) by by destruct Hn.
  split; [done|]. split; [|split; [|split]].
  - intros ->. rewrite Hst'. cbn [tasks]. rewrite scan_task_line_main by done.
    destruct (is_header lines i n); [by rewrite app_nil_r|].
    cbn [inline_variant].
    assert (E1 : re_match INLINE_LETTER (n ++ [ch "."]) = None)
      by by apply (INLINE_LETTER_none n [] []).
    assert (E2 : re_match INLINE_NUMBERED (n ++ [ch "."]) = None).
    { apply (INLINE_NUMBERED_none n [] []); try done.
      intros m rest _ _ E. by destruct m. }
    rewrite E1, E2. by rewrite app_nil_r.
  - intros Hh%is_header_iff. rewrite Hst'. cbn [tasks].
    rewrite scan_task_line_main by done. rewrite Hh. by rewrite app_nil_r.
  - intros lines' j raw' x sp text H1 H2 H4 H5 H6.
    by apply (process_new_line_letter lines' j raw' st' n sp text x).
  - intros lines' j raw' m sp text H1 H2 H4 H5 H6 H7.
    by apply (process_new_line_numbered lines' j raw' st' n m sp text).
Qed.

Lemma main_number_sets_register_witness :
  current_main_id
    (process_line [u "1. Title"; u "1.1. part"; u "а) first"] 0
                  (u "1. Title") initial) = Some (u "1").
Proof.
  refine (proj1 (main_number_sets_register
                   [u "1. Title"; u "1.1. part"; u "а) first"] 0
                   (u "1. Title") initial (u "1") (u " Title") _ _ _ _)).
  - reflexivity.
  - vm_compute. reflexivity.
  - split; [discriminate|reflexivity].
  - rewrite <- THREE_LEVEL_iff. vm_compute. by intros [? ?].
Defined.

(** * Further properties of the code *)

(** X1. A normalized line has no whitespace character but the space, no
    space at either end and no two spaces in a row, and it keeps the
    characters that are not whitespace, in their order. *)
Theorem normalize_normal_form (raw : str) :
  (∀ c, c ∈ normalize raw → isspace c = true → c = ch " ") ∧
  stops isspace (normalize raw) ∧
  (∀ c, last (normalize raw) = Some c → isspace c = false) ∧
  (∀ a x y b, normalize raw = a ++ x :: y :: b →
              isspace x = true → isspace y = false) ∧
  List.filter nonspace (normalize raw) = List.filter nonspace raw.
Proof.
  destruct (normalize_tidy raw) as [H1 H2].
  split; [done|]. split; [apply normalize_head|]. split; [done|]. split.
  - intros a x y b. rewrite normalize_squeeze. apply squeeze_single.
  - by rewrite normalize_squeeze, filter_squeeze, filter_strip.
Qed.

(** X2. Normalizing a normalized line changes nothing. *)
Theorem normalize_idempotent (raw : str) :
  normalize (normalize raw) = normalize raw.
Proof.
  rewrite (normalize_squeeze (normalize raw)).
  rewrite strip_id by (apply normalize_tidy || apply normalize_head).
  rewrite normalize_squeeze. apply squeeze_idem.
Qed.

(** X3. A paragraph of whitespace only has no effect on the extraction,
    wherever it stands. *)
Theorem blank_paragraph_ignored (a b : list str) (blank : str) :
  forallb isspace blank = true →
  extract_tasks_from_docx (a ++ blank :: b) = extract_tasks_from_docx (a ++ b).
Proof.
  intros H. unfold extract_tasks_from_docx, scanned.
  by rewrite stripped_lines_blank.
Qed.

Lemma blank_paragraph_ignored_witness :
  extract_tasks_from_docx ([u "1. Title"] ++ u "   " :: [u "1.1. part"]) =
  extract_tasks_from_docx ([u "1. Title"] ++ [u "1.1. part"]).
Proof. apply blank_paragraph_ignored. reflexivity. Defined.

(** X4. Before the answers section a line that is not the sentinel, does
    not begin with a number and a dot, and does not begin with a letter
    and a parenthesis or with a number, a parenthesis and a blank, is
    ignored: it leaves the state of the scan as it was. *)
Theorem free_prose_line_ignored lines i raw st :
  answers_section st = false →
  normalize raw ≠ sentinel →
  ¬ main_shape (normalize raw) →
  (∀ x rest, cyr x = true → normalize raw ≠ x :: ch ")" :: rest) →
  (∀ m x rest, digits m → isspace x = true →
               normalize raw ≠ m ++ ch ")" :: x :: rest) →
  process_line lines i raw st = st.
Proof.
  intros Ha Hs Hm Hlet Hnum.
  rewrite process_line_scan by done. rewrite scan_task_line_other by done.
  assert (E : ∀ reg, new_line_variant
            [(NEW_LINE_LETTER, 1%nat); (NEW_LINE_NUMBERED, 1%nat)] reg
            (normalize raw) = None).
  { intros reg. cbn [new_line_variant].
    rewrite NEW_LINE_LETTER_none, NEW_LINE_NUMBERED_none
      by (done || apply normalize_head). done. }
  rewrite E. simpl. rewrite app_nil_r. destruct st; simpl in *. by subst.
Qed.

Lemma free_prose_line_ignored_witness :
  process_line [u "2)text"] 0 (u "2)text") (ScanState [] (Some (u "1")) false ∅) =
  ScanState [] (Some (u "1")) false ∅.
Proof.
  apply free_prose_line_ignored.
  - reflexivity.
  - vm_compute. discriminate.
  - intros (n & t & Hn & E). apply (paren_line_not_main (u "2") (u "text")).
    + split; [discriminate|reflexivity].
    + exists n, t. split; [done|]. rewrite <- E. vm_compute. reflexivity.
  - intros x rest Hx E. vm_compute in E. injection E as <- _. by vm_compute in Hx.
  - intros m x rest Hm Hx E.
    assert (E' : u "2" ++ ch ")" :: u "text" = m ++ ch ")" :: x :: rest)
      by (rewrite <- E; vm_compute; reflexivity).
    apply digits_split_unique in E' as [_ E']; [|split; [discriminate|reflexivity]|done|done..].
    injection E' as <- _. by vm_compute in Hx.
Defined.

(** X5. A normalized line "N.M) text", M a number, met before the answers
    section and not followed by a line "N.K.", adds exactly one record:
    a sub-variant with id "N.M" and the text behind a tab. *)
Theorem inline_numbered_line_emits_subtask lines i raw st
    (n sp m sp' text : str) :
  answers_section st = false →
  normalize raw = n ++ ch "." :: sp ++ m ++ ch ")" :: sp' ++ text →
  digits n → forallb isspace sp = true → digits m →
  forallb isspace sp' = true → text ≠ [] → stops isspace text →
  (∀ next, lines !! (i + 1)%nat = Some next → ¬ header_shape n (strip next)) →
  tasks (process_line lines i raw st) =
  tasks st ++ [Task (n ++ ch "." :: m) (9%N :: text) no_answer (u "5;6") 1 1].
Proof.
  intros Ha Hl Hn Hsp Hm Hsp' Hne Hst Hnext.
  pose proof (normalize_tidy raw) as Ht. rewrite Hl in Ht.
  assert (Ht' : tidy ((n ++ ch "." :: sp ++ m ++ ch ")" :: sp') ++ text))
    by (repeat (rewrite <- app_assoc; cbn [app]); exact Ht).
  destruct (tidy_text _ _ Ht' Hne Hst) as [Hnl Hstrip].
  destruct (digits_head _ Hm) as (e & m' & Em & He).
  rewrite process_line_scan; [|done|rewrite Hl; by apply digit_line_not_sentinel].
  rewrite Hl, scan_task_line_main; [|done|].
  2:{ intros (d1 & d2 & rest & H1 & H2 & E).
      apply digits_split_unique in E as [_ E]; [|done|done|by apply stops_lit..].
      injection E as E. destruct (digits_head _ H2) as (d & ? & -> & Hd).
      destruct sp as [|y sp].
      - simpl in E. apply (digits_split_unique m (d :: x)) in E as [_ E];
          [done|done|done|by apply stops_lit..].
      - injection E as -> _. simpl in Hsp. apply andb_prop in Hsp as [Hy _].
        apply space_not_digit in Hy. congruence. }
  destruct (is_header lines i n) eqn:E.
  { apply is_header_iff in E as (next & E & Hh). by destruct (Hnext next). }
  cbn [inline_variant].
  rewrite (INLINE_LETTER_none n sp (m ++ ch ")" :: sp' ++ text)); try done.
  2:{ rewrite Em. by apply digit_stops_space. }
  2:{ intros x rest Hx _. rewrite Em. intros [= -> _].
      apply letter_not_digit in Hx. congruence. }
  destruct (INLINE_NUMBERED_some n sp m sp' text) as (r & -> & _ & -> & ->);
    [done..|].
  rewrite Hstrip, Em. done.
Qed.

Lemma inline_numbered_line_emits_subtask_witness :
  tasks (process_line [u "7. 2) solve it"] 0 (u "7. 2) solve it") initial) =
  [Task (u "7.2") (9%N :: u "solve it") no_answer (u "5;6") 1 1].
Proof.
  apply (inline_numbered_line_emits_subtask [u "7. 2) solve it"] 0
           (u "7. 2) solve it") initial (u "7") (u " ") (u "2") (u " ") (u "solve it")).
  - reflexivity.
  - vm_compute. reflexivity.
  - split; [discriminate|reflexivity].
  - reflexivity.
  - split; [discriminate|reflexivity].
  - reflexivity.
  - discriminate.
  - reflexivity.
  - intros next H. discriminate H.
Defined.

(** X6. Every line adds at most one record, so there are never more
    records than non-blank paragraphs. *)
Theorem at_most_one_task_per_line :
  (∀ lines i raw st,
     (length (tasks (process_line lines i raw st)) ≤ S (length (tasks st)))%nat) ∧
  (∀ paragraphs,
     (length (extract_tasks_from_docx paragraphs)
      ≤ length (stripped_lines paragraphs))%nat ∧
     (length (stripped_lines paragraphs) ≤ length paragraphs)%nat).
Proof.
  split; [apply process_line_one|]. intros paragraphs. split.
  - unfold extract_tasks_from_docx, merge_answers. rewrite length_map.
    unfold scanned. pose proof (scan_lines_length (stripped_lines paragraphs) 0
                                  (stripped_lines paragraphs) initial).
    simpl in *. lia.
  - unfold stripped_lines. etrans; [apply length_filter|]. by rewrite length_map.
Qed.

(** X7. Every record returned has the fixed metadata, classes "5;6",
    topic 1 and level 1, and its answer is the value the answer mapping
    has for its id, or "Отсутствует" when the mapping has none. *)
Theorem returned_record_fields paragraphs t :
  t ∈ extract_tasks_from_docx paragraphs →
  classes t = u "5;6" ∧ topic_id t = 1%Z ∧ level t = 1%Z ∧
  answer t =
  default (u "Отсутствует") (all_answers (scanned paragraphs) !! id_tasks_book t).
Proof.
  unfold extract_tasks_from_docx.
  intros (t0 & Ht0 & Hid & _ & -> & -> & -> & ->)%merge_answers_elem.
  pose proof (scanned_fresh paragraphs) as H. rewrite Forall_forall in H.
  destruct (H t0 Ht0) as (Ha & Hc & Htop & Hlev).
  rewrite Hid, Ha. done.
Qed.

Lemma returned_record_fields_witness :
  answer (Task (u "1") (u "x") (u "5") (u "5;6") 1 1) =
  default (u "Отсутствует")
    (all_answers (scanned [u "1. x"; u "Ответы и советы"; u "1. 5"]) !! u "1").
Proof.
  refine (proj2 (proj2 (proj2 (returned_record_fields
    [u "1. x"; u "Ответы и советы"; u "1. 5"]
    (Task (u "1") (u "x") (u "5") (u "5;6") 1 1) _)))).
  vm_compute. left.
Defined.

(** X8. In the answers section the last line that gives an answer for an
    id decides: every record returned with that id carries that answer. *)
Theorem last_answer_wins paragraphs (pre post : list str) (l k a : str) t :
  stripped_lines paragraphs = pre ++ l :: post →
  answers_section (scan_lines (stripped_lines paragraphs) 0 pre initial) = true →
  normalize l ≠ sentinel →
  extract_answers_from_line (normalize l) !! k = Some a →
  (∀ l', l' ∈ post → normalize l' ≠ sentinel →
         extract_answers_from_line (normalize l') !! k = None) →
  t ∈ extract_tasks_from_docx paragraphs → id_tasks_book t = k →
  answer t = a.
Proof.
  intros Hl Ha Hs Hk Hpost Ht Hid.
  destruct (returned_record_fields paragraphs t Ht) as (_ & _ & _ & ->).
  rewrite Hid. unfold scanned. rewrite Hl at 2. rewrite scan_lines_app. simpl.
  set (st := scan_lines _ 0 pre initial) in *.
  destruct (process_line_answers (stripped_lines paragraphs) (0 + length pre) l st Ha)
    as (_ & _ & Ha').
  rewrite scan_lines_answers_kept by done.
  rewrite process_line_answers_map by done. by rewrite Hk.
Qed.

Lemma last_answer_wins_witness :
  answer (Task (u "1") (u "x") (u "7") (u "5;6") 1 1) = u "7".
Proof.
  apply (last_answer_wins
           [u "1. x"; u "Ответы и советы"; u "1. 5"; u "1. 7"; u "2. 9"]
           [u "1. x"; u "Ответы и советы"; u "1. 5"] [u "2. 9"]
           (u "1. 7") (u "1") (u "7")
           (Task (u "1") (u "x") (u "7") (u "5;6") 1 1)).
  - vm_compute. reflexivity.
  - vm_compute. reflexivity.
  - vm_compute. discriminate.
  - vm_compute. reflexivity.
  - intros l' Hl' _. apply list_elem_of_singleton in Hl' as ->.
    vm_compute. reflexivity.
  - vm_compute. left.
  - reflexivity.
Defined.

(** X9. Paragraphs before the first one that contains "Оглавление" take no
    part in the outline, numbered or not; without such a paragraph the
    outline is empty. *)
Theorem outline_starts_at_heading (pre rest : list str) :
  (∀ p, p ∈ pre → ¬ has_heading p) →
  extract_toc (pre ++ rest) = extract_toc rest ∧ extract_toc pre = [].
Proof.
  intros H. unfold extract_toc, toc_with_temp. split.
  - by rewrite toc_loop_before_heading.
  - rewrite <- (app_nil_r pre). by rewrite toc_loop_before_heading.
Qed.

Lemma outline_starts_at_heading_witness :
  extract_toc ([u "1. Intro"] ++ [u "Оглавление"; u "2. Next"]) =
  extract_toc [u "Оглавление"; u "2. Next"].
Proof.
  refine (proj1 (outline_starts_at_heading [u "1. Intro"]
                   [u "Оглавление"; u "2. Next"] _)).
  intros p Hp%list_elem_of_singleton. subst p.
  rewrite <- has_heading_iff. vm_compute. discriminate.
Defined.

(** X10. Inside the outline the first paragraph that does not begin with a
    digit and does not contain the heading ends the scan: nothing after it
    is read. *)
Theorem outline_stops_at_first_other_line (pre post : list str) (bad : str) :
  (∃ p, p ∈ pre ∧ has_heading p) →
  ¬ has_heading bad → stops isdigit (strip bad) →
  extract_toc (pre ++ bad :: post) = extract_toc pre.
Proof.
  intros Hin Hbad Hd. unfold extract_toc, toc_with_temp.
  rewrite toc_loop_break; [done|by right|done|done].
Qed.

Lemma outline_stops_at_first_other_line_witness :
  extract_toc ([u "Оглавление"; u "1. Intro"] ++ u "Preface" :: [u "2. Next"]) =
  extract_toc [u "Оглавление"; u "1. Intro"].
Proof.
  apply outline_stops_at_first_other_line.
  - exists (u "Оглавление"). split; [by left|].
    rewrite <- has_heading_iff. vm_compute. reflexivity.
  - rewrite <- has_heading_iff. vm_compute. discriminate.
  - vm_compute. reflexivity.
Defined.

(** X11. Every key of the mapping an answers line gives is a task number,
    a run of digits, alone or followed by a dot and a variant. *)
Theorem answer_keys_begin_with_number (line k : str) :
  is_Some (extract_answers_from_line line !! k) →
  ∃ n, digits n ∧ (k = n ∨ ∃ v, k = dotted n v).
Proof.
  unfold extract_answers_from_line.
  set (Q := fun k : str => ∃ n, digits n ∧ (k = n ∨ ∃ v, k = dotted n v)).
  assert (H : ∀ (parts : list str) (answers : gmap str str),
             (∀ k, is_Some (answers !! k) → Q k) →
             ∀ k, is_Some (foldl (fun answers part =>
                    match re_match ANSWER_TASK part with
                    | None => answers
                    | Some task_match =>
                      answers_of_part [NUMBERED_VARIANT; LETTER_VARIANT]
                        (group_str 1 task_match)
                        (strip (group_str 2 task_match)) answers
                    end) answers parts !! k) → Q k).
  { induction parts as [|part parts IH]; intros answers Ha; [done|].
    cbn [foldl]. apply IH. destruct (re_match ANSWER_TASK part) as [m|] eqn:E; [|done].
    apply ANSWER_TASK_inv in E.
    apply (answers_of_part_keys Q).
    - exists (group_str 1 m). split; [done|by left].
    - intros v. exists (group_str 1 m). split; [done|right; by exists v].
    - done. }
  apply H. intros k'. rewrite lookup_empty. by intros [? ?].
Qed.

Lemma answer_keys_begin_with_number_witness :
  ∃ n, digits n ∧ (u "3.б" = n ∨ ∃ v, u "3.б" = dotted n v).
Proof.
  apply (answer_keys_begin_with_number (u "3. а) 5 б) 6")).
  vm_compute. by eexists.
Defined.

(** X12. A line without any decimal digit gives no answer. *)
Theorem line_without_digit_has_no_answer (line : str) :
  (∀ c, c ∈ line → isdigit c = false) →
  extract_answers_from_line line = ∅.
Proof.
  intros H. unfold extract_answers_from_line.
  rewrite re_split_None.
  - cbn [foldl]. rewrite ANSWER_TASK_none; [done|].
    destruct line as [|x t]; [done|]. simpl. apply H. by left.
  - apply search_from_None. intros a b ->.
    destruct (rmatch ANSWER_SPLIT _ Some) as [r|] eqn:E; [|done].
    apply ANSWER_SPLIT_needs in E as (_ & _ & x & Hx & Hd).
    rewrite H in Hd; [done|]. apply elem_of_app. by right.
Qed.

Lemma line_without_digit_has_no_answer_witness :
  extract_answers_from_line (u "см. а) выше") = ∅.
Proof.
  apply line_without_digit_has_no_answer. intros c Hc.
  vm_compute in Hc.
  repeat (apply elem_of_cons in Hc as [->|Hc]; [reflexivity|]).
  by apply elem_of_nil in Hc.
Defined.

(** X13. An answers line "N. text" whose text has no parenthesis, no dot
    and no line break gives exactly one answer: the text, stripped, for
    the task N. *)
Theorem bare_answer_line (n text : str) :
  digits n →
  ch ")" ∉ text → ch "." ∉ text → 10%N ∉ text → strip text ≠ [] →
  extract_answers_from_line (n ++ ch "." :: text) = {[ n := strip text ]}.
Proof.
  intros Hn Hp Hd Hnl Hne.
  assert (Ht : text ≠ []) by (by intros ->).
  assert (Hnl' : forallb notnl text = true).
  { apply forallb_forall. intros c Hc%list_elem_of_In.
    apply negb_true_iff, N.eqb_neq. by intros ->. }
  unfold extract_answers_from_line. rewrite re_split_None.
  - cbn [foldl]. destruct (ANSWER_TASK_some n text) as (m & -> & -> & ->); [done..|].
    rewrite answers_of_part_bare; [|done|by intros ?%elem_of_strip].
    rewrite re_sub_None.
    + by rewrite strip_strip, insert_empty.
    + apply (search_needs _ (ch ".")); [apply FINAL_DOT_needs|].
      by intros ?%elem_of_strip.
  - apply search_from_None. intros a b E.
    destruct (rmatch ANSWER_SPLIT _ Some) as [r|] eqn:Em; [|done].
    apply ANSWER_SPLIT_needs in Em as ([t Ea] & Hb & _).
    rewrite app_nil_r in Ea.
    assert (Ea' : a = rev t ++ [ch "."])
      by (by rewrite <- (rev_involutive a), Ea).
    pose proof (digits_no_lit "." n eq_refl Hn) as Hn'.
    subst a. symmetry in E. apply app_eq_inv in E as [(w & E1 & E2)|(w & E1 & E2)].
    + destruct w as [|y w].
      * rewrite app_nil_r in E1. destruct Hn'. rewrite <- E1.
        apply elem_of_app. right. by left.
      * injection E2 as _ ->. destruct Hd. apply elem_of_app. by right.
    + destruct Hn'. rewrite E1. apply elem_of_app. left.
      apply elem_of_app. right. by left.
Qed.

Lemma bare_answer_line_witness :
  extract_answers_from_line (u "12" ++ ch "." :: u " три четверти ") =
  {[ u "12" := strip (u " три четверти ") ]}.
Proof.
  apply bare_answer_line.
  - split; [discriminate|reflexivity].
  - intros H. vm_compute in H.
    repeat (apply elem_of_cons in H as [H|H]; [discriminate H|]).
    by apply elem_of_nil in H.
  - intros H. vm_compute in H.
    repeat (apply elem_of_cons in H as [H|H]; [discriminate H|]).
    by apply elem_of_nil in H.
  - intros H. vm_compute in H.
    repeat (apply elem_of_cons in H as [H|H]; [discriminate H|]).
    by apply elem_of_nil in H.
  - vm_compute. discriminate.
Defined.

(** X14. Inside the outline a line "number separator title blank page"
    adds one node: its name is the title without the page number, its key
    the section number, its parent as the parent rule gives it; the
    identifier advances by one. *)
Theorem outline_entry_with_page (para : str) (rest : list str) (cid : Z)
    (toc : list TocItem) (d0 : str) (ds : list str) (sep title w page : str) :
  ¬ has_heading para →
  digits d0 → Forall digits ds →
  sep ≠ [] → forallb tocsep sep = true →
  (sep = [ch "."] → stops isdigit title) →
  title ≠ [] → stops tocsep title → forallb notnl title = true →
  (∀ y, last title = Some y → isspace y = false) →
  w ≠ [] → forallb isspace w = true → digits page →
  strip para = (d0 ++ segments ds) ++ sep ++ title ++ w ++ page →
  toc_loop (para :: rest) true cid toc =
  toc_loop rest true (cid + 1)
    (toc ++ [Toc cid title (resolve_parent toc (d0 ++ segments ds))
                 (Some (d0 ++ segments ds))]).
Proof.
  intros Hh Hd0 Hds Hsep Hs Hdot Hne Hst Hnl Hlast Hw Hws Hp Hstrip.
  destruct title as [|x t]; [done|]. simpl in Hst.
  assert (HL : is_Some (re_match TOC_LINE (strip para))).
  { rewrite Hstrip. apply TOC_LINE_some; [done..|].
    by apply sep_no_segment. }
  assert (Hfail : ∀ a1 a2 pr c, t = a1 ++ a2 → a2 ≠ [] →
     rmatch (Seq [Opt (Seq [Plus true space; Plus true digit]); Eol])
            (MState pr (a2 ++ w ++ page) c) Some = None).
  { intros a1 a2 pr c -> Ha2.
    destruct (exists_last Ha2) as (a & y & ->).
    apply toc_tail_inside; [|done|done|by destruct Hp].
    apply Hlast. rewrite app_assoc, app_comm_cons. apply last_snoc. }
  destruct (TOC_SECTION_some d0 ds sep x t (w ++ page) Hd0 Hds Hsep Hs Hdot
              Hst Hnl Hfail (fun pr c => toc_tail_page pr w page c Hw Hws Hp))
    as (m & Hm & H1 & H2).
  cbn [toc_loop]. cbv zeta.
  destruct (contains _ _) eqn:E; [by apply has_heading_iff in E|].
  rewrite bool_decide_eq_true_2 by done. cbn [andb].
  rewrite Hstrip, Hm, H1, H2. unfold strip.
  by rewrite lstrip_id, rstrip_id by (done || (simpl; by apply tocsep_space)).
Qed.

Lemma outline_entry_with_page_witness :
  toc_loop [u " 1.1 Числа 5"] true 2 [Toc 1 (u "Введение") 0 (Some (u "1"))] =
  [Toc 1 (u "Введение") 0 (Some (u "1")); Toc 2 (u "Числа") 1 (Some (u "1.1"))].
Proof.
  etrans.
  - apply (outline_entry_with_page (u " 1.1 Числа 5") [] 2
             [Toc 1 (u "Введение") 0 (Some (u "1"))]
             (u "1") [u "1"] (u " ") (u "Числа") (u " ") (u "5")).
    + rewrite <- has_heading_iff. vm_compute. discriminate.
    + split; [discriminate|reflexivity].
    + repeat constructor; discriminate.
    + discriminate.
    + reflexivity.
    + intros H. vm_compute in H. discriminate H.
    + discriminate.
    + vm_compute. reflexivity.
    + reflexivity.
    + intros y H. vm_compute in H. injection H as <-. reflexivity.
    + discriminate.
    + reflexivity.
    + split; [discriminate|reflexivity].
    + vm_compute. reflexivity.
  - vm_compute. reflexivity.
Defined.

(** X15. Inside the outline a line "number separator title" whose title
    does not end in a blank and a number adds one node named by the whole
    title. *)
Theorem outline_entry_without_page (para : str) (rest : list str) (cid : Z)
    (toc : list TocItem) (d0 : str) (ds : list str) (sep title : str) :
  ¬ has_heading para →
  digits d0 → Forall digits ds →
  sep ≠ [] → forallb tocsep sep = true →
  (sep = [ch "."] → stops isdigit title) →
  title ≠ [] → stops tocsep title → forallb notnl title = true →
  (∀ a w n, w ≠ [] → forallb isspace w = true → digits n →
            title ≠ a ++ w ++ n) →
  strip para = (d0 ++ segments ds) ++ sep ++ title →
  toc_loop (para :: rest) true cid toc =
  toc_loop rest true (cid + 1)
    (toc ++ [Toc cid title (resolve_parent toc (d0 ++ segments ds))
                 (Some (d0 ++ segments ds))]).
Proof.
  intros Hh Hd0 Hds Hsep Hs Hdot Hne Hst Hnl Hplain Hstrip.
  assert (Hlast : ∀ y, last title = Some y → isspace y = false).
  { intros y Hy. apply (strip_last para). rewrite Hstrip, !last_app.
    by rewrite Hy. }
  destruct title as [|x t]; [done|]. simpl in Hst.
  assert (HL : is_Some (re_match TOC_LINE (strip para))).
  { rewrite Hstrip. apply TOC_LINE_some; [done..|].
    rewrite <- (app_nil_r (x :: t)). by apply sep_no_segment. }
  assert (Hfail : ∀ a1 a2 pr c, t = a1 ++ a2 → a2 ≠ [] →
     rmatch (Seq [Opt (Seq [Plus true space; Plus true digit]); Eol])
            (MState pr (a2 ++ []) c) Some = None).
  { intros a1 a2 pr c -> Ha2. rewrite app_nil_r.
    apply toc_tail_plain; [done| |].
    - cbn [forallb] in Hnl. rewrite forallb_app in Hnl.
      rewrite !andb_true_iff in Hnl. tauto.
    - intros w n Hw Hws Hn ->. by apply (Hplain (x :: a1) w n). }
  destruct (TOC_SECTION_some d0 ds sep x t [] Hd0 Hds Hsep Hs Hdot
              Hst Hnl Hfail (fun pr c => ex_intro _ pr (toc_tail_end pr c)))
    as (m & Hm & H1 & H2).
  rewrite app_nil_r in Hm.
  cbn [toc_loop]. cbv zeta.
  destruct (contains _ _) eqn:E; [by apply has_heading_iff in E|].
  rewrite bool_decide_eq_true_2 by done. cbn [andb].
  rewrite Hstrip, Hm, H1, H2. unfold strip.
  by rewrite lstrip_id, rstrip_id by (done || (simpl; by apply tocsep_space)).
Qed.

Lemma outline_entry_without_page_witness :
  toc_loop [u "2. Дроби и проценты"] true 1 [] =
  [Toc 1 (u "Дроби и проценты") 0 (Some (u "2"))].
Proof.
  etrans.
  - apply (outline_entry_without_page (u "2. Дроби и проценты") [] 1 []
             (u "2") [] (u ". ") (u "Дроби и проценты")).
    + rewrite <- has_heading_iff. vm_compute. discriminate.
    + split; [discriminate|reflexivity].
    + constructor.
    + discriminate.
    + reflexivity.
    + intros H. vm_compute in H. discriminate H.
    + discriminate.
    + vm_compute. reflexivity.
    + reflexivity.
    + intros a w n Hw Hws [Hn Hd] E.
      apply (f_equal (@rev N)) in E. rewrite !rev_app_distr in E.
      destruct (rev n) as [|d n'] eqn:En.
      { apply (f_equal (@rev N)) in En. rewrite rev_involutive in En. done. }
      assert (Hd' : isdigit d = true).
      { rewrite forallb_forall in Hd. apply Hd, in_rev. rewrite En. by left. }
      vm_compute in E. injection E as E _. subst d. vm_compute in Hd'.
      discriminate Hd'.
    + vm_compute. reflexivity.
  - vm_compute. reflexivity.
Defined.

(** X16. An answers line "N.text." whose text has no parenthesis, no dot
    and no line break, and is not blanks followed by a number, gives
    exactly one answer: the text, stripped and without the final dot, for
    the task N. *)
Theorem answer_final_dot_removed (n text : str) :
  digits n →
  ch ")" ∉ text → ch "." ∉ text → 10%N ∉ text →
  (∀ ws ds, ws ≠ [] → forallb isspace ws = true → digits ds →
            text ≠ ws ++ ds) →
  extract_answers_from_line (n ++ ch "." :: text ++ [ch "."]) =
  {[ n := strip text ]}.
Proof.
  intros Hn Hp Hd Hnl Hns.
  assert (Hnl' : forallb notnl (text ++ [ch "."]) = true).
  { apply forallb_forall. intros c Hc%list_elem_of_In.
    apply negb_true_iff, N.eqb_neq. intros ->.
    apply elem_of_app in Hc as [Hc|Hc%list_elem_of_singleton]; done. }
  assert (Hne : text ++ [ch "."] ≠ []) by (by destruct text).
  unfold extract_answers_from_line. rewrite re_split_None.
  - cbn [foldl].
    destruct (ANSWER_TASK_some n (text ++ [ch "."]) Hn Hne Hnl')
      as (m & -> & -> & ->).
    rewrite strip_before_dot, answers_of_part_bare.
    + by rewrite re_sub_FINAL_DOT, strip_lstrip, insert_empty.
    + by destruct (lstrip text).
    + intros [H%elem_of_dropwhile|H%list_elem_of_singleton]%elem_of_app; done.
  - apply search_from_None. intros a b E.
    destruct (rmatch ANSWER_SPLIT _ Some) as [r|] eqn:Em; [|done].
    destruct (dotted_line_split n text a b r Hn Hd E Em)
      as (ws & ds & Hne' & Hws & Hds & ->).
    by destruct (Hns ws ds).
Qed.

Lemma answer_final_dot_removed_witness :
  extract_answers_from_line (u "12" ++ ch "." :: u " три четверти" ++ [ch "."]) =
  {[ u "12" := strip (u " три четверти") ]}.
Proof.
  apply answer_final_dot_removed.
  - split; [discriminate|reflexivity].
  - intros H. vm_compute in H.
    repeat (apply elem_of_cons in H as [H|H]; [discriminate H|]).
    by apply elem_of_nil in H.
  - intros H. vm_compute in H.
    repeat (apply elem_of_cons in H as [H|H]; [discriminate H|]).
    by apply elem_of_nil in H.
  - intros H. vm_compute in H.
    repeat (apply elem_of_cons in H as [H|H]; [discriminate H|]).
    by apply elem_of_nil in H.
  - intros ws ds _ _ Hds. apply (ends_without_digit _ 1080%N); [|reflexivity|done].
    vm_compute. reflexivity.
Defined.

(** X17. An answers line "N. M." of two numbers, each followed by a dot,
    gives no answer at all: it is split into "N." and "M.", and neither
    part has an answer text. *)
Theorem numeric_answer_with_dot_lost (n ws d : str) :
  digits n → ws ≠ [] → forallb isspace ws = true → digits d →
  extract_answers_from_line (n ++ ch "." :: ws ++ d ++ [ch "."]) = ∅.
Proof.
  intros Hn Hne Hws Hd. unfold extract_answers_from_line.
  rewrite numeric_line_split by done. cbn [foldl].
  by rewrite !ANSWER_TASK_no_text.
Qed.

Lemma numeric_answer_with_dot_lost_witness :
  extract_answers_from_line (u "12" ++ ch "." :: u " " ++ u "45" ++ [ch "."]) = ∅.
Proof.
  apply numeric_answer_with_dot_lost.
  - split; [discriminate|reflexivity].
  - discriminate.
  - reflexivity.
  - split; [discriminate|reflexivity].
Defined.

(** X18. The records do not depend on what follows the sentinel: with a
    paragraph that normalizes to the sentinel heading after them, the
    paragraphs before it give the records they give alone, by id and by
    text, whatever comes after. *)
Theorem records_fixed_before_sentinel (pre post : list str) (s : str) :
  normalize s = sentinel →
  tasks (scanned (pre ++ s :: post)) = tasks (scanned pre) ∧
  map id_tasks_book (extract_tasks_from_docx (pre ++ s :: post)) =
  map id_tasks_book (extract_tasks_from_docx pre) ∧
  map task (extract_tasks_from_docx (pre ++ s :: post)) =
  map task (extract_tasks_from_docx pre).
Proof.
  intros Hs. destruct (sentinel_line_head s Hs) as [Hne Hd].
  assert (Hs' : normalize (strip s) = sentinel).
  { unfold normalize in *. by rewrite strip_strip. }
  assert (Ht : tasks (scanned (pre ++ s :: post)) = tasks (scanned pre)).
  { unfold scanned. rewrite stripped_lines_app, stripped_lines_cons by done.
    set (l1 := stripped_lines pre). set (l2 := stripped_lines post).
    cbv zeta. rewrite scan_lines_app. cbn [scan_lines].
    rewrite process_line_sentinel by done.
    rewrite (proj2 (scan_lines_answers _ _ _ (ScanState _ _ true _) eq_refl)).
    cbn [tasks].
    rewrite scan_lines_local; [done| |simpl; lia].
    intros next [= <-]. by rewrite strip_strip. }
  split; [done|]. unfold extract_tasks_from_docx. cbv zeta.
  by rewrite !merge_answers_ids, !merge_answers_texts, Ht.
Qed.

Lemma records_fixed_before_sentinel_witness :
  map id_tasks_book (extract_tasks_from_docx
    ([u "1. x"; u "а) y"] ++ u " Ответы  и советы" :: [u "1. 5"; u "2. z"])) =
  map id_tasks_book (extract_tasks_from_docx [u "1. x"; u "а) y"]).
Proof.
  refine (proj1 (proj2 (records_fixed_before_sentinel
    [u "1. x"; u "а) y"] [u "1. 5"; u "2. z"] (u " Ответы  и советы") _))).
  vm_compute. reflexivity.
Defined.

(** X19. A normalized answers line "N. M) text" whose text has no
    parenthesis, dot or semicolon gives exactly one answer: the text, for
    the variant M of the task N. *)
Theorem numbered_variant_answer (n sp m sp' text : str) :
  digits n → forallb isspace sp = true → digits m →
  forallb isspace sp' = true → text ≠ [] → stops isspace text →
  tidy (n ++ ch "." :: sp ++ m ++ ch ")" :: sp' ++ text) →
  ch ")" ∉ text → ch "." ∉ text → ch ";" ∉ text →
  extract_answers_from_line (n ++ ch "." :: sp ++ m ++ ch ")" :: sp' ++ text) =
  {[ dotted n m := text ]}.
Proof.
  intros Hn Hsp Hm Hsp' Hne Hst Ht Hp Hd Hs.
  set (rest := sp ++ m ++ ch ")" :: sp' ++ text) in *.
  set (var := m ++ ch ")" :: sp' ++ text).
  assert (Hnl : forallb notnl (n ++ ch "." :: rest) = true) by by apply tidy_notnl.
  assert (Hlast : ∀ c, last text = Some c → isspace c = false).
  { intros c Hc. apply (proj2 Ht). unfold rest.
    rewrite last_app, last_cons, last_app, last_app, last_cons, last_app.
    by rewrite Hc. }
  assert (Hnl1 : forallb notnl rest = true).
  { rewrite forallb_app in Hnl. apply andb_prop in Hnl as [_ Hnl].
    cbn [forallb] in Hnl. by apply andb_prop in Hnl as [_ Hnl]. }
  assert (Hnl2 : 10%N ∉ text).
  { intros H. rewrite forallb_forall in Hnl1.
    assert (Hin : 10%N ∈ rest).
    { unfold rest. rewrite !elem_of_app, elem_of_cons, elem_of_app. tauto. }
    apply list_elem_of_In, Hnl1 in Hin. done. }
  assert (Hdr : ch "." ∉ rest).
  { unfold rest. rewrite !elem_of_app, elem_of_cons, elem_of_app.
    intros [H|[H|[H|[H|H]]]]; [|by apply (digits_no_lit "." m)|done| |done].
    - rewrite forallb_forall in Hsp. by apply list_elem_of_In, Hsp in H.
    - rewrite forallb_forall in Hsp'. by apply list_elem_of_In, Hsp' in H. }
  assert (Hvar : strip rest = var).
  { destruct (digits_head _ Hm) as (e & m' & Em & He).
    unfold strip, lstrip, rest.
    rewrite dropwhile_stop; [|done|rewrite Em; by apply digit_stops_space].
    apply rstrip_id. intros c. fold var. unfold var.
    rewrite last_app, last_cons, last_app.
    destruct (last text) as [y|] eqn:Ey; [intros [= <-]; by apply Hlast|].
    by destruct text using rev_ind; [|rewrite last_snoc in Ey]. }
  destruct (NUMBERED_VARIANT_some m sp' text Hm Hsp' Hne Hst Hp Hd Hs Hnl2)
    as (r & Hr & Hsuf & Hg1 & Hg2). fold var in Hr.
  assert (Hfind : re_finditer NUMBERED_VARIANT var = [r]).
  { apply re_finditer_one; [by destruct m|done|done|].
    destruct (rmatch NUMBERED_VARIANT (at_pos (pre r) []) Some)
      as [r'|] eqn:E; [|done].
    by apply NUMBERED_VARIANT_needs, elem_of_nil in E. }
  unfold extract_answers_from_line.
  rewrite re_split_None by (by apply single_dot_no_split).
  cbn [foldl].
  assert (Hrest : rest ≠ []) by (unfold rest; by destruct sp, m).
  destruct (ANSWER_TASK_some n rest Hn Hrest Hnl1) as (mt & -> & -> & ->).
  rewrite Hvar. cbn [answers_of_part]. rewrite Hfind.
  unfold add_variants. cbn [foldl]. rewrite Hg1, Hg2.
  unfold strip. rewrite lstrip_id, rstrip_id by done.
  by rewrite insert_empty.
Qed.

Lemma numbered_variant_answer_witness :
  extract_answers_from_line
    (u "7" ++ ch "." :: u " " ++ u "2" ++ ch ")" :: u " " ++ u "три четверти") =
  {[ dotted (u "7") (u "2") := u "три четверти" ]}.
Proof.
  apply numbered_variant_answer.
  - split; [discriminate|reflexivity].
  - reflexivity.
  - split; [discriminate|reflexivity].
  - reflexivity.
  - discriminate.
  - reflexivity.
  - split.
    + intros c Hc Hsp. vm_compute in Hc.
      repeat (apply elem_of_cons in Hc as [->|Hc];
              [first [reflexivity|discriminate Hsp]|]).
      by apply elem_of_nil in Hc.
    + intros c Hc. vm_compute in Hc. injection Hc as <-. reflexivity.
  - intros H. vm_compute in H.
    repeat (apply elem_of_cons in H as [H|H]; [discriminate H|]).
    by apply elem_of_nil in H.
  - intros H. vm_compute in H.
    repeat (apply elem_of_cons in H as [H|H]; [discriminate H|]).
    by apply elem_of_nil in H.
  - intros H. vm_compute in H.
    repeat (apply elem_of_cons in H as [H|H]; [discriminate H|]).
    by apply elem_of_nil in H.
Defined.
